(** * The product-page extractor: a shallow embedding of [extractor.py] and of
      the selector merge of [app.py], with the properties of its specification.

    Python text is modelled as a list of code points, dictionaries as
    insertion-ordered association lists, the parsed page as a tree of tags and
    strings, and the effects of the program (calls of the selector engine, of
    the heuristics and of the suggestion backend, messages printed) as a trace
    of events beside an outcome that is either a returned value or a raised
    exception.  The libraries the program calls but does not contain (the
    HTML parser, the CSS selector engine, the JSON decoder, the suggestion
    backend, the Unicode tables of the interpreter) are variables of the
    sections below. *)

From Stdlib Require Import ZArith NArith List Bool Lia String Ascii.
From stdpp Require Import gmap.
Import ListNotations.
Local Open Scope Z_scope.
Set Warnings "-register-all".

(** ** Text *)

(** A code point, and a Python [str]. *)
Definition char : Type := N.
Definition str : Type := list char.

(** An ASCII literal as a [str]. *)
Definition lit (x : string) : str := List.map N_of_ascii (list_ascii_of_string x).

Definition char_eqb (a b : char) : bool := N.eqb a b.

Fixpoint str_eqb (a b : str) : bool :=
  match a, b with
  | [], [] => true
  | x :: a', y :: b' => char_eqb x y && str_eqb a' b'
  | _, _ => false
  end.

Definition str_dec : forall a b : str, {a = b} + {a <> b} := List.list_eq_dec N.eq_dec.

Definition isEmpty (x : str) : bool := match x with [] => true | _ => false end.

(** The tables of the interpreter's Unicode database that the program reads:
    the decimal digits ([\d] of [re], the digits [float] accepts) and the
    case mapping of [str.lower]. *)
Class Unicode : Type := {
  decimal_digit : char -> option N;
  lower : str -> str
}.

(** The database restricted to ASCII, where it is small enough to write
    down: every example below uses it. *)
Definition ascii_decimal_digit (c : char) : option N :=
  if ((48 <=? c) && (c <=? 57))%N then Some (c - 48)%N else None.

Definition ascii_lower_char (c : char) : char :=
  if ((65 <=? c) && (c <=? 90))%N then (c + 32)%N else c.

Definition ascii_unicode : Unicode :=
  {| decimal_digit := ascii_decimal_digit; lower := List.map ascii_lower_char |}.

(** [str.isspace] for one character, which is also [\s] of [re] and what
    [str.strip] removes. *)
Definition isspace (c : char) : bool :=
  (((9 <=? c) && (c <=? 13)) || ((28 <=? c) && (c <=? 32)) || (c =? 133) || (c =? 160)
   || (c =? 5760) || ((8192 <=? c) && (c <=? 8202)) || (c =? 8232) || (c =? 8233)
   || (c =? 8239) || (c =? 8287) || (c =? 12288))%N.

Fixpoint lstrip (x : str) : str :=
  match x with
  | c :: x' => if isspace c then lstrip x' else x
  | [] => []
  end.

Definition rstrip (x : str) : str := rev (lstrip (rev x)).

(** [x.strip()] *)
Definition strip (x : str) : str := rstrip (lstrip x).

Fixpoint startswith (p x : str) : bool :=
  match p, x with
  | [], _ => true
  | a :: p', b :: x' => char_eqb a b && startswith p' x'
  | _ :: _, [] => false
  end.

(** [x.find(sub)] counted from [i]: the lowest index at which [sub] occurs,
    and -1 when it does not occur. *)
Fixpoint find_from (sub x : str) (i : Z) : Z :=
  if startswith sub x then i
  else match x with
       | [] => -1
       | _ :: x' => find_from sub x' (i + 1)
       end.

Definition find (sub x : str) : Z := find_from sub x 0.

(** [sub in x] *)
Definition contains (sub x : str) : bool := 0 <=? find sub x.

(** [x[a:b]] for indices that are not negative. *)
Definition slice (a b : Z) (x : str) : str :=
  firstn (Z.to_nat (b - a)) (skipn (Z.to_nat a) x).

(** [sep.join(parts)] *)
Fixpoint join (sep : str) (parts : list str) : str :=
  match parts with
  | [] => []
  | [p] => p
  | p :: rest => p ++ sep ++ join sep rest
  end.

(** [x.replace(c, "")] for a one-character [c]. *)
Definition remove_char (c : char) (x : str) : str :=
  List.filter (fun d => negb (char_eqb c d)) x.

(** [x.split(sep, 1)]: the text before and after the first [sep], or [x]
    alone when [sep] does not occur. *)
Definition split1 (sep x : str) : str * option str :=
  let i := find sep x in
  if 0 <=? i
  then (firstn (Z.to_nat i) x, Some (skipn (Z.to_nat i + length sep) x))
  else (x, None).

(** [m] is a contiguous part of [x]. *)
Definition substring (m x : str) : Prop := exists pre post, x = pre ++ m ++ post.

(** ** Regular expressions, as [re] runs them

    A backtracking matcher: alternatives are tried from left to right and
    the repetitions are greedy, so the first success is the match [re]
    reports.  Repetition is applied to one-character atoms only, which is
    all the two patterns of the program need. *)
Inductive regex : Type :=
| Atom (p : char -> bool)            (* a literal, a class or an escape *)
| Seq (a b : regex)
| Alt (a b : regex)
| Opt (a : regex)                    (* a? *)
| Star (p : char -> bool)            (* [...]* *)
| Plus (p : char -> bool)            (* \d+ *)
| Group (i : nat) (a : regex).       (* ( a ), numbered *)

(** Spans of the groups that took part in the match. *)
Definition groups : Type := list (nat * (nat * nat)).

Section Matcher.
Context {A : Type}.

(** [p*] from position [pos] with [x] left to read, then [k]. *)
Fixpoint star (p : char -> bool) (pos : nat) (x : str) (g : groups)
         (k : nat -> str -> groups -> option A) : option A :=
  match x with
  | c :: x' =>
      if p c
      then match star p (S pos) x' g k with
           | Some r => Some r
           | None => k pos x g
           end
      else k pos x g
  | [] => k pos x g
  end.

Fixpoint run (r : regex) (pos : nat) (x : str) (g : groups)
         (k : nat -> str -> groups -> option A) : option A :=
  match r with
  | Atom p =>
      match x with
      | c :: x' => if p c then k (S pos) x' g else None
      | [] => None
      end
  | Seq a b => run a pos x g (fun pos' x' g' => run b pos' x' g' k)
  | Alt a b =>
      match run a pos x g k with
      | Some r => Some r
      | None => run b pos x g k
      end
  | Opt a =>
      match run a pos x g k with
      | Some r => Some r
      | None => k pos x g
      end
  | Star p => star p pos x g k
  | Plus p =>
      match x with
      | c :: x' => if p c then star p (S pos) x' g k else None
      | [] => None
      end
  | Group i a => run a pos x g (fun pos' x' g' => k pos' x' ((i, (pos, pos')) :: g'))
  end.
End Matcher.

(** A match object: where the match starts and ends, and its groups. *)
Record re_match : Type := { m_text : str; m_start : nat; m_end : nat; m_groups : groups }.

Definition match_at (r : regex) (text : str) (pos : nat) (x : str) : option re_match :=
  run r pos x [] (fun e _ g => Some {| m_text := text; m_start := pos; m_end := e; m_groups := g |}).

(** The scan of [pattern.search]: the leftmost position where the pattern
    matches, the end of the text included. *)
Fixpoint search_from (r : regex) (text : str) (pos : nat) (x : str) : option re_match :=
  match match_at r text pos x with
  | Some m => Some m
  | None =>
      match x with
      | [] => None
      | _ :: x' => search_from r text (S pos) x'
      end
  end.

Definition search (r : regex) (text : str) : option re_match := search_from r text 0 text.

Fixpoint group_span (i : nat) (g : groups) : option (nat * nat) :=
  match g with
  | [] => None
  | (j, sp) :: g' => if Nat.eqb i j then Some sp else group_span i g'
  end.

(** [m.group(0)] *)
Definition group0 (m : re_match) : str :=
  slice (Z.of_nat (m_start m)) (Z.of_nat (m_end m)) (m_text m).

(** [m.group(i)] for [i > 0]; [None] when the group took no part. *)
Definition group (i : nat) (m : re_match) : option str :=
  match group_span i (m_groups m) with
  | Some (a, b) => Some (slice (Z.of_nat a) (Z.of_nat b) (m_text m))
  | None => None
  end.

(** *** The two patterns *)

Definition dollar : char := 36%N.
Definition euro : char := 8364%N.
Definition pound : char := 163%N.
Definition rupee : char := 8377%N.      (* ₹ *)
Definition comma : char := 44%N.
Definition dot : char := 46%N.

Section Patterns.
Context {U : Unicode}.

(** [\d] *)
Definition is_digit (c : char) : bool :=
  match decimal_digit c with Some _ => true | None => false end.

Definition is_char (a : char) : char -> bool := char_eqb a.

(** The set [[\d{1,3},]]: inside brackets the braces, [1], the comma and
    [3] are members of the set, beside the digits. *)
Definition digit_brace_comma (c : char) : bool :=
  is_digit c || is_char 123%N c || is_char 49%N c || is_char comma c
  || is_char 51%N c || is_char 125%N c.

(** [[\d{1,3},]*\d+(\.\d+)?] with the group numbered [i]. *)
Definition number_body (i : nat) : regex :=
  Seq (Star digit_brace_comma)
      (Seq (Plus is_digit) (Opt (Group i (Seq (Atom (is_char dot)) (Plus is_digit))))).

(** [(\$|€|£|₹)\s?[\d{1,3},]*\d+(\.\d+)?] *)
Definition CURRENCY_RE : regex :=
  Seq (Group 1 (Alt (Atom (is_char dollar))
               (Alt (Atom (is_char euro))
               (Alt (Atom (is_char pound)) (Atom (is_char rupee))))))
      (Seq (Opt (Atom isspace)) (number_body 2)).

(** [[\d{1,3},]*\d+(\.\d+)?] *)
Definition NUMBER_RE : regex := number_body 1.
End Patterns.

(** One of [$], [€], [£], [₹]. *)
Definition is_symbol (c : char) : bool :=
  is_char dollar c || is_char euro c || is_char pound c || is_char rupee c.

Definition is_brace (c : char) : bool := is_char 123%N c || is_char 125%N c.

(** ** Values, dictionaries, outcomes *)

(** A Python [float], named by the decimal text it was read from: the double
    to which [mant * 10 ^ exp10], negated when [neg], is rounded (an
    infinity when the decimal lies beyond the doubles); the rounding itself
    is not modelled. *)
Inductive pyfloat : Type :=
| Finite (neg : bool) (mant : N) (exp10 : Z)
| Infinite (neg : bool)
| NaN.

(** A value a selector map or a decoded JSON text can hold, and the values
    of the extracted record. *)
Inductive value : Type :=
| VNone
| VBool (b : bool)
| VInt (z : Z)
| VFloat (f : pyfloat)
| VStr (x : str)
| VList (l : list value)
| VDict (d : list (str * value)).

(** A [dict]: the items in insertion order, one per key. *)
Definition dict (V : Type) : Type := list (str * V).

Fixpoint dict_get {V : Type} (d : dict V) (k : str) : option V :=
  match d with
  | [] => None
  | (k', v) :: d' => if str_eqb k k' then Some v else dict_get d' k
  end.

(** [d[k] = v]: the item of [k] is replaced where it stands, a new key goes
    to the end. *)
Fixpoint dict_set {V : Type} (d : dict V) (k : str) (v : V) : dict V :=
  match d with
  | [] => [(k, v)]
  | (k', v') :: d' => if str_eqb k k' then (k, v) :: d' else (k', v') :: dict_set d' k v
  end.

Definition keys {V : Type} (d : dict V) : list str := List.map fst d.

(** [k in d] *)
Definition has_key {V : Type} (d : dict V) (k : str) : bool :=
  match dict_get d k with Some _ => true | None => false end.

Fixpoint mem (k : str) (l : list str) : bool :=
  match l with
  | [] => false
  | k' :: l' => str_eqb k k' || mem k l'
  end.

(** No key twice: what every Python [dict] satisfies. *)
Fixpoint distinct (l : list str) : bool :=
  match l with
  | [] => true
  | k :: l' => negb (mem k l') && distinct l'
  end.

Definition well_formed {V : Type} (d : dict V) : Prop := distinct (keys d) = true.

(** The double nearest to a decimal is zero when the decimal is at most
    2^-1075, half of the least positive double. *)
Definition float_is_zero (f : pyfloat) : bool :=
  match f with
  | Finite _ m e =>
      (m =? 0)%N || ((e <? 0) && (Z.of_N m * 2 ^ 1075 <=? 10 ^ (- e)))
  | _ => false
  end.

(** [bool(v)] *)
Definition truthy (v : value) : bool :=
  match v with
  | VNone => false
  | VBool b => b
  | VInt z => negb (z =? 0)
  | VFloat f => negb (float_is_zero f)
  | VStr x => negb (isEmpty x)
  | VList l => match l with [] => false | _ => true end
  | VDict d => match d with [] => false | _ => true end
  end.

(** [d.get(k)] on a dictionary of values: [None] for a key that is absent. *)
Definition get (d : dict value) (k : str) : value :=
  match dict_get d k with Some v => v | None => VNone end.

(** [d.get(k)] on a dictionary of optional texts. *)
Definition get_text_field (d : dict (option str)) (k : str) : option str :=
  match dict_get d k with Some v => v | None => None end.

(** [bool(x)] for an optional text: [None] and the empty text are false. *)
Definition present (x : option str) : bool :=
  match x with Some t => negb (isEmpty t) | None => false end.

Definition value_of_text (x : option str) : value :=
  match x with Some t => VStr t | None => VNone end.

(** An exception: its class and [str(exc)]. *)
Record exn : Type := { exn_class : str; exn_message : str }.

Definition ValueError (msg : str) : exn := {| exn_class := lit "ValueError"; exn_message := msg |}.

Inductive outcome (A : Type) : Type :=
| Returned (a : A)
| Raised (e : exn).
Arguments Returned {A} a.
Arguments Raised {A} e.

(** What a run does beside computing: the calls that leave the program and
    the calls of the three heuristics. *)
Inductive event : Type :=
| SelectOne (selector : value)              (* soup.select_one(selector) *)
| Heuristic (field : str)                   (* infer_title, infer_price, infer_availability *)
| GenerateContent (model prompt : str)      (* client.models.generate_content(...) *)
| Print (msg : str)
| Streamlit (call : str).                   (* st.spinner, st.success, st.warning *)

(** A computation: its outcome and the events it caused, oldest first. *)
Definition Py (A : Type) : Type := outcome A * list event.

Definition ret {A : Type} (a : A) : Py A := (Returned a, []).
Definition raise {A : Type} (e : exn) : Py A := (Raised e, []).
Definition emit (ev : event) : Py unit := (Returned tt, [ev]).

Definition bind {A B : Type} (m : Py A) (f : A -> Py B) : Py B :=
  match m with
  | (Returned a, t) => let (r, t') := f a in (r, t ++ t')
  | (Raised e, t) => (Raised e, t)
  end.

(** [try: m  except Exception as e: h e] *)
Definition try_except {A : Type} (m : Py A) (h : exn -> Py A) : Py A :=
  match m with
  | (Returned a, t) => (Returned a, t)
  | (Raised e, t) => let (r, t') := h e in (r, t ++ t')
  end.

Notation "'let*' x ':=' m 'in' k" := (bind m (fun x => k))
  (at level 10, x pattern, m at level 100, k at level 200).
Notation "m ';;' k" := (bind m (fun _ => k))
  (at level 100, k at level 200, right associativity).

Definition outcome_of {A : Type} (m : Py A) : outcome A := fst m.
Definition trace_of {A : Type} (m : Py A) : list event := snd m.

(** ** [float] *)

Section Float.
Context {U : Unicode}.

(** The number a run of decimal digits writes, [None] when a character is
    not a digit. *)
Fixpoint digits_value (acc : N) (x : str) : option N :=
  match x with
  | [] => Some acc
  | c :: x' =>
      match decimal_digit c with
      | Some d => digits_value (acc * 10 + d)%N x'
      | None => None
      end
  end.

(** [float(x)] on the texts [NUMBER_RE] can match once the commas are
    gone: digits, braces and at most one dot.  Of the grammar of [float]
    only [digits], [digits.], [.digits] and [digits.digits] can be
    written with these characters; any other such text is a
    [ValueError]. *)
Definition float (x : str) : outcome pyfloat :=
  let (whole, rest) := split1 [dot] x in
  let frac := match rest with Some f => f | None => [] end in
  match isEmpty whole && isEmpty frac, digits_value 0 (whole ++ frac) with
  | false, Some m => Returned (Finite false m (- Z.of_nat (length frac)))
  | _, _ => Raised (ValueError (lit "could not convert string to float: " ++ x))
  end.
End Float.

(** ** The parsed page

    The tree [BeautifulSoup(html, "lxml")] builds: tags with their
    attributes and contents, the strings of the page, and the strings
    [get_text] passes over (comments, declarations and the like).  The
    [class] attribute is kept apart because the tree builder stores it as
    a list of class names; every other attribute is one text.

    The tree has one kind of string that [get_text] reports, for every
    tag and for the page alike.  The strings that the library keeps in
    classes of their own inside [script], [style] and [template] tags,
    which [get_text] reports for such a tag and passes over for the tags
    around it and for the page, are outside the tree; no statement below
    relates the text of a tag to the text of the page. *)
Inductive node : Type :=
| NavigableString (text : str)
| Comment (text : str)
| Tag (name : str) (class_ : option (list str)) (attrs : dict str) (contents : list node).

(** The [BeautifulSoup] object: the top-level nodes of the page. *)
Definition soup : Type := list node.

(** [.descendants]: the nodes below, in document order. *)
Fixpoint descendants (n : node) : list node :=
  match n with
  | Tag _ _ _ cs =>
      (fix below (l : list node) : list node :=
         match l with
         | [] => []
         | c :: l' => c :: descendants c ++ below l'
         end) cs
  | _ => []
  end.

Definition soup_descendants (d : soup) : list node :=
  List.flat_map (fun n => n :: descendants n) d.

Definition contents_of (n : node) : list node :=
  match n with Tag _ _ _ cs => cs | _ => [] end.

(** The strings [get_text] yields among [ns]: with [strip_] each one is
    stripped and dropped when nothing is left. *)
Fixpoint all_strings (strip_ : bool) (ns : list node) : list str :=
  match ns with
  | [] => []
  | NavigableString t :: ns' =>
      if strip_
      then (if isEmpty (strip t) then all_strings strip_ ns' else strip t :: all_strings strip_ ns')
      else t :: all_strings strip_ ns'
  | _ :: ns' => all_strings strip_ ns'
  end.

(** [soup.get_text(sep, strip=strip_)] *)
Definition soup_get_text (sep : str) (strip_ : bool) (d : soup) : str :=
  join sep (all_strings strip_ (soup_descendants d)).

(** [tag.get_text(sep, strip=strip_)] *)
Definition get_text (sep : str) (strip_ : bool) (tag : node) : str :=
  join sep (all_strings strip_ (descendants tag)).

(** [tag.text] *)
Definition text (tag : node) : str := get_text [] false tag.

Definition is_tag (n : node) : bool := match n with Tag _ _ _ _ => true | _ => false end.

Definition tag_name (n : node) : str := match n with Tag nm _ _ _ => nm | _ => [] end.

(** [tag.get(a)] for an attribute other than [class]. *)
Definition tag_get (n : node) (a : str) : option str :=
  match n with Tag _ _ at_ _ => dict_get at_ a | _ => None end.

(** [tag.get("class")] *)
Definition tag_get_class (n : node) : option (list str) :=
  match n with Tag _ c _ _ => c | _ => None end.

(** [soup.find_all(True, ...)] with a test on the tag. *)
Definition find_all (p : node -> bool) (d : soup) : list node :=
  List.filter (fun n => is_tag n && p n) (soup_descendants d).

(** [soup.find(name, ...)]: the first tag of that name that passes. *)
Definition find_tag (name : str) (p : node -> bool) (d : soup) : option node :=
  List.hd_error (find_all (fun n => str_eqb (tag_name n) name && p n) d).

(** The attribute [a] is present with the value [v]. *)
Definition attr_is (a v : str) (n : node) : bool :=
  match tag_get n a with Some w => str_eqb w v | None => false end.

(** ** The heuristics of [extractor.py] *)

(** A [for] loop whose body may [return]: the value of the first item whose
    body returns, and [rest] (the code after the loop) when none does. *)
Fixpoint for_return {A B : Type} (items : list A) (body : A -> option B) (rest : option B)
  : option B :=
  match items with
  | [] => rest
  | a :: items' =>
      match body a with
      | Some b => Some b
      | None => for_return items' body rest
      end
  end.

Definition og_title_tag (d : soup) : option node :=
  find_tag (lit "meta") (attr_is (lit "property") (lit "og:title")) d.

Definition twitter_title_tag (d : soup) : option node :=
  find_tag (lit "meta") (attr_is (lit "name") (lit "twitter:title")) d.

(** [soup.title] *)
Definition title_tag (d : soup) : option node := find_tag (lit "title") (fun _ => true) d.

Definition infer_title (d : soup) : option str :=
  let headings :=
    for_return [lit "h1"; lit "h2"; lit "h3"]
      (fun tag_name_ =>
         match find_tag tag_name_ (fun _ => true) d with
         | Some tg => if negb (isEmpty (strip (text tg))) then Some (strip (text tg)) else None
         | None => None
         end)
      None in
  for_return [og_title_tag d; twitter_title_tag d]
    (fun tag =>
       match tag with
       | Some tg =>
           if present (tag_get tg (lit "content"))
           then option_map strip (tag_get tg (lit "content"))
           else None
       | None => None
       end)
    (match title_tag d with
     | Some tl => if negb (isEmpty (strip (text tl))) then Some (strip (text tl)) else headings
     | None => headings
     end).

Definition price_keywords : list str :=
  [lit "price"; lit "amount"; lit "cost"; lit "sale"; lit "our-price"].

Definition availability_phrases : list str :=
  [lit "in stock"; lit "out of stock"; lit "available"; lit "pre-order"; lit "preorder"].

Section Heuristics.
Context {U : Unicode}.

(** [any(k in s.lower() for k in [...])] *)
Definition has_price_keyword (x : str) : bool :=
  List.existsb (fun k => contains k (lower x)) price_keywords.

(** The body shared by the two scans of [infer_price]: the first match of
    the currency pattern in the text of the tag. *)
Definition currency_in_tag (tag : node) : option str :=
  let text_ := get_text (lit " ") true tag in
  match search CURRENCY_RE text_ with
  | Some m => Some (group0 m)
  | None => None
  end.

Definition has_class (n : node) : bool :=
  match tag_get_class n with Some _ => true | None => false end.

Definition has_id (n : node) : bool :=
  match tag_get n (lit "id") with Some _ => true | None => false end.

Definition infer_price (d : soup) : option str :=
  for_return (find_all has_class d)
    (fun tag =>
       let cls := join (lit " ") (match tag_get_class tag with Some l => l | None => [] end) in
       if has_price_keyword cls then currency_in_tag tag else None)
    (for_return (find_all has_id d)
       (fun tag =>
          let ident := match tag_get tag (lit "id") with Some i => i | None => [] end in
          if has_price_keyword ident then currency_in_tag tag else None)
       (let text_ := soup_get_text (lit " ") true d in
        match search CURRENCY_RE text_ with
        | Some m => Some (group0 m)
        | None => None
        end)).

Definition infer_availability (d : soup) : option str :=
  let text_ := lower (soup_get_text (lit " ") true d) in
  for_return availability_phrases
    (fun phrase =>
       if contains phrase text_
       then let idx := find phrase text_ in
            Some (strip (slice (Z.max 0 (idx - 30)) (idx + 50) text_))
       else None)
    None.
End Heuristics.

(** ** Selectors, normalisation and the extractor *)

Section Extractor.
Context {U : Unicode}.

(** [BeautifulSoup(html, "lxml")]: the parser recovers from any markup and
    builds a tree for every text. *)
Variable parse : str -> soup.

(** [soup.select_one(selector)] of the selector engine: the first tag the
    selector matches, [None] when it matches none, an exception when the
    selector is malformed or is not a text. *)
Variable select_one : soup -> value -> outcome (option node).

Definition call_select_one (d : soup) (selector : value) : Py (option node) :=
  (select_one d selector, [SelectOne selector]).

Fixpoint apply_selectors_loop (d : soup) (items : list (str * value))
         (results : dict (option str)) : Py (dict (option str)) :=
  match items with
  | [] => ret results
  | (field, selector) :: items' =>
      if negb (truthy selector)
      then apply_selectors_loop d items' (dict_set results field None)
      else
        let* r := try_except
                    (let* tag := call_select_one d selector in
                     ret (match tag with
                          | Some tg => Some (get_text (lit " ") true tg)
                          | None => None
                          end))
                    (fun _ => ret None) in
        apply_selectors_loop d items' (dict_set results field r)
  end.

Definition apply_selectors (d : soup) (mapping : dict value) : Py (dict (option str)) :=
  apply_selectors_loop d mapping [].

(** [clock] is [datetime.datetime.utcnow().isoformat()] at the call. *)
Definition normalize_fields (clock : str) (raw : dict (option str)) : Py (dict value) :=
  let price_raw := get_text_field raw (lit "price") in
  let* ca :=
    if present price_raw
    then
      let text_ := match price_raw with Some t => t | None => [] end in
      let currency := match search CURRENCY_RE text_ with
                      | Some m => group 1 m
                      | None => None
                      end in
      let* amount :=
        match search NUMBER_RE text_ with
        | Some num_m =>
            try_except
              (let* f := (float (remove_char comma (group0 num_m)), []) in ret (Some f))
              (fun _ => ret None)
        | None => ret None
        end in
      ret (currency, amount)
    else ret (None, None) in
  ret [ (lit "title", value_of_text (get_text_field raw (lit "title")));
        (lit "price",
          VDict [ (lit "raw", value_of_text price_raw);
                  (lit "amount", match snd ca with Some f => VFloat f | None => VNone end);
                  (lit "currency", value_of_text (fst ca)) ]);
        (lit "availability", value_of_text (get_text_field raw (lit "availability")));
        (lit "extraction_timestamp", VStr (clock ++ lit "Z")) ].

(** A heuristic is called: the call is recorded, the heuristic itself has
    no effect. *)
Definition call_heuristic (field : str) (h : soup -> option str) (d : soup) : Py (option str) :=
  emit (Heuristic field) ;; ret (h d).

(** [selected[field] = h(soup)] when [selected.get(field)] is false. *)
Definition fallback (field : str) (h : soup -> option str) (d : soup)
           (selected : dict (option str)) : Py (dict (option str)) :=
  if negb (present (get_text_field selected field))
  then let* v := call_heuristic field h d in ret (dict_set selected field v)
  else ret selected.

Definition extract_from_html (clock : str) (html : str) (mapping : dict value) : Py (dict value) :=
  let d := parse html in
  let* selected := apply_selectors d mapping in
  let* selected := fallback (lit "title") infer_title d selected in
  let* selected := fallback (lit "price") infer_price d selected in
  let* selected := fallback (lit "availability") infer_availability d selected in
  normalize_fields clock selected.
End Extractor.

(** ** The selector-suggestion client *)

Definition quoted (x : str) : str := [34%N] ++ x ++ [34%N].
Definition newline : str := [10%N].
Definition fence : str := lit "```".
Definition json_fence : str := lit "```json".

Definition models_to_try : list str :=
  [lit "gemini-2.5-flash"; lit "gemini-2.0-flash"; lit "gemini-1.5-flash"; lit "gemini-1.5-pro"].

Definition field_names : list str := [lit "title"; lit "price"; lit "availability"].

Definition prompt_of (html : str) : str :=
  lit "You are an expert HTML analyst. Given the following HTML, identify the correct CSS selectors "
  ++ lit "for three elements: product title, product price, and availability. "
  ++ lit "Respond ONLY as a JSON object with keys: title, price, availability." ++ newline ++ newline
  ++ lit "Example output: {" ++ quoted (lit "title") ++ lit ": " ++ quoted (lit "h1.product-title")
  ++ lit ", " ++ quoted (lit "price") ++ lit ": " ++ quoted (lit "span.price")
  ++ lit ", " ++ quoted (lit "availability") ++ lit ": " ++ quoted (lit "#stock") ++ lit "}"
  ++ newline ++ newline
  ++ lit "HTML:" ++ newline ++ slice 0 6000 html.

Definition AttributeError_strip : exn :=
  {| exn_class := lit "AttributeError";
     exn_message := lit "'NoneType' object has no attribute 'strip'" |}.

Definition IndexError : exn :=
  {| exn_class := lit "IndexError"; exn_message := lit "list index out of range" |}.

(** [text.split(f, 1)[1].split("```", 1)[0].strip()] *)
Definition inside_fence (f text_ : str) : Py str :=
  match snd (split1 f text_) with
  | Some rest => ret (strip (fst (split1 fence rest)))
  | None => raise IndexError
  end.

Definition strip_code_fence (text_ : str) : Py str :=
  if contains json_fence text_ then inside_fence json_fence text_
  else if contains fence text_ then inside_fence fence text_
  else ret text_.

Definition check_mark : char := 9989%N.

Section Suggestions.
(** Whether [from google import genai] succeeds. *)
Variable genai_installed : bool.

(** [genai.Client(api_key=k).models.generate_content(model=m, contents=p,
    ...).text]: the text of the answer, [None] when the answer has none,
    or the exception of the client. *)
Variable generate_content : str -> str -> str -> outcome (option str).

(** [json.loads] *)
Variable json_loads : str -> outcome value.

Definition call_generate_content (api_key model_name prompt : str) : Py (option str) :=
  (generate_content api_key model_name prompt, [GenerateContent model_name prompt]).

(** The body of the [try] for one model: the mapping it returns, or the
    exception that ends it. *)
Definition attempt (api_key prompt model_name : str) : Py (dict value) :=
  let* response_text := call_generate_content api_key model_name prompt in
  let* text_ := match response_text with
                | Some t => ret (strip t)
                | None => raise AttributeError_strip
                end in
  (if isEmpty text_ then raise (ValueError (lit "Empty response from model")) else ret tt) ;;
  let* text_ := strip_code_fence text_ in
  let* parsed := (json_loads text_, []) in
  match parsed with
  | VDict parsed_ =>
      if List.existsb (has_key parsed_) field_names
      then emit (Print (check_mark :: lit " Successfully used model: " ++ model_name)) ;;
           ret parsed_
      else raise (ValueError (lit "Invalid JSON structure"))
  | _ => raise (ValueError (lit "Invalid JSON structure"))
  end.

(** The [for] loop over the models: the mapping returned from inside the
    loop, if any, and the [errors] dictionary as the loop leaves it. *)
Fixpoint models_loop (api_key prompt : str) (models : list str) (errors : dict str)
  : Py (option (dict value) * dict str) :=
  match models with
  | [] => ret (None, errors)
  | model_name :: models' =>
      let* r := try_except
                  (let* parsed := attempt api_key prompt model_name in ret (inl parsed))
                  (fun exc => ret (inr (exn_message exc))) in
      match r with
      | inl parsed => ret (Some parsed, errors)
      | inr msg => models_loop api_key prompt models' (dict_set errors model_name msg)
      end
  end.

Definition format_errors (errors : dict str) : str :=
  join (lit "; ") (List.map (fun nm => fst nm ++ lit ": " ++ snd nm) errors).

Definition llm_infer_selectors (html : str) (api_key : option str) : Py (dict value) :=
  if negb (present api_key)
  then emit (Print (lit "Gemini API key not found in environment (.env).")) ;; ret []
  else if negb genai_installed
  then emit (Print (lit "Error: google-genai package not installed. Run: pip install google-genai")) ;;
       ret []
  else
    let key := match api_key with Some k => k | None => [] end in
    let* r := models_loop key (prompt_of html) models_to_try [] in
    match fst r with
    | Some parsed => ret parsed
    | None =>
        match snd r with
        | [] => ret tt
        | _ => emit (Print (lit "[Gemini inference error] All models failed -> "
                            ++ format_errors (snd r)))
        end ;;
        ret []
    end.
End Suggestions.

(** ** The selector merge of the Run Extraction handler ([app.py])

    Dictionaries are objects: the handler copies the caller's map and
    writes into the copy.  The store maps the address of each dictionary
    object to its items. *)

Abbreviation store := (gmap nat (dict value)).

(** The items of the object at [l]. *)
Definition deref (h : store) (l : nat) : dict value :=
  match (h !! l : option (dict value)) with Some d => d | None => [] end.

(** [d.copy()]: a new object with the items of the one at [l]. *)
Definition dict_copy (h : store) (l : nat) : store * nat :=
  let l' := fresh (dom h) in (<[l' := deref h l]> h, l').

(** [d[k] = v] on the object at [l]. *)
Definition setitem (h : store) (l : nat) (k : str) (v : value) : store :=
  <[l := dict_set (deref h l) k v]> h.

(** [for key in [...]: if inferred.get(key) and not mapping.get(key):
    mapping[key] = inferred[key]]; the guard makes [inferred[key]] the
    value [inferred.get(key)]. *)
Fixpoint merge_loop (inferred : dict value) (fields : list str) (h : store) (mapping : nat)
  : store :=
  match fields with
  | [] => h
  | key :: fields' =>
      if truthy (get inferred key) && negb (truthy (get (deref h mapping) key))
      then merge_loop inferred fields' (setitem h mapping key (get inferred key)) mapping
      else merge_loop inferred fields' h mapping
  end.

Section Handler.
Variable genai_installed : bool.
Variable generate_content : str -> str -> str -> outcome (option str).
Variable json_loads : str -> outcome value.

(** The environment variable read when [extractor.py] is loaded. *)
Variable GEMINI_API_KEY : option str.

(** Lines 147 to 158 of [app.py]: the store after them and the address
    of [mapping], the map handed to [extract_from_html]. *)
Definition effective_mapping (h : store) (mapping_input : nat) (use_llm_inference : bool)
           (html : str) : Py (store * nat) :=
  let (h1, mapping) := dict_copy h mapping_input in
  if use_llm_inference && present GEMINI_API_KEY
  then
    emit (Streamlit (lit "spinner")) ;;
    let* inferred := llm_infer_selectors genai_installed generate_content json_loads
                       html GEMINI_API_KEY in
    if truthy (VDict inferred)
    then emit (Streamlit (lit "success")) ;;
         ret (merge_loop inferred field_names h1 mapping, mapping)
    else emit (Streamlit (lit "warning")) ;; ret (h1, mapping)
  else ret (h1, mapping).
End Handler.

(** ** Stand-ins for the libraries, for the examples

    Finite tables in place of the parser and of the JSON decoder, and a
    selector engine that knows the three simplest selectors. *)

(** A parser known at the pages of [pages]. *)
Definition table_parser (pages : dict soup) (html : str) : soup :=
  match dict_get pages html with Some d => d | None => [] end.

(** A decoder known at the texts of [table]. *)
Definition table_json (table : dict value) (x : str) : outcome value :=
  match dict_get table x with
  | Some v => Returned v
  | None => Raised {| exn_class := lit "JSONDecodeError"; exn_message := lit "Expecting value" |}
  end.

Definition is_name_char (c : char) : bool :=
  (((48 <=? c) && (c <=? 57)) || ((65 <=? c) && (c <=? 90)) || ((97 <=? c) && (c <=? 122))
   || (c =? 45) || (c =? 95))%N.

Definition is_name (x : str) : bool := negb (isEmpty x) && List.forallb is_name_char x.

(** A selector engine for [name], [.class] and [#id]: the first tag in
    document order that matches; any other text is refused as malformed
    and a selector that is not a text is a [TypeError]. *)
Definition simple_select_one (d : soup) (selector : value) : outcome (option node) :=
  match selector with
  | VStr x =>
      if is_name x then Returned (find_tag x (fun _ => true) d)
      else match x with
           | c :: x' =>
               if (c =? 46)%N && is_name x'
               then Returned (List.hd_error
                      (find_all (fun n => match tag_get_class n with
                                          | Some l => mem x' l
                                          | None => false
                                          end) d))
               else if (c =? 35)%N && is_name x'
               then Returned (List.hd_error (find_all (attr_is (lit "id") x') d))
               else Raised {| exn_class := lit "SelectorSyntaxError";
                              exn_message := lit "Invalid character" |}
           | [] => Raised {| exn_class := lit "SelectorSyntaxError";
                             exn_message := lit "Expected a selector" |}
           end
  | _ => Raised {| exn_class := lit "TypeError"; exn_message := lit "Expected a string" |}
  end.

(** A tag with no attributes. *)
Definition el (name : string) (contents : list node) : node := Tag (lit name) None [] contents.

(** The tree of [<span class="price">₹1049</span>]. *)
Definition price_page : soup :=
  [el "html" [el "body" [Tag (lit "span") (Some [lit "price"]) []
                           [NavigableString (rupee :: lit "1049")]]]].

(** The tree of [<span class="price">${5</span>]. *)
Definition braces_page : soup :=
  [el "html" [el "body" [Tag (lit "span") (Some [lit "price"]) []
                           [NavigableString (lit "${5")]]]].

(** The tree of [<meta property="og:title" content="Widget X"/><h1>Other</h1>]. *)
Definition widget_page : soup :=
  [el "html" [el "head" [Tag (lit "meta") None
                           [(lit "property", lit "og:title"); (lit "content", lit "Widget X")] []];
              el "body" [el "h1" [NavigableString (lit "Other")]]]].

(** The tree of [<title>Shop</title><h1></h1>]. *)
Definition empty_heading_page : soup :=
  [el "html" [el "head" [el "title" [NavigableString (lit "Shop")]];
              el "body" [el "h1" []]]].

(** The tree of [<p>a  b</p>], two blanks between the letters. *)
Definition two_blanks_page : soup :=
  [el "html" [el "body" [el "p" [NavigableString (lit "a  b")]]]].

(** The tree of a page that says "Pre-order" well before "in stock". *)
Definition preorder_page : soup :=
  [el "html" [el "body"
     [el "p" [NavigableString
                (lit "Pre-order the deluxe edition now; the standard model is In Stock today")]]]].

(** ** The specification's own words, for comparison with the code *)

(** The first candidate that is there. *)
Fixpoint first_some {A : Type} (l : list (option A)) : option A :=
  match l with
  | [] => None
  | Some a :: _ => Some a
  | None :: l' => first_some l'
  end.

(** The content of a metadata tag, when the tag is there and has one. *)
Definition meta_content (tag : option node) : option str :=
  match tag with
  | Some tg =>
      match tag_get tg (lit "content") with
      | Some c => if isEmpty c then None else Some (strip c)
      | None => None
      end
  | None => None
  end.



(** [i] is where [sub] first occurs in [x]. *)
Definition first_occurrence (sub x : str) (i : Z) : Prop :=
  0 <= i /\
  startswith sub (skipn (Z.to_nat i) x) = true /\
  forall j : nat, (j < Z.to_nat i)%nat -> startswith sub (skipn j x) = false.

(** [pattern.fullmatch(x)]: the pattern matches all of [x]. *)
Definition fullmatch (r : regex) (x : str) : bool :=
  match run r 0 x [] (fun _ rest _ => if isEmpty rest then Some tt else None) with
  | Some _ => true
  | None => false
  end.

Section SpecWords.
Context {U : Unicode}.

Definition digit_or_comma (c : char) : bool := is_digit c || is_char comma c.

(** The currency pattern as the specification words it: a symbol, blanks
    if any, digits with commas among them, a decimal fraction if any. *)
Definition spec_currency_pattern : regex :=
  Seq (Alt (Atom (is_char dollar))
      (Alt (Atom (is_char euro)) (Alt (Atom (is_char pound)) (Atom (is_char rupee)))))
      (Seq (Star isspace)
           (Seq (Star digit_or_comma)
                (Seq (Plus is_digit) (Opt (Seq (Atom (is_char dot)) (Plus is_digit)))))).

End SpecWords.


(** Runs of whitespace squeezed to one blank and the ends trimmed. *)
Fixpoint squeeze (in_blank : bool) (x : str) : str :=
  match x with
  | [] => []
  | c :: x' =>
      if isspace c
      then (if in_blank then squeeze true x' else 32%N :: squeeze true x')
      else c :: squeeze false x'
  end.

Definition collapse_whitespace (x : str) : str := strip (squeeze false x).

(** ** The code in closed form

    What the functions of [extractor.py] compute, written as expressions
    of the definitions above: the two searches of [normalize_fields], the
    scans of [infer_price], the dictionaries that are returned.  The
    lemmas of the first part show that the functions return these. *)

Section ClosedForms.
Context {U : Unicode}.

(** [NUMBER_RE.search(x).group(0)] and [CURRENCY_RE.search(x).group(1)],
    [None] when the search finds nothing. *)
Definition first_number (x : str) : option str := option_map group0 (search NUMBER_RE x).

Definition first_currency (x : str) : option str :=
  match search CURRENCY_RE x with Some m => group 1 m | None => None end.

(** The strategies of [infer_price], as candidates in their order. *)
Definition keyword_scan (tags : list node) (label : node -> str) : option str :=
  first_some (List.map (fun tag => if has_price_keyword (label tag)
                                   then currency_in_tag tag else None) tags).

(** The amount [normalize_fields] computes for a price text: the match
    of [NUMBER_RE] without its commas as [float] reads it; nothing when
    there is no match or [float] raises. *)
Definition amount_of (x : str) : option pyfloat :=
  match first_number x with
  | Some m => match float (remove_char comma m) with
              | Returned f => Some f
              | Raised _ => None
              end
  | None => None
  end.
End ClosedForms.

Definition class_label (tag : node) : str :=
  join (lit " ") (match tag_get_class tag with Some l => l | None => [] end).

Definition id_label (tag : node) : str :=
  match tag_get tag (lit "id") with Some i => i | None => [] end.

(** The window [infer_availability] cuts around index [idx]. *)
Definition window (text_ : str) (idx : Z) : str :=
  strip (slice (Z.max 0 (idx - 30)) (idx + 50) text_).

(** The record without its time stamp. *)
Definition without_timestamp (record : dict value) : dict value :=
  List.filter (fun kv => negb (str_eqb (fst kv) (lit "extraction_timestamp"))) record.

(** The selector map cut down to the three fields. *)
Definition only_fields (mapping : dict value) : dict value :=
  List.filter (fun kv => mem (fst kv) field_names) mapping.

(** The models a trace shows to have been called, oldest first. *)
Fixpoint backend_calls (t : list event) : list str :=
  match t with
  | [] => []
  | GenerateContent m _ :: t' => m :: backend_calls t'
  | _ :: t' => backend_calls t'
  end.

(** What [apply_selectors] stores for one selector. *)
Definition selector_result (select_one : soup -> value -> outcome (option node))
           (d : soup) (selector : value) : option str :=
  if truthy selector
  then match select_one d selector with
       | Returned (Some tg) => Some (get_text (lit " ") true tg)
       | Returned None => None
       | Raised _ => None
       end
  else None.

(** The item of [k] that stands last in a list of items. *)
Fixpoint last_binding {V : Type} (d : dict V) (k : str) : option V :=
  match d with
  | [] => None
  | (k', v) :: d' =>
      match last_binding d' k with
      | Some w => Some w
      | None => if str_eqb k k' then Some v else None
      end
  end.

(** The field after the fallback: the selected text when there is one, the
    heuristic's answer otherwise. *)
Definition field_or (h : soup -> option str) (d : soup) (selected : dict (option str))
           (field : str) : option str :=
  if present (get_text_field selected field) then get_text_field selected field else h d.

Definition heuristic_events (selected : dict (option str)) (field : str) : list event :=
  if present (get_text_field selected field) then [] else [Heuristic field].

Section RecordWords.
Context {U : Unicode}.

(** The price object [normalize_fields] builds for a raw price text. *)
Definition price_object (price_raw : option str) : dict value :=
  [ (lit "raw", value_of_text price_raw);
    (lit "amount", match price_raw with
                   | Some x => match amount_of x with Some f => VFloat f | None => VNone end
                   | None => VNone
                   end);
    (lit "currency", match price_raw with
                     | Some x => value_of_text (first_currency x)
                     | None => VNone
                     end) ].

Definition record_of (clock : str) (title price availability : option str) : dict value :=
  [ (lit "title", value_of_text title);
    (lit "price", VDict (price_object price));
    (lit "availability", value_of_text availability);
    (lit "extraction_timestamp", VStr (clock ++ lit "Z")) ].
End RecordWords.

(** The value the record shows for a field: [price.raw] for the price. *)
Definition record_field (record : dict value) (field : str) : value :=
  if str_eqb field (lit "price")
  then match dict_get record (lit "price") with
       | Some (VDict p) => get p (lit "raw")
       | _ => VNone
       end
  else get record field.

(** The dictionary [apply_selectors] builds from the items of the map, and
    the selectors it hands to the engine. *)
Definition store_results (select_one : soup -> value -> outcome (option node)) (d : soup)
           (items : dict value) (acc : dict (option str)) : dict (option str) :=
  fold_left (fun r kv => dict_set r (fst kv) (selector_result select_one d (snd kv))) items acc.

Definition evaluations (mapping : dict value) : list event :=
  List.map SelectOne (List.filter truthy (List.map snd mapping)).

Definition after_fallback (field : str) (h : soup -> option str) (d : soup)
           (selected : dict (option str)) : dict (option str) :=
  if present (get_text_field selected field) then selected else dict_set selected field (h d).

(** The markup of the example pages, and the parser that knows them. *)
Definition price_html : str :=
  lit "<span class=" ++ quoted (lit "price") ++ lit ">" ++ [rupee] ++ lit "1049</span>".
Definition braces_html : str :=
  lit "<span class=" ++ quoted (lit "price") ++ lit ">${5</span>".
Definition empty_heading_html : str := lit "<title>Shop</title><h1></h1>".
Definition two_blanks_html : str := lit "<p>a  b</p>".

Definition example_parser : str -> soup :=
  table_parser [ (price_html, price_page); (braces_html, braces_page);
                 (empty_heading_html, empty_heading_page); (two_blanks_html, two_blanks_page) ].

(** The lowercased text of [preorder_page]. *)
Definition preorder_text : str :=
  lit "pre-order the deluxe edition now; the standard model is in stock today".

(** A suggestion, the text that encodes it, and a backend whose first
    model is out of service while the others answer with that text inside a
    code fence. *)
Definition suggested_mapping : dict value :=
  [ (lit "title", VStr (lit "h1.other")); (lit "price", VStr (lit ".price")) ].

Definition suggested_json : str :=
  lit "{" ++ quoted (lit "title") ++ lit ": " ++ quoted (lit "h1.other") ++ lit ", "
  ++ quoted (lit "price") ++ lit ": " ++ quoted (lit ".price") ++ lit "}".

Definition example_json : str -> outcome value :=
  table_json [ (suggested_json, VDict suggested_mapping) ].

Definition flaky_backend (key model_name prompt : str) : outcome (option str) :=
  if str_eqb model_name (lit "gemini-2.5-flash")
  then Raised {| exn_class := lit "ServerError"; exn_message := lit "503 UNAVAILABLE" |}
  else Returned (Some (json_fence ++ newline ++ suggested_json ++ newline ++ fence)).

(** The selector map of a caller who chose the title selector only. *)
Definition caller_mapping : dict value :=
  [ (lit "title", VStr (lit "h1.mine")); (lit "price", VStr []); (lit "availability", VStr []) ].

(** ** What a pattern matches

    The texts of a pattern, without the order in which [re] tries them. *)
Inductive lang : regex -> str -> Prop :=
| lang_atom (p : char -> bool) (c : char) : p c = true -> lang (Atom p) [c]
| lang_seq (a b : regex) (x y : str) : lang a x -> lang b y -> lang (Seq a b) (x ++ y)
| lang_alt_l (a b : regex) (x : str) : lang a x -> lang (Alt a b) x
| lang_alt_r (a b : regex) (x : str) : lang b x -> lang (Alt a b) x
| lang_opt_none (a : regex) : lang (Opt a) []
| lang_opt_some (a : regex) (x : str) : lang a x -> lang (Opt a) x
| lang_star (p : char -> bool) (x : str) : List.forallb p x = true -> lang (Star p) x
| lang_plus (p : char -> bool) (c : char) (x : str) :
    p c = true -> List.forallb p x = true -> lang (Plus p) (c :: x)
| lang_group (i : nat) (a : regex) (x : str) : lang a x -> lang (Group i a) x.

(** The numbers of the groups of a pattern. *)
Fixpoint group_ids (r : regex) : list nat :=
  match r with
  | Atom _ | Star _ | Plus _ => []
  | Seq a b | Alt a b => group_ids a ++ group_ids b
  | Opt a => group_ids a
  | Group i a => i :: group_ids a
  end.

(** What the proofs ask of the interpreter's table of decimal digits: on
    ASCII the digits are [0] to [9] with their values, and the currency
    symbols beyond ASCII are not digits. *)
Definition digits_as_in_ascii (U : Unicode) : Prop :=
  (forall c, (c < 128)%N -> decimal_digit c = ascii_decimal_digit c) /\
  decimal_digit euro = None /\ decimal_digit pound = None /\ decimal_digit rupee = None.

(** *** The two patterns, in words

    What the patterns of [extractor.py] match, said without the matcher:
    the statements about [normalize_fields] are put in these words. *)

Section PatternTexts.
Context {U : Unicode}.








End PatternTexts.


Section PriceWords.
Context {U : Unicode}.

(** What may stand between the symbol and the last digit of a price. *)
Definition inner_char (c : char) : bool :=
  isspace c || digit_brace_comma c || is_char dot c.
End PriceWords.

(** [x] has no white space at either end. *)
Definition trimmed (x : str) : Prop := strip x = x.

(** ** The sample generator ([snapshot_generator.py]) *)

(** The decimal digits of [n] before [acc], least significant digit
    first into [acc]; [fuel] bounds the number of digits. *)
Fixpoint digits_of (fuel : nat) (n : N) (acc : str) : str :=
  match fuel with
  | O => acc
  | S fuel' =>
      let acc' := (48 + n mod 10)%N :: acc in
      if (n <? 10)%N then acc' else digits_of fuel' (n / 10)%N acc'
  end.

(** [str(n)], which is how an f-string writes an [int] that is not
    negative. *)
Definition str_of_N (n : N) : str := digits_of (S (N.to_nat (N.log2 n))) n [].

(** [f"Example Product {i}"] *)
Definition sample_title (i : N) : str := lit "Example Product " ++ str_of_N i.

(** [f"₹{999 + i * 50}"] *)
Definition sample_price (i : N) : str := rupee :: str_of_N (999 + i * 50).

(** ["In stock" if i % 3 != 0 else "Out of stock"] *)
Definition sample_availability (i : N) : str :=
  if negb (i mod 3 =? 0)%N then lit "In stock" else lit "Out of stock".

(** The prompts a trace shows to have been sent, oldest first. *)
Fixpoint prompts_sent (t : list event) : list str :=
  match t with
  | [] => []
  | GenerateContent _ p :: t' => p :: prompts_sent t'
  | _ :: t' => prompts_sent t'
  end.

Definition backtick : char := 96%N.

(** ** Fetching a page ([fetch_html]) and the Run Extraction handler ([app.py]) *)

(** What [requests.get] returns: the status, the final address and the text. *)
Record response : Type := { status_code : Z; response_url : str; response_text : str }.

(** The events of the handler: those of the extractor and of the client,
    the request that leaves for the network and the write to the database. *)
Inductive handler_event : Type :=
| Inner (e : event)
| RequestsGet (url : str) (timeout : Z) (headers : dict str)
| SnapshotToDb (db_path url html : str).

Definition default_headers : dict str :=
  [(lit "User-Agent", lit "SafeExtractorBot/1.0 (+https://example.com)")].

Definition HTTPError : exn := {| exn_class := lit "HTTPError"; exn_message := lit "HTTP error" |}.

Definition DB_PATH : str := lit "snapshots.db".

(** One input of a run: ["url"] with its address, ["upload"] and
    ["snapshot"] with a name and the text of the page. *)
Inductive input : Type :=
| Url (url : str)
| Upload (name html : str)
| Snapshot (name html : str).

(** The state a run of the handler works on: the dictionary objects, the
    [results] list, what has happened so far, and how many extractions
    have read the clock. *)
Record world : Type := {
  objects : store;
  results : list (dict value);
  happened : list handler_event;
  ticks : nat
}.

Definition log (w : world) (evs : list handler_event) : world :=
  {| objects := objects w; results := results w; happened := happened w ++ evs;
     ticks := ticks w |}.

(** The merge of [merge_loop] on the items of a dictionary. *)
Fixpoint merge_items (inferred : dict value) (fields : list str) (mapping : dict value)
  : dict value :=
  match fields with
  | [] => mapping
  | key :: fields' =>
      if truthy (get inferred key) && negb (truthy (get mapping key))
      then merge_items inferred fields' (dict_set mapping key (get inferred key))
      else merge_items inferred fields' mapping
  end.

Section RunExtraction.
Context {U : Unicode}.

(** [requests.get(url, timeout=..., headers=...)] *)
Variable requests_get : str -> Z -> dict str -> outcome response.

(** [snapshot_to_db(db_path, url, html)], which may fail as the database
    may. *)
Variable snapshot_to_db : str -> str -> str -> outcome unit.

Variable parse : str -> soup.
Variable select_one : soup -> value -> outcome (option node).
Variable genai_installed : bool.
Variable generate_content : str -> str -> str -> outcome (option str).
Variable json_loads : str -> outcome value.
Variable GEMINI_API_KEY : option str.

(** [datetime.datetime.utcnow().isoformat()] as the n-th extraction of a
    run reads it in [normalize_fields]. *)
Variable utcnow : nat -> str.

(** The check boxes of the side bar and the address of [mapping_input]. *)
Variable use_live use_llm_inference db_save show_raw_html : bool.
Variable mapping_input : nat.

(** [headers = headers or {...}], the request, [raise_for_status], and the
    final address with the text. *)
Definition fetch_html (url : str) (timeout : Z) (headers : option (dict str))
  : outcome (str * str) * list handler_event :=
  let headers := match headers with
                 | Some (item :: more) => item :: more
                 | _ => default_headers
                 end in
  match requests_get url timeout headers with
  | Raised e => (Raised e, [RequestsGet url timeout headers])
  | Returned r =>
      if (400 <=? status_code r) && (status_code r <? 600)
      then (Raised HTTPError, [RequestsGet url timeout headers])
      else (Returned (response_url r, response_text r), [RequestsGet url timeout headers])
  end.

(** From [mapping = mapping_input.copy()] to [results.append(extracted)]:
    an exception of the extraction is shown and the run goes on, one of
    the merge would end the run. *)
Definition extract_and_append (w : world) (html src : str) : outcome unit * world :=
  match effective_mapping genai_installed generate_content json_loads GEMINI_API_KEY
          (objects w) mapping_input use_llm_inference html with
  | (Raised e, t) => (Raised e, log w (List.map Inner t))
  | (Returned (h', mapping), t) =>
      match extract_from_html parse select_one (utcnow (ticks w)) html (deref h' mapping) with
      | (Returned extracted, t') =>
          (Returned tt,
           {| objects := h';
              results := results w ++ [dict_set extracted (lit "_source") (VStr src)];
              happened := happened w ++ List.map Inner (t ++ t');
              ticks := S (ticks w) |})
      | (Raised e, t') =>
          (Returned tt,
           {| objects := h'; results := results w;
              happened := happened w ++ List.map Inner (t ++ t' ++ [Streamlit (lit "error")]);
              ticks := ticks w |})
      end
  end.

(** The body of [for typ, payload in inputs]. *)
Definition process_input (w : world) (inp : input) : outcome unit * world :=
  match inp with
  | Url url =>
      if negb use_live
      then (Returned tt, log w [Inner (Streamlit (lit "warning"))])
      else
        match fetch_html url 10 None with
        | (Raised e, t) => (Returned tt, log w (t ++ [Inner (Streamlit (lit "error"))]))
        | (Returned (final_url, html), t) =>
            match (if db_save
                   then (snapshot_to_db DB_PATH final_url html,
                         [SnapshotToDb DB_PATH final_url html])
                   else (Returned tt, [])) with
            | (Raised e, tdb) =>
                (Returned tt, log w (t ++ tdb ++ [Inner (Streamlit (lit "error"))]))
            | (Returned _, tdb) =>
                extract_and_append
                  (log w (t ++ tdb ++ (if show_raw_html
                                       then [Inner (Streamlit (lit "expander"));
                                             Inner (Streamlit (lit "code"))]
                                       else [])))
                  html final_url
            end
        end
  | Upload name html => extract_and_append w html name
  | Snapshot name html => extract_and_append w html name
  end.

(** The loop over the inputs. *)
Fixpoint run_inputs (w : world) (inputs : list input) : outcome unit * world :=
  match inputs with
  | [] => (Returned tt, w)
  | inp :: inputs' =>
      match process_input w inp with
      | (Returned _, w') => run_inputs w' inputs'
      | (Raised e, w') => (Raised e, w')
      end
  end.

(** The mapping the client suggests for a page, nothing when the
    suggestions are off. *)
Definition suggested_for (html : str) : dict value :=
  if use_llm_inference && present GEMINI_API_KEY
  then match outcome_of (llm_infer_selectors genai_installed generate_content json_loads
                           html GEMINI_API_KEY) with
       | Returned inferred => inferred
       | Raised _ => []
       end
  else [].

(** The record a page yields on its own with the caller's selector map,
    as the extraction number [tick] of a run. *)
Definition record_alone (caller : dict value) (tick : nat) (html src : str) : list (dict value) :=
  match outcome_of (extract_from_html parse select_one (utcnow tick) html
                      (merge_items (suggested_for html) field_names caller)) with
  | Returned extracted => [dict_set extracted (lit "_source") (VStr src)]
  | Raised _ => []
  end.

(** The page an input brings to the extraction with its source, if it
    brings one. *)
Definition page_of (inp : input) : option (str * str) :=
  match inp with
  | Url url =>
      if negb use_live then None
      else match fst (fetch_html url 10 None) with
           | Raised _ => None
           | Returned (final_url, html) =>
               if db_save
               then match snapshot_to_db DB_PATH final_url html with
                    | Returned _ => Some (html, final_url)
                    | Raised _ => None
                    end
               else Some (html, final_url)
           end
  | Upload name html => Some (html, name)
  | Snapshot name html => Some (html, name)
  end.

(** The records of a list of inputs, each on its own, the clock read once
    for each page. *)
Fixpoint records_alone (caller : dict value) (tick : nat) (inputs : list input)
  : list (dict value) :=
  match inputs with
  | [] => []
  | inp :: inputs' =>
      match page_of inp with
      | Some (html, src) =>
          record_alone caller tick html src ++ records_alone caller (S tick) inputs'
      | None => records_alone caller tick inputs'
      end
  end.
End RunExtraction.

(** Whether a handler event is the request for a page or a write to the
    database. *)
Definition fetches_or_saves (ev : handler_event) : bool :=
  match ev with
  | Inner _ => false
  | RequestsGet _ _ _ => true
  | SnapshotToDb _ _ _ => true
  end.

(** Whether a handler event goes to the network: the request for a page
    and the call of the suggestion backend. *)
Definition uses_network (ev : handler_event) : bool :=
  match ev with
  | Inner (GenerateContent _ _) => true
  | Inner _ => false
  | RequestsGet _ _ _ => true
  | SnapshotToDb _ _ _ => false
  end.

(** What the switches promise of the events of a run: with live fetch off
    no page is requested and none is saved, and with the suggestions off
    as well nothing goes to the network. *)
Definition stays_local (use_live suggestions : bool) (evs : list handler_event) : Prop :=
  use_live = false ->
  List.existsb fetches_or_saves evs = false /\
  (suggestions = false -> List.existsb uses_network evs = false).

Definition is_url (inp : input) : bool := match inp with Url _ => true | _ => false end.

(** ** Collecting the inputs ([app.py], lines 96 to 116) *)

(** The line boundaries of [str.splitlines]. *)
Definition is_linebreak (c : char) : bool :=
  ((c =? 10) || (c =? 11) || (c =? 12) || (c =? 13) || (c =? 28) || (c =? 29) || (c =? 30)
   || (c =? 133) || (c =? 8232) || (c =? 8233))%N.

(** [str.splitlines] with [line] the part of the current line read so
    far: a carriage return followed by a line feed is one boundary, and
    there is no empty line after the last boundary. *)
Fixpoint splitlines_from (line x : str) : list str :=
  match x with
  | [] => match line with [] => [] | _ => [line] end
  | c :: x' =>
      if (c =? 13)%N
      then match x' with
           | c' :: x'' =>
               if (c' =? 10)%N
               then line :: splitlines_from [] x''
               else line :: splitlines_from [] x'
           | [] => [line]
           end
      else if is_linebreak c then line :: splitlines_from [] x'
      else splitlines_from (line ++ [c]) x'
  end.

Definition splitlines (x : str) : list str := splitlines_from [] x.

(** [if urls_text.strip(): for line in urls_text.splitlines(): ...] *)
Definition url_inputs (urls_text : str) : list input :=
  if isEmpty (strip urls_text) then []
  else flat_map (fun line => let line := strip line in
                             if isEmpty line then [] else [Url line])
                (splitlines urls_text).

Section Inputs.
(** [open(os.path.join(SNAPSHOT_DIR, name), "r", encoding="utf-8").read()],
    which fails when the file cannot be read or decoded. *)
Variable read_snapshot : str -> outcome str.

(** The inputs of a run: [uploaded_files] with the name and the decoded
    text of each file ([errors="replace"] makes the decoding total). *)
Definition collect_inputs (urls_text : str) (uploaded_files : list (str * str))
           (chosen_snapshot : option str) : outcome (list input) :=
  let inputs := url_inputs urls_text
                ++ List.map (fun file => Upload (fst file) (snd file)) uploaded_files in
  match chosen_snapshot with
  | Some name =>
      if negb (isEmpty name) && negb (str_eqb name (lit "(none)"))
      then match read_snapshot name with
           | Returned html => Returned (inputs ++ [Snapshot name html])
           | Raised e => Raised e
           end
      else Returned inputs
  | None => Returned inputs
  end.
End Inputs.

(** ** A run of the handler, for the examples

    A site that answers one address with the price page from another
    address and anything else with 404, a database that takes every
    snapshot, a clock, and the caller's map of [caller_mapping] as the
    object at address 0. *)
Definition example_site (url : str) (timeout : Z) (headers : dict str) : outcome response :=
  if str_eqb url (lit "http://shop.example/p")
  then Returned {| status_code := 200; response_url := lit "https://shop.example/p";
                   response_text := price_html |}
  else Returned {| status_code := 404; response_url := url; response_text := lit "Not Found" |}.

Definition example_db (db_path url html : str) : outcome unit := Returned tt.

Definition example_clock (n : nat) : str := lit "2025-01-01T00:00:0" ++ str_of_N (N.of_nat n).

Definition example_world : world :=
  {| objects := <[0%nat := caller_mapping]> ∅; results := []; happened := []; ticks := 0 |}.

Definition example_inputs : list input :=
  [ Url (lit "http://shop.example/p"); Url (lit "http://shop.example/gone");
    Upload (lit "price.html") price_html; Snapshot (lit "blanks.html") two_blanks_html ].

(** Two addresses typed with blanks around them and an empty line between. *)
Definition example_urls_text : str :=
  lit "  https://a.example/p  " ++ newline ++ lit " " ++ newline ++ lit "https://b.example/q".

(** A map whose selectors find nothing on the price page: no h1, a
    malformed selector, an empty one. *)
Definition useless_mapping : dict value :=
  [ (lit "title", VStr (lit "h1")); (lit "price", VStr (lit "span["));
    (lit "availability", VStr []) ].


(** * Properties *)

(** ** Text and dictionaries *)

Lemma str_eqb_eq (a b : str) : str_eqb a b = true <-> a = b.
Proof.
  revert b; induction a as [|x a IH]; intros [|y b]; simpl; split; intro H;
    try reflexivity; try discriminate.
  - apply andb_true_iff in H as [Hx Hab]. apply N.eqb_eq in Hx. apply IH in Hab. congruence.
  - injection H as -> ->. apply andb_true_iff; split; [apply N.eqb_refl | now apply IH].
Qed.

Lemma str_eqb_refl (a : str) : str_eqb a a = true.
Proof. now apply str_eqb_eq. Qed.

Lemma str_eqb_neq (a b : str) : str_eqb a b = false <-> a <> b.
Proof.
  split; intro H.
  - intros ->. rewrite str_eqb_refl in H. discriminate.
  - destruct (str_eqb a b) eqn:E; [|reflexivity]. apply str_eqb_eq in E. contradiction.
Qed.

Lemma dict_get_set {V : Type} (d : dict V) (k k' : str) (v : V) :
  dict_get (dict_set d k v) k' = if str_eqb k' k then Some v else dict_get d k'.
Proof.
  induction d as [|[k0 v0] d IH]; simpl.
  - reflexivity.
  - destruct (str_eqb k k0) eqn:E; simpl.
    + apply str_eqb_eq in E as ->. destruct (str_eqb k' k0); reflexivity.
    + destruct (str_eqb k' k0) eqn:E0.
      * apply str_eqb_eq in E0 as ->.
        destruct (str_eqb k0 k) eqn:E1; [|reflexivity].
        apply str_eqb_eq in E1 as ->. rewrite str_eqb_refl in E. discriminate.
      * exact IH.
Qed.

Lemma slice_substring (a b : Z) (x : str) : substring (slice a b x) x.
Proof.
  exists (firstn (Z.to_nat a) x), (skipn (Z.to_nat (b - a)) (skipn (Z.to_nat a) x)).
  unfold slice. now rewrite firstn_skipn, firstn_skipn.
Qed.

Lemma find_from_spec (sub x : str) (k : Z) :
  (find_from sub x k = -1 /\ forall j : nat, startswith sub (skipn j x) = false) \/
  (exists n : nat, find_from sub x k = k + Z.of_nat n /\
                   startswith sub (skipn n x) = true /\
                   forall j : nat, (j < n)%nat -> startswith sub (skipn j x) = false).
Proof.
  revert k; induction x as [|c x IH]; intro k; simpl.
  - destruct (startswith sub []) eqn:E.
    + right. exists 0%nat. repeat split; [lia | exact E | lia].
    + left. split; [reflexivity|]. intros [|j]; exact E.
  - destruct (startswith sub (c :: x)) eqn:E.
    + right. exists 0%nat. repeat split; [lia | exact E | lia].
    + destruct (IH (k + 1)) as [[Hm Hn] | (n & Hn & Hs & Hl)].
      * left. split; [exact Hm|]. intros [|j]; [exact E | apply Hn].
      * right. exists (S n). repeat split; [lia | exact Hs |].
        intros [|j] Hj; [exact E | apply Hl; lia].
Qed.

Lemma find_first_occurrence (sub x : str) :
  contains sub x = true -> first_occurrence sub x (find sub x).
Proof.
  unfold contains, find, first_occurrence. intro H. apply Z.leb_le in H.
  destruct (find_from_spec sub x 0) as [[Hm _] | (n & Hn & Hs & Hl)]; [lia|].
  rewrite Hn, Z.add_0_l, Nat2Z.id. repeat split; [lia | exact Hs | exact Hl].
Qed.

Lemma for_return_first {A B : Type} (before : list A) (a : A) (after : list A)
      (body : A -> option B) (rest : option B) (b : B) :
  (forall q, In q before -> body q = None) -> body a = Some b ->
  for_return (before ++ a :: after) body rest = Some b.
Proof.
  induction before as [|q before IH]; simpl; intros Hb Ha.
  - now rewrite Ha.
  - rewrite (Hb q (or_introl eq_refl)). apply IH; [|exact Ha]. intros; apply Hb; now right.
Qed.

Lemma for_return_none {A B : Type} (items : list A) (body : A -> option B) (rest : option B) :
  (forall q, In q items -> body q = None) -> for_return items body rest = rest.
Proof.
  induction items as [|q items IH]; simpl; intro Hb; [reflexivity|].
  rewrite (Hb q (or_introl eq_refl)). apply IH. intros; apply Hb; now right.
Qed.

(** ** The heuristics *)

Section HeuristicFacts.
Context {U : Unicode}.

Lemma infer_availability_hit (d : soup) (before : list str) (phrase : str) (after : list str) :
  let text_ := lower (soup_get_text (lit " ") true d) in
  availability_phrases = before ++ phrase :: after ->
  (forall q, In q before -> contains q text_ = false) ->
  contains phrase text_ = true ->
  infer_availability d = Some (window text_ (find phrase text_)).
Proof.
  intros text_ Hsplit Hbefore Hin. unfold infer_availability. rewrite Hsplit.
  apply for_return_first.
  - intros q Hq. fold text_. now rewrite (Hbefore q Hq).
  - fold text_. now rewrite Hin.
Qed.

(** C3: the availability heuristic looks in the lowercased text of the
    page for the phrases in the order in stock, out of stock, available,
    pre-order, preorder; the first phrase of the list that occurs anywhere
    wins, wherever the later phrases stand, and the result is the stripped
    window from 30 characters before to 50 characters after the first
    occurrence of that phrase; when no phrase occurs the result is None.
    So a page with in stock in it yields the window around in stock even
    when pre-order stands earlier. *)
Theorem infer_availability_first_listed_phrase (d : soup) :
  let text_ := lower (soup_get_text (lit " ") true d) in
  availability_phrases
    = [lit "in stock"; lit "out of stock"; lit "available"; lit "pre-order"; lit "preorder"] /\
  ((forall q, In q availability_phrases -> contains q text_ = false) ->
   infer_availability d = None) /\
  (forall before phrase after,
      availability_phrases = before ++ phrase :: after ->
      (forall q, In q before -> contains q text_ = false) ->
      contains phrase text_ = true ->
      first_occurrence phrase text_ (find phrase text_) /\
      infer_availability d
        = Some (strip (slice (Z.max 0 (find phrase text_ - 30)) (find phrase text_ + 50) text_))) /\
  (contains (lit "in stock") text_ = true ->
   infer_availability d
     = Some (strip (slice (Z.max 0 (find (lit "in stock") text_ - 30))
                          (find (lit "in stock") text_ + 50) text_))).
Proof.
  intro text_. split; [reflexivity|]. split; [|split].
  - intro Hnone. unfold infer_availability. apply for_return_none.
    intros q Hq. fold text_. now rewrite (Hnone q Hq).
  - intros before phrase after Hsplit Hbefore Hin. split.
    + now apply find_first_occurrence.
    + exact (infer_availability_hit d before phrase after Hsplit Hbefore Hin).
  - intro Hin.
    exact (infer_availability_hit d [] (lit "in stock") _ eq_refl
             (fun q (F : In q []) => match F with end) Hin).
Qed.

Lemma meta_content_present (tag : option node) :
  match tag with
  | Some tg =>
      if present (tag_get tg (lit "content"))
      then option_map strip (tag_get tg (lit "content"))
      else None
  | None => None
  end = meta_content tag.
Proof.
  destruct tag as [tg|]; [|reflexivity]. unfold meta_content, present.
  destruct (tag_get tg (lit "content")) as [c|]; [|reflexivity].
  destruct (isEmpty c); reflexivity.
Qed.


Lemma for_return_first_some {A B : Type} (items : list A) (body : A -> option B)
      (rest : option B) :
  for_return items body rest = first_some (List.map body items ++ [rest]).
Proof.
  induction items as [|a items IH]; simpl.
  - destruct rest; reflexivity.
  - destruct (body a); [reflexivity | exact IH].
Qed.

Lemma first_some_app {A : Type} (l1 l2 : list (option A)) :
  first_some (l1 ++ l2) = match first_some l1 with Some a => Some a | None => first_some l2 end.
Proof.
  induction l1 as [|[a|] l1 IH]; simpl; [reflexivity | reflexivity | exact IH].
Qed.

(** The order of the price strategies: the tags with a class, then the
    tags with an id, then the text of the whole page. *)
Lemma infer_price_strategies (d : soup) :
  infer_price d
  = first_some [ keyword_scan (find_all has_class d) class_label;
                 keyword_scan (find_all has_id d) id_label;
                 option_map group0 (search CURRENCY_RE (soup_get_text (lit " ") true d)) ].
Proof.
  unfold infer_price. rewrite !for_return_first_some, !first_some_app. unfold keyword_scan.
  cbn [first_some].
  destruct (first_some (List.map _ (find_all has_class d))); [reflexivity|].
  destruct (first_some (List.map _ (find_all has_id d))); [reflexivity|].
  destruct (search CURRENCY_RE (soup_get_text (lit " ") true d)); reflexivity.
Qed.
End HeuristicFacts.


(** ** Outcomes and traces *)

Lemma bind_returned {A B : Type} (a : A) (t : list event) (f : A -> Py B) :
  bind (Returned a, t) f = (fst (f a), t ++ snd (f a)).
Proof. unfold bind. destruct (f a); reflexivity. Qed.

(** ** The matcher reports matches of the text it was given *)





(** ** Items of a dictionary *)

Lemma mem_false_bindings {V : Type} (d : dict V) (k : str) :
  mem k (keys d) = false -> last_binding d k = None /\ dict_get d k = None.
Proof.
  induction d as [|[k' v] d IH]; simpl; [now split|].
  intro H. apply orb_false_iff in H as [Hk Hd]. destruct (IH Hd) as [-> ->].
  now rewrite Hk.
Qed.

Lemma last_binding_well_formed {V : Type} (d : dict V) (k : str) :
  well_formed d -> last_binding d k = dict_get d k.
Proof.
  unfold well_formed. induction d as [|[k' v] d IH]; simpl; [reflexivity|].
  intro H. apply andb_true_iff in H as [Hk Hd]. apply negb_true_iff in Hk.
  destruct (str_eqb k k') eqn:E.
  - apply str_eqb_eq in E as ->. now destruct (mem_false_bindings d k' Hk) as [-> _].
  - rewrite (IH Hd). now destruct (dict_get d k).
Qed.

Lemma mem_eq (k k' : str) (l : list str) : mem k l = true -> mem k' l = false -> str_eqb k k' = false.
Proof.
  intros Hk Hk'. apply str_eqb_neq. intros ->. rewrite Hk in Hk'. discriminate.
Qed.

Lemma last_binding_only_fields (mapping : dict value) (k : str) :
  mem k field_names = true -> last_binding (only_fields mapping) k = last_binding mapping k.
Proof.
  intro Hk. unfold only_fields.
  induction mapping as [|[k' v] mapping IH]; [reflexivity|].
  cbn [List.filter last_binding fst].
  destruct (mem k' field_names) eqn:E; cbn [last_binding].
  - now rewrite IH.
  - rewrite IH, (mem_eq k k' _ Hk E). now destruct (last_binding mapping k).
Qed.

(** ** The extractor, step by step *)

Section ExtractorFacts.
Context {U : Unicode}.
Variable parse : str -> soup.
Variable select_one : soup -> value -> outcome (option node).

Lemma select_step (d : soup) (selector : value) :
  truthy selector = true ->
  try_except
    (let* tag := call_select_one select_one d selector in
     ret (match tag with
          | Some tg => Some (get_text (lit " ") true tg)
          | None => None
          end))
    (fun _ => ret None)
  = (Returned (selector_result select_one d selector), [SelectOne selector]).
Proof.
  intro E. unfold selector_result, call_select_one. rewrite E.
  destruct (select_one d selector) as [[tg|]|e]; reflexivity.
Qed.

Lemma apply_selectors_loop_run (d : soup) (items : dict value) :
  forall acc,
    apply_selectors_loop select_one d items acc
    = (Returned (store_results select_one d items acc), evaluations items).
Proof.
  induction items as [|[field selector] items IH]; intro acc; [reflexivity|].
  cbn [apply_selectors_loop]. unfold store_results, evaluations.
  cbn [fold_left List.map List.filter fst snd].
  destruct (truthy selector) eqn:E; cbn [negb].
  - rewrite (select_step d selector E), bind_returned, IH. reflexivity.
  - rewrite IH. unfold selector_result. now rewrite E.
Qed.

Lemma apply_selectors_run (d : soup) (mapping : dict value) :
  apply_selectors select_one d mapping
  = (Returned (store_results select_one d mapping []), evaluations mapping).
Proof. apply apply_selectors_loop_run. Qed.

Lemma store_results_get (d : soup) (items : dict value) (k : str) :
  forall acc,
    dict_get (store_results select_one d items acc) k
    = match last_binding items k with
      | Some selector => Some (selector_result select_one d selector)
      | None => dict_get acc k
      end.
Proof.
  induction items as [|[field selector] items IH]; intro acc; [reflexivity|].
  unfold store_results in *. cbn [fold_left last_binding fst snd]. rewrite IH.
  destruct (last_binding items k); [reflexivity|]. rewrite dict_get_set.
  destruct (str_eqb k field); reflexivity.
Qed.

Lemma fallback_run (field : str) (h : soup -> option str) (d : soup)
      (selected : dict (option str)) :
  fallback field h d selected
  = (Returned (after_fallback field h d selected), heuristic_events selected field).
Proof.
  unfold fallback, after_fallback, heuristic_events.
  destruct (present (get_text_field selected field)); reflexivity.
Qed.

Lemma get_after_fallback (field : str) (h : soup -> option str) (d : soup)
      (selected : dict (option str)) (k : str) :
  get_text_field (after_fallback field h d selected) k
  = if str_eqb k field then field_or h d selected field else get_text_field selected k.
Proof.
  unfold after_fallback, field_or.
  destruct (present (get_text_field selected field)) eqn:E.
  - destruct (str_eqb k field) eqn:Ek; [|reflexivity]. now apply str_eqb_eq in Ek as ->.
  - unfold get_text_field at 1. rewrite dict_get_set. now destruct (str_eqb k field).
Qed.

Lemma normalize_fields_run (clock : str) (raw : dict (option str)) :
  normalize_fields clock raw
  = (Returned (record_of clock (get_text_field raw (lit "title"))
                         (get_text_field raw (lit "price"))
                         (get_text_field raw (lit "availability"))), []).
Proof.
  unfold normalize_fields, record_of, price_object, amount_of, first_number, first_currency.
  destruct (get_text_field raw (lit "price")) as [[|c x]|]; [reflexivity| |reflexivity].
  cbn [present isEmpty negb].
  destruct (search NUMBER_RE (c :: x)) as [num_m|]; cbn [option_map].
  - destruct (float (remove_char comma (group0 num_m))); reflexivity.
  - reflexivity.
Qed.

Lemma extract_from_html_run (clock html : str) (mapping : dict value) :
  let d := parse html in
  let selected := store_results select_one d mapping [] in
  extract_from_html parse select_one clock html mapping
  = (Returned (record_of clock
                 (field_or infer_title d selected (lit "title"))
                 (field_or infer_price d selected (lit "price"))
                 (field_or infer_availability d selected (lit "availability"))),
     evaluations mapping ++ heuristic_events selected (lit "title")
       ++ heuristic_events selected (lit "price")
       ++ heuristic_events selected (lit "availability")).
Proof.
  intros d selected. unfold extract_from_html. fold d.
  rewrite apply_selectors_run, bind_returned. cbv beta. fold selected.
  rewrite fallback_run, bind_returned. cbv beta.
  rewrite fallback_run, bind_returned. cbv beta.
  rewrite fallback_run, bind_returned. cbv beta.
  rewrite normalize_fields_run. cbn [fst snd].
  set (s1 := after_fallback (lit "title") infer_title d selected).
  set (s2 := after_fallback (lit "price") infer_price d s1).
  set (s3 := after_fallback (lit "availability") infer_availability d s2).
  assert (Hp : get_text_field s1 (lit "price") = get_text_field selected (lit "price"))
    by (unfold s1; now rewrite get_after_fallback).
  assert (Ha : get_text_field s2 (lit "availability")
               = get_text_field selected (lit "availability"))
    by (unfold s2, s1; now rewrite !get_after_fallback).
  assert (H3t : get_text_field s3 (lit "title") = field_or infer_title d selected (lit "title"))
    by (unfold s3, s2, s1; now rewrite !get_after_fallback).
  assert (H3p : get_text_field s3 (lit "price") = field_or infer_price d selected (lit "price")).
  { unfold s3, s2. rewrite !get_after_fallback. cbn [str_eqb lit]. unfold field_or. now rewrite Hp. }
  assert (H3a : get_text_field s3 (lit "availability")
                = field_or infer_availability d selected (lit "availability")).
  { unfold s3. rewrite get_after_fallback, str_eqb_refl. unfold field_or. now rewrite Ha. }
  rewrite H3t, H3p, H3a. unfold heuristic_events. rewrite Hp, Ha.
  now rewrite app_nil_r.
Qed.

Lemma not_in_evaluations (field : str) (mapping : dict value) :
  ~ In (Heuristic field) (evaluations mapping).
Proof.
  unfold evaluations. intro H. apply in_map_iff in H as (v & Hv & _). discriminate.
Qed.

Lemma in_heuristic_events (field field' : str) (selected : dict (option str)) :
  In (Heuristic field) (heuristic_events selected field')
  <-> field = field' /\ present (get_text_field selected field') = false.
Proof.
  unfold heuristic_events. destruct (present (get_text_field selected field')); simpl.
  - split; [tauto | now intros [_ ?]].
  - split; [intros [[= ->]|[]]; now split | intros [-> _]; now left].
Qed.

(** C4, as the code has it: the heuristic of a field runs exactly when
    the selector applier left the field None or empty, an empty selected
    text counting as missing; otherwise the record shows the selected
    text.  So when a selector is supplied for a field and matches a tag
    whose extracted text is not empty, the heuristic of that field does
    not run and the record is built from the selected text. *)
Theorem heuristic_runs_only_for_missing_field (clock html : str) (mapping : dict value)
        (field : str) :
  In field field_names ->
  exists selected record trace,
    apply_selectors select_one (parse html) mapping = (Returned selected, evaluations mapping) /\
    extract_from_html parse select_one clock html mapping = (Returned record, trace) /\
    (In (Heuristic field) trace <-> present (get_text_field selected field) = false) /\
    (present (get_text_field selected field) = true ->
     record_field record field = value_of_text (get_text_field selected field)) /\
    (forall selector tag,
        well_formed mapping -> dict_get mapping field = Some selector ->
        truthy selector = true ->
        select_one (parse html) selector = Returned (Some tag) ->
        isEmpty (get_text (lit " ") true tag) = false ->
        ~ In (Heuristic field) trace /\
        record_field record field = VStr (get_text (lit " ") true tag)).
Proof.
  intro Hfield.
  set (selected := store_results select_one (parse html) mapping []).
  assert (Htrace : In (Heuristic field)
                      (evaluations mapping ++ heuristic_events selected (lit "title")
                         ++ heuristic_events selected (lit "price")
                         ++ heuristic_events selected (lit "availability"))
                   <-> present (get_text_field selected field) = false).
  { rewrite !in_app_iff, !in_heuristic_events.
    pose proof (not_in_evaluations field mapping) as Hev.
    destruct Hfield as [<-|[<-|[<-|[]]]]; split; intro H;
      try (right; tauto);
      destruct H as [H|[[H ?]|[[H ?]|[H ?]]]];
      try contradiction; try discriminate H; assumption. }
  assert (Hrecord : present (get_text_field selected field) = true ->
            record_field
              (record_of clock (field_or infer_title (parse html) selected (lit "title"))
                 (field_or infer_price (parse html) selected (lit "price"))
                 (field_or infer_availability (parse html) selected (lit "availability")))
              field
            = value_of_text (get_text_field selected field)).
  { intro Hp. destruct Hfield as [<-|[<-|[<-|[]]]]; unfold field_or; rewrite Hp; reflexivity. }
  exists selected. eexists. eexists.
  split; [apply apply_selectors_run|]. split; [apply extract_from_html_run|].
  split; [exact Htrace|]. split; [exact Hrecord|].
  intros selector tag Hwf Hget Htruthy Hsel Htext.
  assert (Hs : get_text_field selected field = Some (get_text (lit " ") true tag)).
  { unfold get_text_field, selected.
    rewrite store_results_get, (last_binding_well_formed _ _ Hwf), Hget.
    unfold selector_result. now rewrite Htruthy, Hsel. }
  assert (Hp : present (get_text_field selected field) = true)
    by (rewrite Hs; unfold present; now rewrite Htext).
  split.
  - intro Hin. apply Htrace in Hin. congruence.
  - etransitivity; [exact (Hrecord Hp)|]. now rewrite Hs.
Qed.

(** C5, as the code has it: [apply_selectors] returns for every page and
    selector map; the engine is called for the selectors that are not
    empty and for no other; and in the result a field that the map does
    not have is absent, a field with an empty selector is None, a field
    whose selector the engine refuses or matches with nothing is None
    whatever the other fields are, and a field whose selector matches a
    tag holds the strings of that tag, each stripped at its ends, the
    blank ones dropped, joined by one blank: whitespace inside a string
    stays as it is. *)
Theorem apply_selectors_never_raises (d : soup) (mapping : dict value) :
  exists results,
    apply_selectors select_one d mapping
    = (Returned results, List.map SelectOne (List.filter truthy (List.map snd mapping))) /\
    (well_formed mapping ->
     forall field,
       dict_get results field
       = match dict_get mapping field with
         | None => None
         | Some selector =>
             Some (if truthy selector
                   then match select_one d selector with
                        | Returned (Some tag) =>
                            Some (join (lit " ") (all_strings true (descendants tag)))
                        | Returned None => None
                        | Raised _ => None
                        end
                   else None)
         end).
Proof.
  exists (store_results select_one d mapping []). split; [apply apply_selectors_run|].
  intros Hwf field. rewrite store_results_get, (last_binding_well_formed _ _ Hwf).
  reflexivity.
Qed.

(** C9: two calls of [extract_from_html] on the same page text and
    selector map, whatever the clock shows at each, return records that
    agree on every field but extraction_timestamp, and cause the same
    events. *)
Theorem extract_from_html_deterministic (clock1 clock2 html : str) (mapping : dict value) :
  exists record1 record2 trace,
    extract_from_html parse select_one clock1 html mapping = (Returned record1, trace) /\
    extract_from_html parse select_one clock2 html mapping = (Returned record2, trace) /\
    without_timestamp record1 = without_timestamp record2 /\
    dict_get record1 (lit "extraction_timestamp") = Some (VStr (clock1 ++ lit "Z")) /\
    dict_get record2 (lit "extraction_timestamp") = Some (VStr (clock2 ++ lit "Z")).
Proof.
  do 3 eexists. rewrite !extract_from_html_run. repeat split.
Qed.

Lemma field_or_only_fields (h : soup -> option str) (d : soup) (mapping : dict value)
      (field : str) :
  mem field field_names = true ->
  field_or h d (store_results select_one d (only_fields mapping) []) field
  = field_or h d (store_results select_one d mapping []) field.
Proof.
  intro Hf. unfold field_or, get_text_field.
  now rewrite !store_results_get, (last_binding_only_fields _ _ Hf).
Qed.

(** C10: for every page text and every selector map, with keys beyond
    the three fields or without some of them, [extract_from_html]
    returns a record whose keys are title, price, availability,
    extraction_timestamp, whose price has the keys raw, amount, currency,
    and which is the record returned for the map cut down to the three
    fields: what the other keys select has no part in it. *)
Theorem extract_from_html_record_shape (clock html : str) (mapping : dict value) :
  exists record price,
    outcome_of (extract_from_html parse select_one clock html mapping) = Returned record /\
    keys record
    = [lit "title"; lit "price"; lit "availability"; lit "extraction_timestamp"] /\
    dict_get record (lit "price") = Some (VDict price) /\
    keys price = [lit "raw"; lit "amount"; lit "currency"] /\
    outcome_of (extract_from_html parse select_one clock html (only_fields mapping))
    = Returned record.
Proof.
  do 2 eexists. rewrite !extract_from_html_run. cbn [outcome_of fst].
  rewrite !field_or_only_fields by reflexivity. repeat split.
Qed.
End ExtractorFacts.

(** ** The suggestion client *)

Lemma backend_calls_app (t1 t2 : list event) :
  backend_calls (t1 ++ t2) = backend_calls t1 ++ backend_calls t2.
Proof.
  induction t1 as [|ev t1 IH]; [reflexivity|]. destruct ev; simpl; now rewrite IH.
Qed.

Lemma strip_code_fence_trace (x : str) : trace_of (strip_code_fence x) = [].
Proof.
  unfold strip_code_fence, inside_fence.
  destruct (contains json_fence x).
  - now destruct (snd (split1 json_fence x)).
  - destruct (contains fence x); [|reflexivity]. now destruct (snd (split1 fence x)).
Qed.

Section SuggestionFacts.
Variable genai_installed : bool.
Variable generate_content : str -> str -> str -> outcome (option str).
Variable json_loads : str -> outcome value.

Abbreviation attempt_ := (attempt generate_content json_loads).
Abbreviation models_loop_ := (models_loop generate_content json_loads).
Abbreviation llm_infer_selectors_ :=
  (llm_infer_selectors genai_installed generate_content json_loads).

(** One attempt calls the backend once, and returns a mapping exactly
    when the answer has a text that is not blank and that, the code fence
    taken off, decodes to a dictionary with one of the three keys. *)
Lemma attempt_run (key prompt model_name : str) :
  backend_calls (trace_of (attempt_ key prompt model_name)) = [model_name] /\
  forall parsed,
    outcome_of (attempt_ key prompt model_name) = Returned parsed <->
    exists answer inner,
      generate_content key model_name prompt = Returned (Some answer) /\
      isEmpty (strip answer) = false /\
      outcome_of (strip_code_fence (strip answer)) = Returned inner /\
      json_loads inner = Returned (VDict parsed) /\
      List.existsb (has_key parsed) field_names = true.
Proof.
  split.
  - unfold attempt, call_generate_content.
    destruct (generate_content key model_name prompt) as [[answer|]|e]; try reflexivity.
    cbn [bind ret app]. destruct (isEmpty (strip answer)); [reflexivity|].
    cbn [bind ret raise app].
    pose proof (strip_code_fence_trace (strip answer)) as Ht.
    destruct (strip_code_fence (strip answer)) as [[inner|e] tr];
      cbn [trace_of snd] in Ht; subst tr; [|reflexivity].
    cbn [bind app]. destruct (json_loads inner) as [v|e]; [|reflexivity].
    destruct v as [| b | z | f | x | l | parsed_]; try reflexivity.
    destruct (List.existsb (has_key parsed_) field_names); reflexivity.
  - intro parsed. split.
    + unfold attempt, call_generate_content.
      destruct (generate_content key model_name prompt) as [[answer|]|e]; try discriminate.
      cbn [bind ret app]. destruct (isEmpty (strip answer)) eqn:Ee; [discriminate|].
      cbn [bind ret raise app].
      pose proof (strip_code_fence_trace (strip answer)) as Ht.
      destruct (strip_code_fence (strip answer)) as [[inner|e] tr] eqn:Ef;
        cbn [trace_of snd] in Ht; subst tr; [|discriminate].
      cbn [bind app]. destruct (json_loads inner) as [v|e] eqn:Ej; [|discriminate].
      destruct v as [| b | z | f | x | l | parsed_]; try discriminate.
      destruct (List.existsb (has_key parsed_) field_names) eqn:Ek; [|discriminate].
      cbn. intros [= <-]. exists answer, inner. rewrite Ef. now repeat split.
    + intros (answer & inner & Hg & He & Hf & Hj & Hk).
      unfold attempt, call_generate_content. rewrite Hg. cbn [bind ret app]. rewrite He.
      cbn [bind ret raise app].
      pose proof (strip_code_fence_trace (strip answer)) as Ht.
      destruct (strip_code_fence (strip answer)) as [o tr];
        cbn [trace_of outcome_of fst snd] in Ht, Hf; subst tr o.
      cbn [bind app]. rewrite Hj, Hk. reflexivity.
Qed.

Lemma models_loop_step (key prompt model_name : str) (models : list str) (errors : dict str) :
  models_loop_ key prompt (model_name :: models) errors
  = match outcome_of (attempt_ key prompt model_name) with
    | Returned parsed => (Returned (Some parsed, errors), trace_of (attempt_ key prompt model_name))
    | Raised e =>
        (fst (models_loop_ key prompt models (dict_set errors model_name (exn_message e))),
         trace_of (attempt_ key prompt model_name)
           ++ snd (models_loop_ key prompt models (dict_set errors model_name (exn_message e))))
    end.
Proof.
  cbn [models_loop].
  destruct (attempt_ key prompt model_name) as [[parsed|e] tr].
  - cbn. now rewrite !app_nil_r.
  - cbn [bind try_except ret outcome_of trace_of fst snd].
    rewrite app_nil_r.
    destruct (models_loop_ key prompt models (dict_set errors model_name (exn_message e))).
    reflexivity.
Qed.

(** Every model fails: the loop ends with nothing, after calling every
    model in order, and [errors] holds the message of each. *)
Lemma models_loop_exhausted (key prompt : str) (models : list str) :
  forall errors,
    (forall m, In m models -> exists e, outcome_of (attempt_ key prompt m) = Raised e) ->
    exists errors' tr,
      models_loop_ key prompt models errors = (Returned (None, errors'), tr) /\
      backend_calls tr = models /\
      (forall m e, In m models -> outcome_of (attempt_ key prompt m) = Raised e ->
                   dict_get errors' m = Some (exn_message e)) /\
      (forall m, ~ In m models -> dict_get errors' m = dict_get errors m) /\
      (models <> [] -> errors' <> []).
Proof.
  induction models as [|model_name models IH]; intros errors Hfail.
  - exists errors, []. repeat split; try easy.
  - destruct (Hfail model_name (or_introl eq_refl)) as [e He].
    destruct (IH (dict_set errors model_name (exn_message e))) as (errors' & tr & Hrun & Hcalls & Hrec & Hkeep & _).
    { intros m Hm. apply Hfail. now right. }
    exists errors', (trace_of (attempt_ key prompt model_name) ++ tr).
    split; [rewrite models_loop_step, He, Hrun; reflexivity|].
    split; [rewrite backend_calls_app, (proj1 (attempt_run _ _ _)), Hcalls; reflexivity|].
    assert (Hget : forall m e0, In m (model_name :: models) ->
                     outcome_of (attempt_ key prompt m) = Raised e0 ->
                     dict_get errors' m = Some (exn_message e0)).
    { intros m e0 Hm He0. destruct (in_dec str_dec m models) as [Hin|Hout].
      - now apply Hrec.
      - destruct Hm as [<-|Hm]; [|contradiction].
        rewrite (Hkeep _ Hout), dict_get_set, str_eqb_refl. congruence. }
    split; [exact Hget|]. split.
    + intros m Hm. rewrite Hkeep by (intro; apply Hm; now right).
      rewrite dict_get_set. destruct (str_eqb m model_name) eqn:E; [|reflexivity].
      apply str_eqb_eq in E as ->. exfalso. apply Hm. now left.
    + intros _ ->. specialize (Hget model_name e (or_introl eq_refl) He). discriminate.
Qed.

(** The models before [model_name] fail and [model_name] is accepted:
    the loop returns its mapping, after calling the models up to it in
    order and no other, and [errors] holds the message of each failure. *)
Lemma models_loop_first_accepted (key prompt : str) (before : list str) (model_name : str)
      (after : list str) (parsed : dict value) :
  forall errors,
    (forall m, In m before -> exists e, outcome_of (attempt_ key prompt m) = Raised e) ->
    outcome_of (attempt_ key prompt model_name) = Returned parsed ->
    exists errors' tr,
      models_loop_ key prompt (before ++ model_name :: after) errors
      = (Returned (Some parsed, errors'), tr) /\
      backend_calls tr = before ++ [model_name] /\
      (forall m e, In m before -> outcome_of (attempt_ key prompt m) = Raised e ->
                   dict_get errors' m = Some (exn_message e)) /\
      (forall m, ~ In m before -> dict_get errors' m = dict_get errors m).
Proof.
  induction before as [|m0 before IH]; intros errors Hfail Hok.
  - exists errors, (trace_of (attempt_ key prompt model_name)).
    split; [cbn [app]; rewrite models_loop_step, Hok; reflexivity|].
    split; [apply attempt_run|]. now split.
  - destruct (Hfail m0 (or_introl eq_refl)) as [e He].
    destruct (IH (dict_set errors m0 (exn_message e))) as (errors' & tr & Hrun & Hcalls & Hrec & Hkeep);
      [intros m Hm; apply Hfail; now right | exact Hok |].
    exists errors', (trace_of (attempt_ key prompt m0) ++ tr).
    split; [cbn [app]; rewrite models_loop_step, He, Hrun; reflexivity|].
    split; [rewrite backend_calls_app, (proj1 (attempt_run _ _ _)), Hcalls; reflexivity|].
    split.
    + intros m e0 Hm He0. destruct (in_dec str_dec m before) as [Hin|Hout].
      * now apply Hrec.
      * destruct Hm as [<-|Hm]; [|contradiction].
        rewrite (Hkeep _ Hout), dict_get_set, str_eqb_refl. congruence.
    + intros m Hm. rewrite Hkeep by (intro; apply Hm; now right).
      rewrite dict_get_set. destruct (str_eqb m m0) eqn:E; [|reflexivity].
      apply str_eqb_eq in E as ->. exfalso. apply Hm. now left.
Qed.

Lemma models_loop_returns (key prompt : str) (models : list str) :
  forall errors, exists r tr, models_loop_ key prompt models errors = (Returned r, tr).
Proof.
  induction models as [|model_name models IH]; intro errors.
  - now exists (None, errors), [].
  - rewrite models_loop_step. destruct (outcome_of (attempt_ key prompt model_name)) as [parsed|e].
    + now eexists; eexists.
    + destruct (IH (dict_set errors model_name (exn_message e))) as (r & tr & ->).
      now eexists; eexists.
Qed.

Lemma llm_infer_selectors_returns (html : str) (api_key : option str) :
  exists result tr, llm_infer_selectors_ html api_key = (Returned result, tr).
Proof.
  unfold llm_infer_selectors.
  destruct (present api_key); cbn [negb]; [|now eexists; eexists].
  destruct genai_installed; cbn [negb]; [|now eexists; eexists].
  destruct (models_loop_returns (match api_key with Some k => k | None => [] end)
              (prompt_of html) models_to_try []) as ([[parsed|] errors] & tr & ->);
    rewrite bind_returned; cbn [fst snd].
  - now eexists; eexists.
  - destruct errors; now eexists; eexists.
Qed.

Lemma llm_infer_selectors_enabled (html key : str) :
  isEmpty key = false -> genai_installed = true ->
  llm_infer_selectors_ html (Some key)
  = (let* r := models_loop_ key (prompt_of html) models_to_try [] in
     match fst r with
     | Some parsed => ret parsed
     | None =>
         match snd r with
         | [] => ret tt
         | _ => emit (Print (lit "[Gemini inference error] All models failed -> "
                             ++ format_errors (snd r)))
         end ;;
         ret []
     end).
Proof.
  intros Hkey Hinst. unfold llm_infer_selectors, present. now rewrite Hkey, Hinst.
Qed.

(** C7, as the code has it: without a credential, or when the backend
    package cannot be imported, the client returns the empty mapping
    without a call of the backend.  Otherwise it calls the models of
    [models_to_try] in their order, one call each; an answer is accepted
    exactly when its text is not blank and, the code fence taken off,
    decodes to a dictionary with one of the keys title, price,
    availability; the mapping of the first accepted answer is returned
    and no later model is called; the exception of every model that
    failed is kept in [errors] under the name of the model with its
    message; and when every model fails the client returns the empty
    mapping, having printed the failures.  It never raises. *)
Theorem llm_infer_selectors_fallback (html : str) (api_key : option str) :
  exists result,
    outcome_of (llm_infer_selectors_ html api_key) = Returned result /\
    (present api_key = false \/ genai_installed = false ->
     result = [] /\ backend_calls (trace_of (llm_infer_selectors_ html api_key)) = []) /\
    (forall key,
        api_key = Some key -> isEmpty key = false -> genai_installed = true ->
        (forall m parsed,
            outcome_of (attempt_ key (prompt_of html) m) = Returned parsed <->
            exists answer inner,
              generate_content key m (prompt_of html) = Returned (Some answer) /\
              isEmpty (strip answer) = false /\
              outcome_of (strip_code_fence (strip answer)) = Returned inner /\
              json_loads inner = Returned (VDict parsed) /\
              List.existsb (has_key parsed) field_names = true) /\
        (forall before m after parsed,
            models_to_try = before ++ m :: after ->
            (forall m', In m' before ->
                        exists e, outcome_of (attempt_ key (prompt_of html) m') = Raised e) ->
            outcome_of (attempt_ key (prompt_of html) m) = Returned parsed ->
            result = parsed /\
            backend_calls (trace_of (llm_infer_selectors_ html api_key)) = before ++ [m] /\
            exists errors,
              outcome_of (models_loop_ key (prompt_of html) models_to_try [])
              = Returned (Some parsed, errors) /\
              forall m' e, In m' before ->
                           outcome_of (attempt_ key (prompt_of html) m') = Raised e ->
                           dict_get errors m' = Some (exn_message e)) /\
        ((forall m, In m models_to_try ->
                    exists e, outcome_of (attempt_ key (prompt_of html) m) = Raised e) ->
         result = [] /\
         backend_calls (trace_of (llm_infer_selectors_ html api_key)) = models_to_try /\
         exists errors,
           outcome_of (models_loop_ key (prompt_of html) models_to_try [])
           = Returned (None, errors) /\
           (forall m e, In m models_to_try ->
                        outcome_of (attempt_ key (prompt_of html) m) = Raised e ->
                        dict_get errors m = Some (exn_message e)) /\
           In (Print (lit "[Gemini inference error] All models failed -> "
                      ++ format_errors errors))
              (trace_of (llm_infer_selectors_ html api_key)))).
Proof.
  destruct (llm_infer_selectors_returns html api_key) as (result & tr & Hrun).
  exists result. split; [now rewrite Hrun|]. split.
  - intro Hoff.
    assert (Hm : exists msg, llm_infer_selectors_ html api_key = (Returned [], [Print msg])).
    { unfold llm_infer_selectors. destruct (present api_key); cbn [negb].
      - destruct Hoff as [Hoff|Hoff]; [discriminate|]. rewrite Hoff. now eexists.
      - now eexists. }
    destruct Hm as [msg Hm]. rewrite Hm in Hrun |- *. now injection Hrun as <- <-.
  - intros key -> Hkey Hinst. split; [apply attempt_run|].
    rewrite (llm_infer_selectors_enabled html key Hkey Hinst) in *. split.
    + intros before m after parsed Hsplit Hfail Hok.
      destruct (models_loop_first_accepted key (prompt_of html) before m after parsed []
                  Hfail Hok) as (errors & tr' & Hloop & Hcalls & Hrec & _).
      rewrite <- Hsplit in Hloop. rewrite Hloop, bind_returned in Hrun |- *.
      cbn in Hrun |- *. injection Hrun as <- <-. split; [reflexivity|].
      split; [now rewrite app_nil_r|]. exists errors. now split.
    + intro Hfail.
      destruct (models_loop_exhausted key (prompt_of html) models_to_try [] Hfail)
        as (errors & tr' & Hloop & Hcalls & Hrec & _ & Hne).
      rewrite Hloop, bind_returned in Hrun |- *. cbn [fst snd] in Hrun |- *.
      destruct errors as [|item errors]; [now exfalso; apply Hne|].
      cbn [bind emit ret app fst snd trace_of] in Hrun |- *.
      injection Hrun as <- <-. split; [reflexivity|].
      split; [now rewrite backend_calls_app, Hcalls, app_nil_r|].
      exists (item :: errors). split; [reflexivity|]. split; [exact Hrec|].
      apply in_or_app. right. now left.
Qed.
End SuggestionFacts.

(** ** The selector merge *)

Lemma deref_setitem (h : store) (l : nat) (k : str) (v : value) :
  deref (setitem h l k v) l = dict_set (deref h l) k v.
Proof. unfold setitem. unfold deref at 1. now rewrite lookup_insert_eq. Qed.

Lemma lookup_setitem_ne (h : store) (l l' : nat) (k : str) (v : value) :
  l' <> l -> setitem h l k v !! l' = h !! l'.
Proof. intro H. unfold setitem. now rewrite lookup_insert_ne. Qed.

Lemma merge_loop_other (inferred : dict value) (mapping l : nat) (fields : list str) :
  forall h : store, l <> mapping -> merge_loop inferred fields h mapping !! l = h !! l.
Proof.
  induction fields as [|key fields IH]; intros h Hl; [reflexivity|]. cbn [merge_loop].
  destruct (truthy (get inferred key) && negb (truthy (get (deref h mapping) key))).
  - rewrite IH by exact Hl. now apply lookup_setitem_ne.
  - now apply IH.
Qed.

Lemma merge_loop_allocated (inferred : dict value) (mapping : nat) (fields : list str) :
  forall h : store,
    is_Some (h !! mapping) -> is_Some (merge_loop inferred fields h mapping !! mapping).
Proof.
  induction fields as [|key fields IH]; intros h Hl; [exact Hl|]. cbn [merge_loop].
  destruct (truthy (get inferred key) && negb (truthy (get (deref h mapping) key))).
  - apply IH. unfold setitem. rewrite lookup_insert_eq. now eexists.
  - now apply IH.
Qed.

Lemma get_dict_set (d : dict value) (k k' : str) (v : value) :
  get (dict_set d k v) k' = if str_eqb k' k then v else get d k'.
Proof. unfold get. rewrite dict_get_set. now destruct (str_eqb k' k). Qed.

Lemma merge_loop_get (inferred : dict value) (mapping : nat) (fields : list str) (k : str) :
  forall h : store,
    dict_get (deref (merge_loop inferred fields h mapping) mapping) k
    = if mem k fields && truthy (get inferred k) && negb (truthy (get (deref h mapping) k))
      then Some (get inferred k)
      else dict_get (deref h mapping) k.
Proof.
  induction fields as [|key fields IH]; intro h; [reflexivity|]. cbn [merge_loop mem].
  destruct (truthy (get inferred key) && negb (truthy (get (deref h mapping) key))) eqn:E.
  - rewrite IH, deref_setitem, get_dict_set, dict_get_set.
    destruct (str_eqb k key) eqn:Ek; [|reflexivity].
    apply str_eqb_eq in Ek as ->. apply andb_true_iff in E as [E1 E2].
    rewrite E1, E2. cbn [negb orb andb]. now rewrite andb_false_r.
  - rewrite IH. destruct (str_eqb k key) eqn:Ek; [|reflexivity].
    apply str_eqb_eq in Ek as ->. rewrite <- !andb_assoc, E. cbn [orb andb].
    now rewrite andb_false_r.
Qed.

Section HandlerFacts.
Variable genai_installed : bool.
Variable generate_content : str -> str -> str -> outcome (option str).
Variable json_loads : str -> outcome value.
Variable GEMINI_API_KEY : option str.

(** C8: the handler merges into a copy of the caller's selector map.
    With [suggested] the mapping the client returned (nothing when
    suggestions are off or there is no credential), an entry of the
    effective map is the suggested selector exactly for a field among
    title, price, availability whose suggestion is not empty and whose
    caller entry is empty or absent, and is the caller's entry in every
    other case; so a selector of the caller that is not empty is never
    overwritten.  The effective map is a new object and the caller's
    object, like every other object of the store, is left as it was. *)
Theorem suggestions_fill_only_blank_fields (h : store) (mapping_input : nat)
        (caller : dict value) (use_llm_inference : bool) (html : str) :
  h !! mapping_input = Some caller ->
  exists suggested h' mapping effective,
    (if use_llm_inference && present GEMINI_API_KEY
     then outcome_of (llm_infer_selectors genai_installed generate_content json_loads
                        html GEMINI_API_KEY) = Returned suggested
     else suggested = []) /\
    outcome_of (effective_mapping genai_installed generate_content json_loads GEMINI_API_KEY
                  h mapping_input use_llm_inference html) = Returned (h', mapping) /\
    mapping <> mapping_input /\
    h' !! mapping_input = Some caller /\
    (forall l, l <> mapping -> h' !! l = h !! l) /\
    h' !! mapping = Some effective /\
    (forall field,
        dict_get effective field
        = if mem field field_names && truthy (get suggested field)
             && negb (truthy (get caller field))
          then Some (get suggested field)
          else dict_get caller field) /\
    (forall field, truthy (get caller field) = true -> get effective field = get caller field).
Proof.
  intro Hcaller.
  set (l' := fresh (dom h)).
  assert (Hfresh : h !! l' = None) by (apply not_elem_of_dom, is_fresh).
  assert (Hne : l' <> mapping_input) by (intros ->; congruence).
  set (h1 := <[l' := caller]> h).
  assert (Hcopy : dict_copy h mapping_input = (h1, l'))
    by (unfold dict_copy, deref; now rewrite Hcaller).
  assert (Hderef : deref h1 l' = caller) by (unfold deref, h1; now rewrite lookup_insert_eq).
  assert (Hrest : forall suggested (h' : store) effective,
             (forall l, l <> l' -> h' !! l = h1 !! l) ->
             h' !! l' = Some effective ->
             (forall field,
                 dict_get effective field
                 = if mem field field_names && truthy (get suggested field)
                      && negb (truthy (get caller field))
                   then Some (get suggested field)
                   else dict_get caller field) ->
             l' <> mapping_input /\
             h' !! mapping_input = Some caller /\
             (forall l, l <> l' -> h' !! l = h !! l) /\
             h' !! l' = Some effective /\
             (forall field,
                 dict_get effective field
                 = if mem field field_names && truthy (get suggested field)
                      && negb (truthy (get caller field))
                   then Some (get suggested field)
                   else dict_get caller field) /\
             (forall field, truthy (get caller field) = true ->
                            get effective field = get caller field)).
  { intros suggested h' effective Hother Heff Hget.
    assert (Hkeep : forall l, l <> l' -> h' !! l = h !! l).
    { intros l Hl. rewrite (Hother l Hl). unfold h1. now rewrite lookup_insert_ne. }
    split; [exact Hne|]. split; [rewrite Hkeep; [exact Hcaller | congruence]|].
    split; [exact Hkeep|]. split; [exact Heff|]. split; [exact Hget|].
    intros field Ht. unfold get at 1. rewrite Hget, Ht. cbn [negb]. now rewrite andb_false_r. }
  assert (Hplain : forall field,
             dict_get caller field
             = if mem field field_names && truthy (get [] field)
                  && negb (truthy (get caller field))
               then Some (get [] field)
               else dict_get caller field)
    by (intro field; cbn; now rewrite andb_false_r).
  unfold effective_mapping. rewrite Hcopy.
  destruct (use_llm_inference && present GEMINI_API_KEY).
  - destruct (llm_infer_selectors_returns genai_installed generate_content json_loads
                html GEMINI_API_KEY) as (suggested & tr & Hllm).
    rewrite Hllm. cbn [bind emit ret app fst snd].
    destruct suggested as [|item suggested]; cbn [truthy bind emit ret app fst snd outcome_of].
    + exists [], h1, l', caller. split; [reflexivity|]. split; [reflexivity|].
      apply Hrest; [reflexivity | apply lookup_insert_eq | exact Hplain].
    + destruct (merge_loop_allocated (item :: suggested) l' field_names h1) as [effective Heff];
        [unfold h1; rewrite lookup_insert_eq; now eexists|].
      exists (item :: suggested), (merge_loop (item :: suggested) field_names h1 l'), l', effective.
      split; [reflexivity|]. split; [reflexivity|].
      apply Hrest; [intros l Hl; now apply merge_loop_other | exact Heff |].
      intro field.
      pose proof (merge_loop_get (item :: suggested) l' field_names field h1) as Hg.
      unfold deref at 1 in Hg. rewrite Heff in Hg.
      now rewrite Hg, Hderef.
  - exists [], h1, l', caller. split; [reflexivity|]. split; [reflexivity|].
    apply Hrest; [reflexivity | apply lookup_insert_eq | exact Hplain].
Qed.
End HandlerFacts.

(** ** The properties at work on the example pages *)

Lemma infer_availability_first_listed_phrase_witness :
  @lower ascii_unicode (soup_get_text (lit " ") true preorder_page) = preorder_text /\
  contains (lit "pre-order") preorder_text = true /\
  find (lit "pre-order") preorder_text < find (lit "in stock") preorder_text /\
  @infer_availability ascii_unicode preorder_page
  = Some (lit "on now; the standard model is in stock today") /\
  @infer_availability ascii_unicode price_page = None.
Proof.
  destruct (@infer_availability_first_listed_phrase ascii_unicode preorder_page)
    as (_ & _ & Hhit & Hstock).
  destruct (@infer_availability_first_listed_phrase ascii_unicode price_page)
    as (_ & Hnone & _).
  split; [reflexivity|]. split; [reflexivity|]. split; [reflexivity|]. split.
  - destruct (Hhit [] (lit "in stock")
                [lit "out of stock"; lit "available"; lit "pre-order"; lit "preorder"]
                eq_refl (fun q (F : In q []) => match F with end) eq_refl) as [_ Hres].
    rewrite (Hstock eq_refl) in Hres. rewrite (Hstock eq_refl). reflexivity.
  - apply Hnone. intros q Hq.
    repeat (destruct Hq as [<-|Hq]; [reflexivity|]). destruct Hq.
Defined.

(** The price example of the specification: the page with the one span of
    class price holding ₹1049, no selector supplied. *)
Lemma extract_price_example :
  exists record,
    outcome_of (@extract_from_html ascii_unicode example_parser simple_select_one
                  (lit "T") price_html []) = Returned record /\
    dict_get record (lit "price")
    = Some (VDict [ (lit "raw", VStr (rupee :: lit "1049"));
                    (lit "amount", VFloat (Finite false 1049 0));
                    (lit "currency", VStr [rupee]) ]).
Proof. eexists. split; reflexivity. Qed.

(** C2: the code departs from the specification at the page whose span of
    class price holds the text ${5.  The currency pattern of the
    specification, a symbol,
    blanks if any, digits with thousands separators and a decimal fraction
    if any, does not match that text, so no strategy should answer; but the
    set written [\d{1,3},] in [CURRENCY_RE] holds the two braces, and
    [infer_price] returns ${5, which the record shows as its raw price with
    the currency $ and no amount.  On the texts ₹1049 and $ 1,234.50 the
    pattern of the specification and that of the code agree. *)
Theorem infer_price_takes_braces_for_digits :
  @infer_price ascii_unicode braces_page = Some (lit "${5") /\
  @fullmatch (@spec_currency_pattern ascii_unicode) (lit "${5") = false /\
  @fullmatch (@spec_currency_pattern ascii_unicode) (rupee :: lit "1049") = true /\
  @fullmatch (@spec_currency_pattern ascii_unicode) (lit "$ 1,234.50") = true /\
  option_map group0 (search (@CURRENCY_RE ascii_unicode) (lit "$ 1,234.50"))
  = Some (lit "$ 1,234.50") /\
  exists record,
    outcome_of (@extract_from_html ascii_unicode example_parser simple_select_one
                  (lit "T") braces_html []) = Returned record /\
    dict_get record (lit "price")
    = Some (VDict [ (lit "raw", VStr (lit "${5")); (lit "amount", VNone);
                    (lit "currency", VStr (lit "$")) ]).
Proof.
  repeat (split; [reflexivity|]). eexists. split; reflexivity.
Qed.

(** C4 as the specification states it fails on the page with an empty h1 and the
    title Shop: the selector h1 is supplied for the title and matches the
    h1, yet the title heuristic runs and the record shows its answer. *)
Lemma heuristic_runs_after_empty_match :
  simple_select_one (example_parser empty_heading_html) (VStr (lit "h1"))
  = Returned (Some (el "h1" [])) /\
  In (Heuristic (lit "title"))
     (trace_of (@extract_from_html ascii_unicode example_parser simple_select_one (lit "T")
                  empty_heading_html [(lit "title", VStr (lit "h1"))])) /\
  exists record,
    outcome_of (@extract_from_html ascii_unicode example_parser simple_select_one (lit "T")
                  empty_heading_html [(lit "title", VStr (lit "h1"))]) = Returned record /\
    dict_get record (lit "title") = Some (VStr (lit "Shop")).
Proof.
  split; [reflexivity|]. split; [right; left; reflexivity|]. eexists. split; reflexivity.
Qed.

Lemma heuristic_runs_only_for_missing_field_witness :
  exists record trace,
    @extract_from_html ascii_unicode example_parser simple_select_one (lit "T")
      two_blanks_html [(lit "title", VStr (lit "p"))] = (Returned record, trace) /\
    ~ In (Heuristic (lit "title")) trace /\
    record_field record (lit "title") = VStr (lit "a  b").
Proof.
  destruct (@heuristic_runs_only_for_missing_field ascii_unicode example_parser
              simple_select_one (lit "T") two_blanks_html [(lit "title", VStr (lit "p"))]
              (lit "title") (or_introl eq_refl))
    as (selected & record & trace & _ & Hrun & _ & _ & Hmatch).
  exists record, trace. split; [exact Hrun|].
  exact (Hmatch (VStr (lit "p")) (el "p" [NavigableString (lit "a  b")])
                eq_refl eq_refl eq_refl eq_refl eq_refl).
Defined.

(** C5 as the specification states it fails on the page whose paragraph holds a,
    two blanks, b: the selector p matches the paragraph and the field gets
    the text with both blanks, not the text with its whitespace collapsed. *)
Lemma apply_selectors_keeps_inner_whitespace :
  simple_select_one two_blanks_page (VStr (lit "p"))
  = Returned (Some (el "p" [NavigableString (lit "a  b")])) /\
  outcome_of (apply_selectors simple_select_one two_blanks_page [(lit "title", VStr (lit "p"))])
  = Returned [(lit "title", Some (lit "a  b"))] /\
  collapse_whitespace (text (el "p" [NavigableString (lit "a  b")])) = lit "a b" /\
  lit "a  b" <> collapse_whitespace (text (el "p" [NavigableString (lit "a  b")])).
Proof.
  repeat (split; [reflexivity|]). discriminate.
Qed.

Lemma apply_selectors_never_raises_witness :
  exists results,
    apply_selectors simple_select_one two_blanks_page
      [ (lit "title", VStr (lit "p")); (lit "price", VStr []);
        (lit "availability", VStr (lit "[[")) ]
    = (Returned results, [SelectOne (VStr (lit "p")); SelectOne (VStr (lit "[["))]) /\
    dict_get results (lit "title") = Some (Some (lit "a  b")) /\
    dict_get results (lit "price") = Some None /\
    dict_get results (lit "availability") = Some None /\
    dict_get results (lit "rating") = None.
Proof.
  destruct (apply_selectors_never_raises simple_select_one two_blanks_page
              [ (lit "title", VStr (lit "p")); (lit "price", VStr []);
                (lit "availability", VStr (lit "[[")) ])
    as (results & Hrun & Hget).
  exists results. split; [exact Hrun|].
  repeat split; rewrite (Hget eq_refl); reflexivity.
Defined.

(** C7 as the specification states it fails where the backend package is not
    installed: the credential is there and the second model would be
    accepted, yet the client returns the empty mapping and calls no model. *)
Lemma llm_infer_selectors_without_package :
  present (Some (lit "k")) = true /\
  outcome_of (attempt flaky_backend example_json (lit "k") (prompt_of price_html)
                (lit "gemini-2.0-flash")) = Returned suggested_mapping /\
  outcome_of (llm_infer_selectors false flaky_backend example_json price_html (Some (lit "k")))
  = Returned [] /\
  backend_calls (trace_of (llm_infer_selectors false flaky_backend example_json price_html
                             (Some (lit "k")))) = [].
Proof. repeat split. Qed.

Lemma llm_infer_selectors_fallback_witness :
  outcome_of (llm_infer_selectors true flaky_backend example_json price_html (Some (lit "k")))
  = Returned suggested_mapping /\
  backend_calls (trace_of (llm_infer_selectors true flaky_backend example_json price_html
                             (Some (lit "k"))))
  = [lit "gemini-2.5-flash"; lit "gemini-2.0-flash"] /\
  exists errors,
    outcome_of (models_loop flaky_backend example_json (lit "k") (prompt_of price_html)
                  models_to_try []) = Returned (Some suggested_mapping, errors) /\
    dict_get errors (lit "gemini-2.5-flash") = Some (lit "503 UNAVAILABLE").
Proof.
  destruct (llm_infer_selectors_fallback true flaky_backend example_json price_html
              (Some (lit "k"))) as (result & Hrun & _ & Hon).
  destruct (Hon (lit "k") eq_refl eq_refl eq_refl) as (_ & Hfirst & _).
  destruct (Hfirst [lit "gemini-2.5-flash"] (lit "gemini-2.0-flash")
                   [lit "gemini-1.5-flash"; lit "gemini-1.5-pro"] suggested_mapping eq_refl)
    as (Hres & Hcalls & errors & Hloop & Hrec).
  - intros m' [<-|[]].
    now exists {| exn_class := lit "ServerError"; exn_message := lit "503 UNAVAILABLE" |}.
  - reflexivity.
  - split; [rewrite Hrun; now f_equal|]. split; [exact Hcalls|].
    exists errors. split; [exact Hloop|].
    exact (Hrec (lit "gemini-2.5-flash")
                {| exn_class := lit "ServerError"; exn_message := lit "503 UNAVAILABLE" |}
                (or_introl eq_refl) eq_refl).
Defined.

Lemma suggestions_fill_only_blank_fields_witness :
  exists (h' : store) mapping effective,
    outcome_of (effective_mapping true flaky_backend example_json (Some (lit "k"))
                  (<[0%nat := caller_mapping]> ∅) 0%nat true price_html)
    = Returned (h', mapping) /\
    mapping <> 0%nat /\
    h' !! 0%nat = Some caller_mapping /\
    h' !! mapping = Some effective /\
    dict_get effective (lit "title") = Some (VStr (lit "h1.mine")) /\
    dict_get effective (lit "price") = Some (VStr (lit ".price")) /\
    dict_get effective (lit "availability") = Some (VStr []).
Proof.
  destruct (suggestions_fill_only_blank_fields true flaky_backend example_json
              (Some (lit "k")) (<[0%nat := caller_mapping]> ∅) 0%nat caller_mapping true
              price_html (lookup_insert_eq _ _ _))
    as (suggested & h' & mapping & effective & Hs & Hrun & Hne & Hcaller & _ & Heff & Hget & _).
  assert (Hsuggested : suggested = suggested_mapping) by (now injection Hs as <-).
  subst suggested.
  exists h', mapping, effective.
  repeat (split; [assumption|]).
  repeat split; rewrite Hget; reflexivity.
Defined.

(** * Further properties of the code *)

(** ** The matcher against the texts of a pattern *)

Lemma star_sound {A : Type} (p : char -> bool) (x : str) :
  forall pos g (k : nat -> str -> groups -> option A) a,
    star p pos x g k = Some a ->
    exists x1 x2, x = x1 ++ x2 /\ List.forallb p x1 = true /\
                  k (pos + length x1)%nat x2 g = Some a.
Proof.
  induction x as [|c x IH]; intros pos g k a; simpl.
  - intro H. exists [], []. rewrite Nat.add_0_r. now repeat split.
  - destruct (p c) eqn:Ep.
    + destruct (star p (S pos) x g k) eqn:E.
      * intros [= <-]. destruct (IH _ _ _ _ E) as (x1 & x2 & -> & Hall & Hk).
        exists (c :: x1), x2. simpl. rewrite Ep, Hall.
        replace (pos + S (length x1))%nat with (S pos + length x1)%nat by lia.
        now repeat split.
      * intro H. exists [], (c :: x). rewrite Nat.add_0_r. now repeat split.
    + intro H. exists [], (c :: x). rewrite Nat.add_0_r. now repeat split.
Qed.

Lemma run_sound {A : Type} (r : regex) :
  forall pos x g (k : nat -> str -> groups -> option A) a,
    run r pos x g k = Some a ->
    exists x1 x2 gs,
      x = x1 ++ x2 /\ lang r x1 /\
      List.Forall (fun e => In (fst e) (group_ids r)) gs /\
      k (pos + length x1)%nat x2 (gs ++ g) = Some a.
Proof.
  induction r as [p | r1 IH1 r2 IH2 | r1 IH1 r2 IH2 | r1 IH1 | p | p | i r1 IH1];
    intros pos x g k a; simpl.
  - destruct x as [|c x]; [discriminate|]. destruct (p c) eqn:Ep; [|discriminate].
    intro H. exists [c], x, []. rewrite Nat.add_1_r.
    repeat split; [now constructor | constructor | exact H].
  - intro H. destruct (IH1 _ _ _ _ _ H) as (x1 & xr & gs1 & -> & L1 & F1 & H1).
    destruct (IH2 _ _ _ _ _ H1) as (x2 & x3 & gs2 & -> & L2 & F2 & H2).
    exists (x1 ++ x2), x3, (gs2 ++ gs1).
    rewrite <- !app_assoc, length_app, Nat.add_assoc.
    repeat split; [now constructor | | exact H2].
    apply Forall_app; split; eapply Forall_impl; eauto; cbv beta; intros e He;
      apply in_or_app; tauto.
  - destruct (run r1 pos x g k) eqn:E.
    + intros [= <-]. destruct (IH1 _ _ _ _ _ E) as (x1 & x2 & gs & -> & L & F & H).
      exists x1, x2, gs. repeat split; [now apply lang_alt_l | | exact H].
      eapply Forall_impl; eauto; cbv beta; intros e He; apply in_or_app; tauto.
    + intro H. destruct (IH2 _ _ _ _ _ H) as (x1 & x2 & gs & -> & L & F & H').
      exists x1, x2, gs. repeat split; [now apply lang_alt_r | | exact H'].
      eapply Forall_impl; eauto; cbv beta; intros e He; apply in_or_app; tauto.
  - destruct (run r1 pos x g k) eqn:E.
    + intros [= <-]. destruct (IH1 _ _ _ _ _ E) as (x1 & x2 & gs & -> & L & F & H).
      exists x1, x2, gs. repeat split; [now apply lang_opt_some | exact F | exact H].
    + intro H. exists [], x, []. rewrite Nat.add_0_r.
      repeat split; [apply lang_opt_none | constructor | exact H].
  - intro H. destruct (star_sound _ _ _ _ _ _ H) as (x1 & x2 & -> & Hall & Hk).
    exists x1, x2, []. repeat split; [now constructor | constructor | exact Hk].
  - destruct x as [|c x]; [discriminate|]. destruct (p c) eqn:Ep; [|discriminate].
    intro H. destruct (star_sound _ _ _ _ _ _ H) as (x1 & x2 & -> & Hall & Hk).
    exists (c :: x1), x2, []. simpl.
    replace (pos + S (length x1))%nat with (S pos + length x1)%nat by lia.
    repeat split; [now constructor | constructor | exact Hk].
  - intro H. destruct (IH1 _ _ _ _ _ H) as (x1 & x2 & gs & -> & L & F & H').
    exists x1, x2, ((i, (pos, (pos + length x1)%nat)) :: gs).
    repeat split; [now constructor | | exact H'].
    constructor; [now left|]. eapply Forall_impl; eauto; cbv beta; intros e He; now right.
Qed.

Lemma slice_middle (pre x1 x2 : str) :
  slice (Z.of_nat (length pre)) (Z.of_nat (length pre + length x1)) (pre ++ x1 ++ x2) = x1.
Proof.
  unfold slice. rewrite Nat2Z.id.
  replace (Z.to_nat (Z.of_nat (length pre + length x1) - Z.of_nat (length pre)))
    with (length x1) by lia.
  now rewrite drop_app_length, take_app_length.
Qed.

Lemma match_at_sound (r : regex) (text_ pre x : str) (m : re_match) :
  text_ = pre ++ x -> match_at r text_ (length pre) x = Some m ->
  exists x1 x2,
    x = x1 ++ x2 /\ lang r x1 /\ group0 m = x1 /\
    m_text m = text_ /\ m_start m = length pre /\
    List.Forall (fun e => In (fst e) (group_ids r)) (m_groups m).
Proof.
  intros Htext E. unfold match_at in E.
  destruct (run_sound _ _ _ _ _ _ E) as (x1 & x2 & gs & Hx & L & F & [= <-]).
  exists x1, x2. unfold group0. cbn [m_start m_end m_text m_groups].
  split; [exact Hx|]. split; [exact L|]. split; [|split; [reflexivity|split; [reflexivity|]]].
  - rewrite Htext, Hx. apply slice_middle.
  - now rewrite app_nil_r.
Qed.

(** A match reported by [search] is a piece of the text that the pattern
    matches, and its groups are groups of the pattern. *)
Lemma search_from_sound (r : regex) (text_ : str) (x : str) :
  forall pre m,
    text_ = pre ++ x -> search_from r text_ (length pre) x = Some m ->
    exists pre' x1 x2,
      text_ = pre' ++ x1 ++ x2 /\ lang r x1 /\ group0 m = x1 /\
      m_text m = text_ /\ m_start m = length pre' /\
      List.Forall (fun e => In (fst e) (group_ids r)) (m_groups m).
Proof.
  induction x as [|c x IH]; intros pre m Htext; simpl.
  - destruct (match_at r text_ (length pre) []) eqn:E; [|discriminate].
    intros [= <-].
    destruct (match_at_sound _ _ _ _ _ Htext E) as (x1 & x2 & Hx & L & G & T & S & F).
    exists pre, x1, x2. rewrite <- Hx. now repeat split.
  - destruct (match_at r text_ (length pre) (c :: x)) eqn:E.
    + intros [= <-].
      destruct (match_at_sound _ _ _ _ _ Htext E) as (x1 & x2 & Hx & L & G & T & S & F).
      exists pre, x1, x2. rewrite <- Hx. now repeat split.
    + intro H. apply (IH (pre ++ [c]) m).
      * now rewrite <- app_assoc.
      * now rewrite length_app, Nat.add_1_r.
Qed.

Lemma search_sound (r : regex) (text_ : str) (m : re_match) :
  search r text_ = Some m ->
  exists pre x1 x2,
    text_ = pre ++ x1 ++ x2 /\ lang r x1 /\ group0 m = x1 /\
    m_text m = text_ /\ m_start m = length pre /\
    List.Forall (fun e => In (fst e) (group_ids r)) (m_groups m).
Proof. intro H. exact (search_from_sound r text_ text_ [] m eq_refl H). Qed.

Lemma star_complete {A : Type} (p : char -> bool) (x1 : str) :
  List.forallb p x1 = true ->
  forall pos x2 g (k : nat -> str -> groups -> option A),
    k (pos + length x1)%nat x2 g <> None -> star p pos (x1 ++ x2) g k <> None.
Proof.
  induction x1 as [|c x1 IH]; intros Hall pos x2 g k Hk.
  - simpl in *. rewrite Nat.add_0_r in Hk.
    destruct x2 as [|c x2]; simpl; [exact Hk|].
    destruct (p c); [|exact Hk]. now destruct (star p (S pos) x2 g k).
  - simpl in *. apply andb_true_iff in Hall as [Hc Hall]. rewrite Hc.
    specialize (IH Hall (S pos) x2 g k).
    replace (pos + S (length x1))%nat with (S pos + length x1)%nat in Hk by lia.
    specialize (IH Hk). now destruct (star p (S pos) (x1 ++ x2) g k).
Qed.

(** Where the pattern matches a text, the matcher finds a match. *)
Lemma run_complete {A : Type} (r : regex) (x1 : str) :
  lang r x1 ->
  forall pos x2 g (k : nat -> str -> groups -> option A),
    (forall g', k (pos + length x1)%nat x2 g' <> None) ->
    run r pos (x1 ++ x2) g k <> None.
Proof.
  induction 1 as [p c Hc | a b x y La IHa Lb IHb | a b x La IHa | a b x Lb IHb
                  | a | a x La IHa | p x Hall | p c x Hc Hall | i a x La IHa];
    intros pos x2 g k Hk; simpl.
  - rewrite Hc. rewrite Nat.add_1_r in Hk. apply Hk.
  - rewrite <- app_assoc. apply IHa. intro g'. apply IHb. intro g''.
    rewrite length_app, Nat.add_assoc in Hk. apply Hk.
  - specialize (IHa pos x2 g k Hk). now destruct (run a pos (x ++ x2) g k).
  - specialize (IHb pos x2 g k Hk). now destruct (run a pos (x ++ x2) g k).
  - rewrite Nat.add_0_r in Hk. specialize (Hk g). now destruct (run a pos x2 g k).
  - specialize (IHa pos x2 g k Hk). now destruct (run a pos (x ++ x2) g k).
  - apply star_complete; [exact Hall | apply Hk].
  - rewrite Hc. apply star_complete; [exact Hall|].
    simpl in Hk. replace (S pos + length x)%nat with (pos + S (length x))%nat by lia. apply Hk.
  - apply IHa. intro g'. apply Hk.
Qed.

Lemma match_at_complete (r : regex) (text_ : str) (pos : nat) (x1 x2 : str) :
  lang r x1 -> match_at r text_ pos (x1 ++ x2) <> None.
Proof. intro L. unfold match_at. apply run_complete; [exact L | discriminate]. Qed.

Lemma search_from_complete (r : regex) (text_ : str) (x1 post : str) :
  lang r x1 -> forall pre pos, search_from r text_ pos (pre ++ x1 ++ post) <> None.
Proof.
  intros L pre. induction pre as [|c pre IH]; intro pos.
  - pose proof (match_at_complete r text_ pos x1 post L) as H. simpl.
    destruct (x1 ++ post); simpl; now destruct (match_at r text_ pos _).
  - simpl. destruct (match_at r text_ pos (c :: pre ++ x1 ++ post)); [discriminate|]. apply IH.
Qed.

Lemma search_complete (r : regex) (pre x1 post : str) :
  lang r x1 -> search r (pre ++ x1 ++ post) <> None.
Proof. intro L. now apply search_from_complete. Qed.

Lemma search_from_here (r : regex) (text_ : str) (pos : nat) (x : str) (m : re_match) :
  match_at r text_ pos x = Some m -> search_from r text_ pos x = Some m.
Proof. intro H. destruct x; simpl; now rewrite H. Qed.

Lemma group_span_skip (i : nat) (gs g : groups) :
  List.Forall (fun e => fst e <> i) gs -> group_span i (gs ++ g) = group_span i g.
Proof.
  induction 1 as [|[j sp] gs Hj _ IH]; [reflexivity|]. simpl in *.
  destruct (Nat.eqb_spec i j); [congruence | exact IH].
Qed.

Lemma for_return_some {A B : Type} (items : list A) (body : A -> option B) (rest : option B)
      (b : B) :
  for_return items body rest = Some b ->
  (exists a, In a items /\ body a = Some b) \/ rest = Some b.
Proof.
  induction items as [|a items IH]; simpl; [now right|].
  destruct (body a) eqn:E.
  - intros [= <-]. left. exists a. now split; [left|].
  - intro H. destruct (IH H) as [(a' & Hin & Hb)|Hr]; [|now right].
    left. exists a'. now split; [right|].
Qed.

Lemma lang_atom_inv (p : char -> bool) (z : str) :
  lang (Atom p) z -> exists c, z = [c] /\ p c = true.
Proof. inversion 1; subst. now eexists. Qed.

Lemma lang_seq_inv (a b : regex) (z : str) :
  lang (Seq a b) z -> exists x y, z = x ++ y /\ lang a x /\ lang b y.
Proof. inversion 1; subst. now do 2 eexists. Qed.

Lemma lang_alt_inv (a b : regex) (z : str) : lang (Alt a b) z -> lang a z \/ lang b z.
Proof. inversion 1; subst; tauto. Qed.

Lemma lang_opt_inv (a : regex) (z : str) : lang (Opt a) z -> z = [] \/ lang a z.
Proof. inversion 1; subst; tauto. Qed.

Lemma lang_star_inv (p : char -> bool) (z : str) :
  lang (Star p) z -> List.forallb p z = true.
Proof. now inversion 1. Qed.

Lemma lang_plus_inv (p : char -> bool) (z : str) :
  lang (Plus p) z -> exists c x, z = c :: x /\ p c = true /\ List.forallb p x = true.
Proof. inversion 1; subst. now do 2 eexists. Qed.

Lemma lang_group_inv (i : nat) (a : regex) (z : str) : lang (Group i a) z -> lang a z.
Proof. now inversion 1. Qed.

(** ** The shape of a price *)

Section PriceShape.
Context {U : Unicode}.

Lemma is_digit_inner (c : char) : is_digit c = true -> inner_char c = true.
Proof. intro H. unfold inner_char, digit_brace_comma. now rewrite H, orb_true_r. Qed.

Lemma inner_char_dot : inner_char dot = true.
Proof. unfold inner_char, is_char, char_eqb. now rewrite N.eqb_refl, orb_true_r. Qed.

Lemma forallb_digit_inner (x : str) :
  List.forallb is_digit x = true -> List.forallb inner_char x = true.
Proof.
  intro H. apply forallb_forall. intros c Hc. apply is_digit_inner.
  rewrite forallb_forall in H. now apply H.
Qed.

Lemma forallb_class_inner (x : str) :
  List.forallb digit_brace_comma x = true -> List.forallb inner_char x = true.
Proof.
  intro H. apply forallb_forall. intros c Hc. rewrite forallb_forall in H.
  unfold inner_char. now rewrite (H c Hc), orb_true_r.
Qed.

(** A run of digits with a digit at its end, as a body and a last digit. *)
Lemma digits_last (d : char) (ds : str) :
  is_digit d = true -> List.forallb is_digit ds = true ->
  exists body digit, d :: ds = body ++ [digit] /\ is_digit digit = true /\
                     List.forallb is_digit body = true.
Proof.
  intros Hd Hds. destruct (exists_last (l := d :: ds)) as (body & digit & Heq); [discriminate|].
  exists body, digit. split; [exact Heq|].
  assert (Hall : List.forallb is_digit (body ++ [digit]) = true)
    by (rewrite <- Heq; simpl; now rewrite Hd, Hds).
  rewrite forallb_app in Hall. apply andb_true_iff in Hall as [Hb Hl]. simpl in Hl.
  rewrite andb_true_r in Hl. now split.
Qed.

(** The texts of [[\d{1,3},]*\d+(\.\d+)?]. *)
Lemma number_body_lang (i : nat) (y : str) :
  lang (number_body i) y ->
  exists lead d ds fraction,
    y = lead ++ (d :: ds) ++ fraction /\
    List.forallb digit_brace_comma lead = true /\
    is_digit d = true /\ List.forallb is_digit ds = true /\
    (fraction = [] \/
     exists e es, fraction = dot :: e :: es /\ is_digit e = true /\
                  List.forallb is_digit es = true).
Proof.
  unfold number_body. intro L.
  apply lang_seq_inv in L as (lead & y1 & -> & Hlead & L).
  apply lang_seq_inv in L as (y2 & fraction & -> & Hplus & Hopt).
  apply lang_star_inv in Hlead.
  apply lang_plus_inv in Hplus as (d & ds & -> & Hd & Hds).
  exists lead, d, ds, fraction. repeat split; try assumption.
  apply lang_opt_inv in Hopt as [-> | Hfr]; [now left | right].
  apply lang_group_inv, lang_seq_inv in Hfr as (y3 & y4 & -> & Hdot & Hplus).
  apply lang_atom_inv in Hdot as (c & -> & Hc). apply N.eqb_eq in Hc as <-.
  apply lang_plus_inv in Hplus as (e & es & -> & He & Hes).
  exists e, es. now repeat split.
Qed.

Lemma number_body_ends_in_digit (i : nat) (y : str) :
  lang (number_body i) y ->
  exists body digit, y = body ++ [digit] /\ is_digit digit = true /\
                     List.forallb inner_char body = true.
Proof.
  intro L. destruct (number_body_lang i y L) as (lead & d & ds & fr & -> & Hl & Hd & Hds & Hfr).
  destruct Hfr as [-> | (e & es & -> & He & Hes)].
  - destruct (digits_last d ds Hd Hds) as (body & digit & Heq & Hdig & Hb).
    exists (lead ++ body), digit. rewrite app_nil_r, Heq, app_assoc.
    repeat split; [exact Hdig|]. rewrite forallb_app.
    now rewrite (forallb_class_inner _ Hl), (forallb_digit_inner _ Hb).
  - destruct (digits_last e es He Hes) as (body & digit & Heq & Hdig & Hb).
    exists (lead ++ (d :: ds) ++ dot :: body), digit.
    split; [|split; [exact Hdig|]].
    + change (dot :: e :: es) with ([dot] ++ e :: es). rewrite Heq.
      now rewrite <- !app_assoc.
    + rewrite !forallb_app. cbn [List.forallb].
      rewrite (forallb_class_inner _ Hl), (is_digit_inner _ Hd), (forallb_digit_inner _ Hds),
        (forallb_digit_inner _ Hb).
      rewrite inner_char_dot. reflexivity.
Qed.

(** The texts of [CURRENCY_RE]: a symbol, then the inner characters, then
    a digit. *)
Lemma currency_lang (p : str) :
  lang CURRENCY_RE p ->
  exists c body digit,
    p = c :: body ++ [digit] /\ is_symbol c = true /\ is_digit digit = true /\
    List.forallb inner_char body = true.
Proof.
  unfold CURRENCY_RE. intro L.
  apply lang_seq_inv in L as (x & y & -> & Hsym & L).
  apply lang_seq_inv in L as (w & y0 & -> & Hws & Hnum).
  destruct (number_body_ends_in_digit 2 y0 Hnum) as (body & digit & -> & Hdig & Hb).
  assert (Hc : exists c, x = [c] /\ is_symbol c = true).
  { unfold is_symbol. apply lang_group_inv in Hsym.
    apply lang_alt_inv in Hsym as [H|H]; [|apply lang_alt_inv in H as [H|H];
      [|apply lang_alt_inv in H as [H|H]]];
      apply lang_atom_inv in H as (c & -> & Hc); exists c; (split; [reflexivity|]);
      rewrite Hc; now rewrite ?orb_true_r. }
  destruct Hc as (c & -> & Hc).
  apply lang_opt_inv in Hws as [-> | Hws].
  - exists c, body, digit. now repeat split.
  - apply lang_atom_inv in Hws as (s & -> & Hs).
    exists c, (s :: body), digit. repeat split; try assumption.
    cbn [List.forallb]. unfold inner_char at 1. now rewrite Hs, Hb.
Qed.

Lemma infer_price_is_match (d : soup) (p : str) :
  infer_price d = Some p ->
  exists text_ m, search CURRENCY_RE text_ = Some m /\ group0 m = p.
Proof.
  unfold infer_price. intro H.
  assert (Htag : forall tag, currency_in_tag tag = Some p ->
                             exists text_ m, search CURRENCY_RE text_ = Some m /\ group0 m = p).
  { intro tag. unfold currency_in_tag.
    destruct (search CURRENCY_RE (get_text (lit " ") true tag)) as [m|] eqn:E; [|discriminate].
    intros [= <-]. now exists (get_text (lit " ") true tag), m. }
  apply for_return_some in H as [(tag & _ & Hb)|H].
  - destruct (has_price_keyword _); [now apply (Htag tag) | discriminate].
  - apply for_return_some in H as [(tag & _ & Hb)|H].
    + destruct (has_price_keyword _); [now apply (Htag tag) | discriminate].
    + destruct (search CURRENCY_RE (soup_get_text (lit " ") true d)) as [m|] eqn:E;
        [|discriminate].
      injection H as <-. now exists (soup_get_text (lit " ") true d), m.
Qed.

Lemma infer_price_lang (d : soup) (p : str) : infer_price d = Some p -> lang CURRENCY_RE p.
Proof.
  intro H. destruct (infer_price_is_match d p H) as (text_ & m & Hs & <-).
  destruct (search_sound _ _ _ Hs) as (pre & x1 & x2 & _ & L & -> & _). exact L.
Qed.

(** X1: whatever [infer_price] returns starts with one of the four
    currency symbols and ends with a decimal digit, and between the two
    stand only white space, digits, braces, commas and dots; so it has at
    least two characters. *)
Theorem infer_price_shape (d : soup) (p : str) :
  infer_price d = Some p ->
  exists c body digit,
    p = c :: body ++ [digit] /\ is_symbol c = true /\ is_digit digit = true /\
    List.forallb inner_char body = true.
Proof. intro H. apply currency_lang. exact (infer_price_lang d p H). Qed.

Lemma run_seq_group {A : Type} (i : nat) (a b : regex) (pos : nat) (x : str) (g : groups)
      (k : nat -> str -> groups -> option A) :
  run (Seq (Group i a) b) pos x g k
  = run a pos x g (fun pos' x' g' => run b pos' x' ((i, (pos, pos')) :: g') k).
Proof. reflexivity. Qed.

(** On a text of the currency pattern the search matches at its start and
    the first group is the symbol. *)
Lemma currency_group (p : str) :
  lang CURRENCY_RE p ->
  exists c rest, p = c :: rest /\ is_symbol c = true /\ first_currency p = Some [c].
Proof.
  intro L.
  destruct (currency_lang p L) as (c & body & digit & Hp & Hc & _).
  exists c, (body ++ [digit]). split; [exact Hp|]. split; [exact Hc|].
  pose proof (match_at_complete CURRENCY_RE p 0 p [] L) as Hm. rewrite app_nil_r in Hm.
  destruct (match_at CURRENCY_RE p 0 p) as [m|] eqn:E; [clear Hm | contradiction].
  unfold first_currency, search. rewrite (search_from_here _ _ _ _ _ E).
  unfold match_at, CURRENCY_RE in E. rewrite run_seq_group in E.
  apply run_sound in E as (x1 & x2 & gs1 & Hx & L1 & F1 & E).
  assert (gs1 = []) as -> by (destruct gs1 as [|e gs1]; [reflexivity | now inversion F1]).
  apply run_sound in E as (x3 & x4 & gs2 & _ & _ & F2 & [= <-]).
  assert (Hx1 : x1 = [c]).
  { repeat (apply lang_alt_inv in L1 as [L1|L1]);
      apply lang_atom_inv in L1 as (c' & -> & _); rewrite Hp in Hx; now injection Hx as ->. }
  subst x1. unfold group. cbn [m_groups m_text app]. rewrite group_span_skip.
  - cbn [group_span Nat.eqb length Nat.add]. rewrite Hp. reflexivity.
  - eapply Forall_impl; [exact F2|]. cbv beta. cbn. intros e [<-|[]]. discriminate.
Qed.
End PriceShape.

(** ** Amounts *)

Lemma dict_get_none_last {V : Type} (d : dict V) (k : str) :
  dict_get d k = None -> last_binding d k = None.
Proof.
  induction d as [|[k' v] d IH]; simpl; [reflexivity|].
  destruct (str_eqb k k'); [discriminate|]. intro H. now rewrite (IH H).
Qed.

Lemma find_from_single_absent (a : char) (w : str) :
  (forall c, In c w -> c <> a) -> forall k, find_from [a] w k = -1.
Proof.
  induction w as [|c w IH]; intros Hw k; [reflexivity|]. simpl.
  destruct (char_eqb a c) eqn:E.
  - apply N.eqb_eq in E. exfalso. apply (Hw c); [now left | congruence].
  - simpl. apply IH. intros; apply Hw; now right.
Qed.

Lemma find_from_single_at (a : char) (w z : str) :
  (forall c, In c w -> c <> a) ->
  forall k, find_from [a] (w ++ a :: z) k = k + Z.of_nat (length w).
Proof.
  induction w as [|c w IH]; intros Hw k.
  - simpl. unfold char_eqb. rewrite N.eqb_refl. simpl. lia.
  - simpl. destruct (char_eqb a c) eqn:E.
    + apply N.eqb_eq in E. exfalso. apply (Hw c); [now left | congruence].
    + simpl. rewrite IH by (intros; apply Hw; now right). lia.
Qed.

Lemma existsb_app_false {A : Type} (f : A -> bool) (l1 l2 : list A) :
  List.existsb f (l1 ++ l2) = false -> List.existsb f l1 = false /\ List.existsb f l2 = false.
Proof. rewrite existsb_app. apply orb_false_iff. Qed.

Lemma remove_char_cons (a c : char) (w : str) :
  remove_char a (c :: w) = if char_eqb a c then remove_char a w else c :: remove_char a w.
Proof. unfold remove_char. cbn [List.filter]. now destruct (char_eqb a c). Qed.

Lemma remove_char_app (a : char) (x y : str) :
  remove_char a (x ++ y) = remove_char a x ++ remove_char a y.
Proof. apply List.filter_app. Qed.

Section Amounts.
Context {U : Unicode}.
Hypothesis digits_ok : digits_as_in_ascii U.

Lemma comma_not_digit : is_digit comma = false.
Proof. unfold is_digit. destruct digits_ok as [H _]. now rewrite H. Qed.

Lemma dot_not_digit : is_digit dot = false.
Proof. unfold is_digit. destruct digits_ok as [H _]. now rewrite H. Qed.

Lemma symbol_not_digit (c : char) : is_symbol c = true -> is_digit c = false.
Proof.
  unfold is_symbol, is_char, char_eqb, is_digit.
  destruct digits_ok as (Ha & He & Hp & Hr).
  intro H. repeat (apply orb_true_iff in H as [H|H]); apply N.eqb_eq in H as <-;
    [rewrite Ha; [reflexivity | reflexivity] | now rewrite He | now rewrite Hp | now rewrite Hr].
Qed.

Lemma symbol_not_in_class (c : char) : is_symbol c = true -> digit_brace_comma c = false.
Proof.
  intro H. unfold digit_brace_comma. rewrite (symbol_not_digit c H).
  unfold is_symbol, is_char, char_eqb in *.
  repeat (apply orb_true_iff in H as [H|H]); apply N.eqb_eq in H as <-; reflexivity.
Qed.

Lemma digit_not (a : char) (w : str) :
  is_digit a = false -> List.forallb is_digit w = true -> forall c, In c w -> c <> a.
Proof.
  intros Ha Hw c Hc ->. rewrite forallb_forall in Hw. specialize (Hw a Hc). congruence.
Qed.

Lemma remove_comma_digits (w : str) :
  List.forallb is_digit w = true -> remove_char comma w = w.
Proof.
  induction w as [|c w IH]; [reflexivity|]. cbn [List.forallb]. intro H.
  apply andb_true_iff in H as [Hc Hw]. rewrite remove_char_cons, (IH Hw).
  destruct (char_eqb comma c) eqn:E; [|reflexivity].
  apply N.eqb_eq in E as <-. rewrite comma_not_digit in Hc. discriminate.
Qed.

(** A member of [[\d{1,3},]] that is neither a brace nor the comma is a
    digit. *)
Lemma class_digit (c : char) :
  digit_brace_comma c = true -> is_brace c = false -> char_eqb comma c = false ->
  is_digit c = true.
Proof.
  unfold digit_brace_comma, is_brace, is_char. intros Hc Hb Hcomma.
  apply orb_false_iff in Hb as [Hb1 Hb2]. rewrite Hb1, Hb2, Hcomma in Hc.
  rewrite !orb_false_r in Hc.
  destruct (is_digit c) eqn:Ed; [reflexivity|]. cbn [orb] in Hc. rewrite <- Ed.
  destruct digits_ok as [Ha _]. unfold is_digit, char_eqb in *.
  apply orb_true_iff in Hc as [Hc|Hc]; apply N.eqb_eq in Hc as <-; now rewrite Ha.
Qed.

Lemma remove_comma_class (lead : str) :
  List.forallb digit_brace_comma lead = true -> List.existsb is_brace lead = false ->
  List.forallb is_digit (remove_char comma lead) = true.
Proof.
  induction lead as [|c lead IH]; [reflexivity|]. cbn [List.forallb List.existsb]. intros Hc Hb.
  apply andb_true_iff in Hc as [Hc Hl]. apply orb_false_iff in Hb as [Hb Hbl].
  rewrite remove_char_cons.
  destruct (char_eqb comma c) eqn:E; [now apply IH|]. cbn [List.forallb].
  rewrite (class_digit c Hc Hb E). now apply IH.
Qed.

Lemma digits_value_some (w : str) :
  List.forallb is_digit w = true -> forall acc, exists n, digits_value acc w = Some n.
Proof.
  induction w as [|c w IH]; intros Hw acc; [now exists acc|]. simpl in *.
  apply andb_true_iff in Hw as [Hc Hw]. unfold is_digit in Hc.
  destruct (decimal_digit c); [apply IH; exact Hw | discriminate].
Qed.

(** [float] reads a run of digits, and a run of digits, a dot and digits. *)
Lemma float_digits (w : str) (n : N) :
  w <> [] -> List.forallb is_digit w = true -> digits_value 0 w = Some n ->
  float w = Returned (Finite false n 0).
Proof.
  intros Hne Hw Hn. unfold float, split1, find.
  rewrite (find_from_single_absent dot w (digit_not dot w dot_not_digit Hw)).
  cbn [Z.leb Z.compare]. rewrite app_nil_r, Hn.
  destruct w; [contradiction | reflexivity].
Qed.

Lemma float_fraction (w fr : str) :
  w <> [] -> List.forallb is_digit w = true -> List.forallb is_digit fr = true ->
  exists f, float (w ++ dot :: fr) = Returned f.
Proof.
  intros Hne Hw Hfr. unfold float, split1, find.
  rewrite (find_from_single_at dot w fr (digit_not dot w dot_not_digit Hw)).
  rewrite Z.add_0_l. destruct (0 <=? Z.of_nat (length w)) eqn:E; [|apply Z.leb_gt in E; lia].
  rewrite Nat2Z.id, take_app_length.
  replace (skipn (length w + length [dot]) (w ++ dot :: fr)) with fr.
  - destruct (digits_value_some (w ++ fr)) with (acc := 0%N) as [n Hn];
      [rewrite forallb_app; now rewrite Hw, Hfr|].
    rewrite Hn. destruct w; [contradiction|]. now eexists.
  - change (dot :: fr) with ([dot] ++ fr). rewrite app_assoc, <- length_app.
    now rewrite drop_app_length.
Qed.

(** A number without braces reads, its commas removed. *)
Lemma float_number (i : nat) (y : str) :
  lang (number_body i) y -> List.existsb is_brace y = false ->
  exists f, float (remove_char comma y) = Returned f.
Proof.
  intros L Hb.
  destruct (number_body_lang i y L) as (lead & d & ds & fr & -> & Hl & Hd & Hds & Hfr).
  apply existsb_app_false in Hb as [Hbl Hb]. apply existsb_app_false in Hb as [_ Hbf].
  rewrite !remove_char_app.
  rewrite (remove_comma_digits (d :: ds)) by (cbn [List.forallb]; now rewrite Hd, Hds).
  pose proof (remove_comma_class lead Hl Hbl) as Hlead.
  set (w := remove_char comma lead ++ d :: ds).
  assert (Hw : List.forallb is_digit w = true)
    by (unfold w; rewrite forallb_app; simpl; now rewrite Hlead, Hd, Hds).
  assert (Hne : w <> []) by (unfold w; now destruct (remove_char comma lead)).
  rewrite app_assoc. fold w.
  destruct Hfr as [-> | (e & es & -> & He & Hes)].
  - change (remove_char comma []) with (@nil char). rewrite app_nil_r.
    destruct (digits_value_some w Hw 0%N) as [n Hn]. exists (Finite false n 0).
    now apply float_digits.
  - assert (Hfrd : List.forallb is_digit (e :: es) = true)
      by (cbn [List.forallb]; now rewrite He, Hes).
    rewrite remove_char_cons. change (char_eqb comma dot) with false. cbv iota.
    rewrite (remove_comma_digits _ Hfrd). now apply float_fraction.
Qed.

(** The number pattern matches somewhere exactly when the text has a
    decimal digit. *)
Lemma number_search_digit (x : str) :
  search NUMBER_RE x = None <-> List.existsb is_digit x = false.
Proof.
  split.
  - intro Hs. destruct (List.existsb is_digit x) eqn:E; [exfalso | reflexivity].
    apply existsb_exists in E as (d & Hin & Hd). apply in_split in Hin as (pre & post & ->).
    apply (search_complete NUMBER_RE pre [d] post); [|exact Hs].
    unfold NUMBER_RE, number_body.
    apply (lang_seq _ _ [] [d]); [now constructor|].
    apply (lang_seq _ _ [d] []); [now constructor | constructor].
  - intro Hx. destruct (search NUMBER_RE x) as [m|] eqn:Hs; [exfalso | reflexivity].
    destruct (search_sound _ _ _ Hs) as (pre & x1 & x2 & -> & L & _).
    destruct (number_body_lang 1 x1 L) as (lead & d & ds & fr & -> & _ & Hd & _).
    rewrite !existsb_app in Hx. simpl in Hx. rewrite Hd in Hx.
    now rewrite !orb_true_r in Hx.
Qed.
End Amounts.

(** The greedy repetition gives back one character when the rest cannot
    go on from the end of the run. *)
Lemma star_gives_back {A : Type} (p : char -> bool) (x1 : str) (d : char) :
  List.forallb p x1 = true -> p d = true ->
  forall pos g (k : nat -> str -> groups -> option A) a,
    k (pos + length x1 + 1)%nat [] g = None ->
    k (pos + length x1)%nat [d] g = Some a ->
    star p pos (x1 ++ [d]) g k = Some a.
Proof.
  induction x1 as [|c x1 IH]; intros Hall Hd pos g k a Hend Hlast.
  - simpl in *. rewrite Nat.add_0_r in *. rewrite Hd.
    rewrite Nat.add_1_r in Hend. now rewrite Hend.
  - simpl in *. apply andb_true_iff in Hall as [Hc Hall]. rewrite Hc.
    rewrite (IH Hall Hd (S pos) g k a); [reflexivity | |].
    + now replace (S pos + length x1 + 1)%nat with (pos + S (length x1) + 1)%nat by lia.
    + now replace (S pos + length x1)%nat with (pos + S (length x1))%nat by lia.
Qed.

Section PlainPrices.
Context {U : Unicode}.
Hypothesis digits_ok : digits_as_in_ascii U.

Lemma digits_in_class (ds : str) :
  List.forallb is_digit ds = true -> List.forallb digit_brace_comma ds = true.
Proof.
  intro H. apply forallb_forall. intros c Hc. rewrite forallb_forall in H.
  unfold digit_brace_comma. now rewrite (H c Hc).
Qed.

(** In a text made of one character that is neither a digit nor in the
    set, then digits to the end, the first number is the run of digits. *)
Lemma first_number_plain (c : char) (ds : str) :
  is_digit c = false -> digit_brace_comma c = false ->
  ds <> [] -> List.forallb is_digit ds = true ->
  first_number (c :: ds) = Some ds.
Proof.
  intros Hc Hclass Hne Hds.
  destruct (exists_last Hne) as (body & d & ->).
  rewrite forallb_app in Hds. apply andb_true_iff in Hds as [Hbody Hd].
  cbn [List.forallb] in Hd. rewrite andb_true_r in Hd.
  unfold first_number, search. cbn [search_from].
  assert (H0 : match_at NUMBER_RE (c :: body ++ [d]) 0 (c :: body ++ [d]) = None).
  { unfold match_at, NUMBER_RE, number_body. cbn [run star]. rewrite Hclass.
    cbn [run]. now rewrite Hc. }
  rewrite H0.
  set (m := {| m_text := c :: body ++ [d]; m_start := 1; m_end := (1 + length body + 1)%nat;
               m_groups := [] |}).
  assert (H1 : match_at NUMBER_RE (c :: body ++ [d]) 1 (body ++ [d]) = Some m).
  { unfold match_at, NUMBER_RE, number_body. cbn [run].
    apply star_gives_back; [now apply digits_in_class | | reflexivity |].
    - unfold digit_brace_comma. now rewrite Hd.
    - cbn [run star]. rewrite Hd. cbn [run star]. unfold m. do 2 f_equal. lia. }
  rewrite (search_from_here _ _ _ _ _ H1). cbn [option_map]. f_equal.
  unfold group0, m. cbn [m_start m_end m_text].
  pose proof (slice_middle [c] (body ++ [d]) []) as Hs. rewrite app_nil_r in Hs.
  replace (1 + length body + 1)%nat with (length [c] + length (body ++ [d]))%nat
    by (rewrite length_app; simpl; lia).
  exact Hs.
Qed.

Lemma amount_of_plain (c : char) (ds : str) (n : N) :
  is_symbol c = true -> ds <> [] -> List.forallb is_digit ds = true ->
  digits_value 0 ds = Some n ->
  amount_of (c :: ds) = Some (Finite false n 0) /\ first_currency (c :: ds) = Some [c].
Proof.
  intros Hc Hne Hds Hn. split.
  - unfold amount_of.
    rewrite (first_number_plain c ds (symbol_not_digit digits_ok c Hc)
               (symbol_not_in_class digits_ok c Hc) Hne Hds).
    rewrite (remove_comma_digits digits_ok ds Hds).
    now rewrite (float_digits digits_ok ds n Hne Hds Hn).
  - assert (L : lang CURRENCY_RE (c :: ds)).
    { destruct ds as [|d ds]; [contradiction|]. cbn [List.forallb] in Hds.
      apply andb_true_iff in Hds as [Hd Hds'].
      unfold CURRENCY_RE, number_body.
      apply (lang_seq _ _ [c] (d :: ds)).
      - apply lang_group. unfold is_symbol in Hc.
        repeat (apply orb_true_iff in Hc as [Hc|Hc]).
        + now apply lang_alt_l, lang_atom.
        + now apply lang_alt_r, lang_alt_l, lang_atom.
        + now apply lang_alt_r, lang_alt_r, lang_alt_l, lang_atom.
        + now apply lang_alt_r, lang_alt_r, lang_alt_r, lang_atom.
      - apply (lang_seq _ _ [] (d :: ds)); [apply lang_opt_none|].
        apply (lang_seq _ _ [] (d :: ds)); [now apply lang_star|].
        rewrite <- (app_nil_r (d :: ds)).
        apply (lang_seq _ _ (d :: ds) []); [now apply lang_plus | apply lang_opt_none]. }
    destruct (currency_group _ L) as (c' & rest & [= <- <-] & _ & H). exact H.
Qed.
End PlainPrices.

(** ** Writing a number and reading it back *)

Section Decimal.
Context {U : Unicode}.
Hypothesis digits_ok : digits_as_in_ascii U.

Lemma digits_value_app (x y : str) :
  forall acc,
    digits_value acc (x ++ y)
    = match digits_value acc x with Some b => digits_value b y | None => None end.
Proof.
  induction x as [|c x IH]; intro acc; [reflexivity|]. simpl.
  destruct (decimal_digit c); [apply IH | reflexivity].
Qed.

Lemma decimal_digit_of (r : N) : (r < 10)%N -> decimal_digit (48 + r)%N = Some r.
Proof.
  intro Hr. destruct digits_ok as [Ha _]. rewrite Ha by lia. unfold ascii_decimal_digit.
  replace ((48 <=? 48 + r) && (48 + r <=? 57))%N with true.
  - f_equal. lia.
  - symmetry. apply andb_true_iff. split; apply N.leb_le; lia.
Qed.

Lemma digits_of_spec (f : nat) :
  forall n acc,
    (n < 2 ^ N.of_nat (S f))%N ->
    exists ds, digits_of (S f) n acc = ds ++ acc /\ ds <> [] /\
               List.forallb is_digit ds = true /\ digits_value 0 ds = Some n.
Proof.
  assert (Hmod : forall n, (n mod 10 < 10)%N) by (intro n; apply N.mod_lt; lia).
  assert (Hsmall : forall n acc fuel, (n < 10)%N ->
             exists ds, digits_of (S fuel) n acc = ds ++ acc /\ ds <> [] /\
                        List.forallb is_digit ds = true /\ digits_value 0 ds = Some n).
  { intros n acc fuel Hn. exists [(48 + n mod 10)%N]. cbn [digits_of].
    apply N.ltb_lt in Hn as Hb. rewrite Hb. split; [reflexivity|]. split; [discriminate|].
    cbn [List.forallb digits_value]. unfold is_digit.
    rewrite (decimal_digit_of _ (Hmod n)). split; [reflexivity|].
    f_equal. rewrite N.mod_small by exact Hn. lia. }
  induction f as [|f IH]; intros n acc Hn.
  - apply Hsmall. change (2 ^ N.of_nat 1)%N with 2%N in Hn. lia.
  - destruct (N.ltb_spec n 10) as [Hlt|Hge]; [now apply Hsmall|].
    cbn [digits_of]. apply N.ltb_ge in Hge as Hb. rewrite Hb.
    destruct (IH (n / 10)%N ((48 + n mod 10)%N :: acc)) as (ds & Hds & Hne & Hall & Hval).
    { apply N.Div0.div_lt_upper_bound.
      replace (N.of_nat (S (S f))) with (N.succ (N.of_nat (S f))) in Hn by lia.
      rewrite N.pow_succ_r' in Hn. lia. }
    exists (ds ++ [(48 + n mod 10)%N]). cbn [digits_of] in Hds. rewrite Hds.
    split; [now rewrite <- app_assoc|]. split; [now destruct ds|].
    split.
    + rewrite forallb_app, Hall. cbn [List.forallb]. unfold is_digit.
      now rewrite (decimal_digit_of _ (Hmod n)).
    + rewrite digits_value_app, Hval. cbn [digits_value].
      rewrite (decimal_digit_of _ (Hmod n)). f_equal.
      pose proof (N.div_mod n 10). lia.
Qed.

(** [str] writes a number as a run of decimal digits that reads back as
    the number. *)
Lemma str_of_N_digits (n : N) :
  str_of_N n <> [] /\ List.forallb is_digit (str_of_N n) = true /\
  digits_value 0 (str_of_N n) = Some n.
Proof.
  unfold str_of_N.
  destruct (digits_of_spec (N.to_nat (N.log2 n)) n []) as (ds & -> & Hne & Hall & Hval).
  - rewrite Nat2N.inj_succ, N2Nat.id.
    destruct (N.eq_dec n 0%N) as [->|Hn]; [reflexivity|]. apply N.log2_spec. lia.
  - rewrite app_nil_r. now repeat split.
Qed.
End Decimal.

(** ** The normaliser and the price heuristic together *)

Section PriceFacts.
Context {U : Unicode}.
Variable parse : str -> soup.
Variable select_one : soup -> value -> outcome (option node).

(** X2: when the selector map has no entry for the price, the price of
    the record comes from the heuristic, and then either nothing was found
    and raw, amount and currency are all None, or raw starts with a
    currency symbol and the currency of the record is that symbol: a price
    found by the heuristic never lacks its currency. *)
Theorem heuristic_price_has_currency (clock html : str) (mapping : dict value) :
  has_key mapping (lit "price") = false ->
  exists record price,
    outcome_of (extract_from_html parse select_one clock html mapping) = Returned record /\
    dict_get record (lit "price") = Some (VDict price) /\
    ((infer_price (parse html) = None /\
      price = [(lit "raw", VNone); (lit "amount", VNone); (lit "currency", VNone)]) \/
     (exists c rest,
         infer_price (parse html) = Some (c :: rest) /\ is_symbol c = true /\
         dict_get price (lit "raw") = Some (VStr (c :: rest)) /\
         dict_get price (lit "currency") = Some (VStr [c]))).
Proof.
  intro Hkey. unfold has_key in Hkey.
  destruct (dict_get mapping (lit "price")) eqn:Hget; [discriminate|]. clear Hkey.
  assert (Hf : field_or infer_price (parse html)
                 (store_results select_one (parse html) mapping []) (lit "price")
               = infer_price (parse html)).
  { unfold field_or, get_text_field.
    now rewrite store_results_get, (dict_get_none_last _ _ Hget). }
  do 2 eexists. rewrite extract_from_html_run. cbn [outcome_of fst].
  split; [reflexivity|]. split; [reflexivity|]. rewrite Hf.
  destruct (infer_price (parse html)) as [p|] eqn:Hp; [right | left; now split].
  destruct (currency_group p (infer_price_lang _ _ Hp)) as (c & rest & -> & Hc & Hcur).
  exists c, rest. split; [reflexivity|]. split; [exact Hc|]. split; [reflexivity|].
  unfold price_object. change (dict_get _ (lit "currency"))
    with (Some (value_of_text (first_currency (c :: rest)))).
  now rewrite Hcur.
Qed.

End PriceFacts.

Section AmountFacts.
Context {U : Unicode}.

Lemma amount_of_none (x : str) :
  digits_as_in_ascii U -> List.existsb is_brace x = false ->
  amount_of x = None <-> List.existsb is_digit x = false.
Proof.
  intros Hok Hb. rewrite <- number_search_digit. unfold amount_of, first_number.
  destruct (search NUMBER_RE x) as [m|] eqn:Hs; cbn [option_map]; [|tauto].
  destruct (search_sound _ _ _ Hs) as (pre & x1 & x2 & -> & L & -> & _).
  apply existsb_app_false in Hb as [_ Hb]. apply existsb_app_false in Hb as [Hb _].
  destruct (float_number Hok 1 x1 L Hb) as [f ->]. split; discriminate.
Qed.

(** X3: for a raw price text without braces, [normalize_fields] leaves the
    amount None exactly when the text has no decimal digit: every such
    text with a digit in it gets an amount. *)
Theorem amount_read_when_digits (clock : str) (raw : dict (option str)) (x : str) :
  digits_as_in_ascii U ->
  get_text_field raw (lit "price") = Some x ->
  List.existsb is_brace x = false ->
  exists record price,
    normalize_fields clock raw = (Returned record, []) /\
    dict_get record (lit "price") = Some (VDict price) /\
    (dict_get price (lit "amount") = Some VNone <-> List.existsb is_digit x = false).
Proof.
  intros Hok Hx Hb. do 2 eexists. rewrite normalize_fields_run, Hx.
  split; [reflexivity|]. split; [reflexivity|].
  rewrite <- (amount_of_none x Hok Hb). unfold price_object.
  change (dict_get _ (lit "amount"))
    with (Some (match amount_of x with Some f => VFloat f | None => VNone end)).
  destruct (amount_of x); split; (discriminate || reflexivity).
Qed.

(** X4: a raw price text made of one currency symbol and decimal digits
    after it normalises to the number the digits write, with the symbol as
    its currency. *)
Theorem plain_price_normalized (clock : str) (raw : dict (option str)) (c : char) (ds : str)
        (n : N) :
  digits_as_in_ascii U ->
  get_text_field raw (lit "price") = Some (c :: ds) ->
  is_symbol c = true -> ds <> [] -> List.forallb is_digit ds = true ->
  digits_value 0 ds = Some n ->
  exists record,
    normalize_fields clock raw = (Returned record, []) /\
    dict_get record (lit "price")
    = Some (VDict [ (lit "raw", VStr (c :: ds)); (lit "amount", VFloat (Finite false n 0));
                    (lit "currency", VStr [c]) ]).
Proof.
  intros Hok Hx Hc Hne Hds Hn. eexists. rewrite normalize_fields_run, Hx.
  split; [reflexivity|].
  destruct (amount_of_plain Hok c ds n Hc Hne Hds Hn) as [Ha Hcur].
  unfold record_of, price_object.
  change (dict_get _ (lit "price"))
    with (Some (VDict [ (lit "raw", VStr (c :: ds));
                        (lit "amount", match amount_of (c :: ds) with
                                       | Some f => VFloat f
                                       | None => VNone
                                       end);
                        (lit "currency", value_of_text (first_currency (c :: ds))) ])).
  now rewrite Ha, Hcur.
Qed.

(** X5: the price text the sample generator writes for the sample [i],
    the rupee sign before [str(999 + i * 50)], normalises to the amount
    [999 + i * 50] and the currency ₹, for every [i]. *)
Theorem sample_price_round_trip (clock : str) (i : N) :
  digits_as_in_ascii U ->
  exists record,
    normalize_fields clock [(lit "price", Some (sample_price i))] = (Returned record, []) /\
    dict_get record (lit "price")
    = Some (VDict [ (lit "raw", VStr (sample_price i));
                    (lit "amount", VFloat (Finite false (999 + i * 50) 0));
                    (lit "currency", VStr [rupee]) ]).
Proof.
  intro Hok. destruct (str_of_N_digits Hok (999 + i * 50)) as (Hne & Hds & Hn).
  eexists. rewrite normalize_fields_run. split; [reflexivity|].
  destruct (amount_of_plain Hok rupee _ _ eq_refl Hne Hds Hn) as [Ha Hcur].
  change (get_text_field [(lit "price", Some (sample_price i))] (lit "price"))
    with (Some (sample_price i)).
  unfold record_of, price_object.
  change (dict_get _ (lit "price"))
    with (Some (VDict [ (lit "raw", VStr (sample_price i));
                        (lit "amount", match amount_of (sample_price i) with
                                       | Some f => VFloat f
                                       | None => VNone
                                       end);
                        (lit "currency", value_of_text (first_currency (sample_price i))) ])).
  unfold sample_price. now rewrite Ha, Hcur.
Qed.
End AmountFacts.

Section HeuristicAmount.
Context {U : Unicode}.
Variable parse : str -> soup.
Variable select_one : soup -> value -> outcome (option node).

(** X20: a price found by the heuristic lacks its amount only through a
    brace.  When the selector map has no entry for the price and the
    price heuristic finds a text without [{] and [}], the record holds
    that text as raw together with an amount that is a number, never
    None: the text ends in a digit, and [NUMBER_RE] with [float] reads
    every run the pattern takes from a text without braces. *)
Theorem heuristic_price_has_amount (clock html : str) (mapping : dict value) (p : str) :
  digits_as_in_ascii U ->
  has_key mapping (lit "price") = false ->
  infer_price (parse html) = Some p ->
  List.existsb is_brace p = false ->
  exists record price f,
    outcome_of (extract_from_html parse select_one clock html mapping) = Returned record /\
    dict_get record (lit "price") = Some (VDict price) /\
    dict_get price (lit "raw") = Some (VStr p) /\
    dict_get price (lit "amount") = Some (VFloat f).
Proof.
  intros Hok Hkey Hp Hb. unfold has_key in Hkey.
  destruct (dict_get mapping (lit "price")) eqn:Hget; [discriminate|]. clear Hkey.
  assert (Hf : field_or infer_price (parse html)
                 (store_results select_one (parse html) mapping []) (lit "price")
               = Some p).
  { unfold field_or, get_text_field.
    now rewrite store_results_get, (dict_get_none_last _ _ Hget). }
  destruct (currency_lang p (infer_price_lang _ _ Hp)) as (c & body & digit & E & _ & Hd & _).
  assert (Hdigit : List.existsb is_digit p = true).
  { rewrite E. cbn [List.existsb]. rewrite List.existsb_app. cbn [List.existsb].
    rewrite Hd. now rewrite !orb_true_r. }
  destruct (amount_of p) as [f|] eqn:Ha.
  - do 2 eexists. exists f. rewrite extract_from_html_run. cbn [outcome_of fst].
    split; [reflexivity|]. split; [reflexivity|]. rewrite Hf. unfold price_object.
    split; [reflexivity|].
    change (dict_get _ (lit "amount"))
      with (Some (match amount_of p with Some f => VFloat f | None => VNone end)).
    now rewrite Ha.
  - apply (amount_of_none p Hok Hb) in Ha. congruence.
Qed.
End HeuristicAmount.

(** ** The normaliser

    The two searches of [normalize_fields] in the words of the patterns:
    the scan finds the leftmost place where the pattern matches, and the
    match of the number pattern there is the longest. *)










Section NumberMatch.
Context {U : Unicode}.
Hypothesis digits_ok : digits_as_in_ascii U.











End NumberMatch.

Section NormaliserFacts.
Context {U : Unicode}.
Hypothesis digits_ok : digits_as_in_ascii U.






End NormaliserFacts.

Section Normaliser.
Context {U : Unicode}.
Variable parse : str -> soup.
Variable select_one : soup -> value -> outcome (option node).


End Normaliser.

Lemma ascii_digits_ok : digits_as_in_ascii ascii_unicode.
Proof. split; [intros c _; reflexivity | now repeat split]. Qed.



(** ** Stripping *)

Lemma lstrip_drop (x : str) : exists n, lstrip x = skipn n x.
Proof.
  induction x as [|c x [n IH]]; [now exists 0%nat|]. simpl.
  destruct (isspace c); [now exists (S n) | now exists 0%nat].
Qed.

Lemma lstrip_head (x : str) (c : char) (y : str) : lstrip x = c :: y -> isspace c = false.
Proof.
  induction x as [|a x IH]; simpl; [discriminate|].
  destruct (isspace a) eqn:E; [exact IH | now intros [= <- _]].
Qed.

Lemma lstrip_fixed (x : str) :
  (forall c y, x = c :: y -> isspace c = false) -> lstrip x = x.
Proof. destruct x as [|c x]; [reflexivity|]. intro H. simpl. now rewrite (H c x eq_refl). Qed.

Lemma lstrip_lstrip (x : str) : lstrip (lstrip x) = lstrip x.
Proof. apply lstrip_fixed. intros c y. apply lstrip_head. Qed.

Lemma rstrip_take (x : str) : exists n, rstrip x = firstn n x.
Proof.
  unfold rstrip. destruct (lstrip_drop (rev x)) as [n ->].
  exists (length x - n)%nat. now rewrite List.skipn_rev, rev_involutive.
Qed.

Lemma rstrip_rstrip (x : str) : rstrip (rstrip x) = rstrip x.
Proof. unfold rstrip. now rewrite rev_involutive, lstrip_lstrip. Qed.

(** Stripping a stripped text changes nothing. *)
Lemma strip_strip (x : str) : strip (strip x) = strip x.
Proof.
  unfold strip.
  assert (H : lstrip (rstrip (lstrip x)) = rstrip (lstrip x)).
  { apply lstrip_fixed. intros c y Hy.
    destruct (rstrip_take (lstrip x)) as [n Hn]. rewrite Hn in Hy.
    destruct (lstrip x) as [|a z] eqn:E; [now destruct n|].
    destruct n; [discriminate|]. simpl in Hy. injection Hy as <- _.
    exact (lstrip_head _ _ _ E). }
  now rewrite H, rstrip_rstrip.
Qed.

Lemma lstrip_length (x : str) : (length (lstrip x) <= length x)%nat.
Proof. destruct (lstrip_drop x) as [n ->]. rewrite length_skipn. lia. Qed.

Lemma rstrip_length (x : str) : (length (rstrip x) <= length x)%nat.
Proof. destruct (rstrip_take x) as [n ->]. rewrite length_firstn. lia. Qed.

Lemma strip_length (x : str) : (length (strip x) <= length x)%nat.
Proof.
  unfold strip. pose proof (rstrip_length (lstrip x)). pose proof (lstrip_length x). lia.
Qed.

Lemma strip_substring (x : str) : substring (strip x) x.
Proof.
  unfold strip. destruct (rstrip_take (lstrip x)) as [n ->].
  destruct (lstrip_drop x) as [k ->].
  exists (firstn k x), (skipn n (skipn k x)). now rewrite !firstn_skipn.
Qed.

Lemma substring_trans (a b c : str) : substring a b -> substring b c -> substring a c.
Proof.
  intros (p1 & q1 & ->) (p2 & q2 & ->). exists (p2 ++ p1), (q1 ++ q2).
  now rewrite <- !app_assoc.
Qed.

Lemma lstrip_keeps (u : str) (c : char) (v : str) :
  isspace c = false -> exists u', lstrip (u ++ c :: v) = u' ++ c :: v.
Proof.
  intro Hc. induction u as [|a u [u' IH]]; simpl.
  - rewrite Hc. now exists [].
  - destruct (isspace a); [now exists u' | now exists (a :: u)].
Qed.

Lemma rstrip_keeps (u : str) (c : char) (v : str) :
  isspace c = false -> exists v', rstrip (u ++ c :: v) = u ++ c :: v'.
Proof.
  intro Hc. unfold rstrip. rewrite rev_app_distr. cbn [rev]. rewrite <- app_assoc. cbn [app].
  destruct (lstrip_keeps (rev v) c (rev u) Hc) as [w ->].
  exists (rev w). rewrite rev_app_distr. cbn [rev]. rewrite rev_involutive, <- app_assoc.
  reflexivity.
Qed.

(** A piece of a text whose first and last characters are not white space
    is still there when the text is stripped. *)
Lemma strip_keeps (p : str) (c1 : char) (t1 : str) (t2 : str) (c2 : char) (y : str) :
  p = c1 :: t1 -> p = t2 ++ [c2] -> isspace c1 = false -> isspace c2 = false ->
  substring p y -> substring p (strip y).
Proof.
  intros Hp1 Hp2 H1 H2 (u & v & ->). unfold strip. subst p.
  change (u ++ (c1 :: t1) ++ v) with (u ++ c1 :: t1 ++ v).
  destruct (lstrip_keeps u c1 (t1 ++ v) H1) as [u' ->].
  replace (u' ++ c1 :: t1 ++ v) with ((u' ++ t2) ++ c2 :: v).
  - destruct (rstrip_keeps (u' ++ t2) c2 v H2) as [v' ->].
    exists u', v'. rewrite Hp2, <- !app_assoc. reflexivity.
  - change (c1 :: t1 ++ v) with ((c1 :: t1) ++ v). rewrite Hp2, <- !app_assoc. reflexivity.
Qed.

Lemma startswith_app (p x : str) : startswith p x = true -> exists rest, x = p ++ rest.
Proof.
  revert x. induction p as [|a p IH]; intros x; [now exists x|].
  destruct x as [|b x]; simpl; [discriminate|]. intro H.
  apply andb_true_iff in H as [Hab H]. apply N.eqb_eq in Hab as ->.
  destruct (IH x H) as [rest ->]. now exists rest.
Qed.

(** ** What the heuristics return *)

Section HeuristicResults.
Context {U : Unicode}.

(** The window around an occurrence that starts within 50 characters of
    its end holds the occurrence. *)
Lemma slice_keeps (pre p rest : str) :
  (length p <= 50)%nat ->
  substring p (slice (Z.max 0 (Z.of_nat (length pre) - 30)) (Z.of_nat (length pre) + 50)
                     (pre ++ p ++ rest)).
Proof.
  intro Hp. unfold slice.
  set (a := Z.to_nat (Z.max 0 (Z.of_nat (length pre) - 30))).
  assert (Ha : (a <= length pre)%nat) by (unfold a; lia).
  replace (Z.to_nat (Z.of_nat (length pre) + 50 - Z.max 0 (Z.of_nat (length pre) - 30)))
    with ((length pre - a) + 50)%nat by (unfold a; lia).
  rewrite (drop_app_le pre (p ++ rest) a Ha).
  rewrite (take_app_add' (drop a pre) (p ++ rest) (length pre - a) 50)
    by (now rewrite length_drop).
  rewrite (take_app p rest 50), (take_ge p 50 Hp).
  now exists (drop a pre), (take (50 - length p) rest).
Qed.

Lemma phrase_ends (phrase : str) :
  In phrase availability_phrases ->
  (length phrase <= 50)%nat /\
  exists c1 t1 t2 c2, phrase = c1 :: t1 /\ phrase = t2 ++ [c2] /\
                      isspace c1 = false /\ isspace c2 = false.
Proof.
  intro H. repeat (destruct H as [<-|H]); try contradiction;
    (split; [vm_compute; lia|]).
  - now exists 105%N, (lit "n stock"), (lit "in stoc"), 107%N.
  - now exists 111%N, (lit "ut of stock"), (lit "out of stoc"), 107%N.
  - now exists 97%N, (lit "vailable"), (lit "availabl"), 101%N.
  - now exists 112%N, (lit "re-order"), (lit "pre-orde"), 114%N.
  - now exists 112%N, (lit "reorder"), (lit "preorde"), 114%N.
Qed.

(** X6: a status [infer_availability] returns has at most 80 characters,
    has no white space at either end, is a piece of the lowercased text of
    the page, and holds one of the five phrases. *)
Theorem infer_availability_window (d : soup) (w : str) :
  infer_availability d = Some w ->
  (length w <= 80)%nat /\ trimmed w /\
  substring w (lower (soup_get_text (lit " ") true d)) /\
  exists phrase, In phrase availability_phrases /\ substring phrase w.
Proof.
  unfold infer_availability. set (text_ := lower (soup_get_text (lit " ") true d)).
  intro H. apply for_return_some in H as [(phrase & Hin & Hbody)|H]; [|discriminate].
  destruct (contains phrase text_) eqn:Hc; [|discriminate]. injection Hbody as <-.
  destruct (find_first_occurrence phrase text_ Hc) as (Hidx & Hstart & _).
  set (idx := find phrase text_) in *.
  split; [|split; [|split]].
  - pose proof (strip_length (slice (Z.max 0 (idx - 30)) (idx + 50) text_)) as Hl.
    unfold slice in Hl at 2. rewrite length_firstn in Hl. lia.
  - apply strip_strip.
  - eapply substring_trans; [apply strip_substring | apply slice_substring].
  - exists phrase. split; [exact Hin|].
    destruct (phrase_ends phrase Hin) as (Hlen & c1 & t1 & t2 & c2 & Hp1 & Hp2 & H1 & H2).
    apply (strip_keeps phrase c1 t1 t2 c2 _ Hp1 Hp2 H1 H2).
    destruct (startswith_app _ _ Hstart) as [rest Hrest].
    assert (Hlt : (Z.to_nat idx < length text_)%nat).
    { destruct (Nat.lt_ge_cases (Z.to_nat idx) (length text_)) as [Hlt|Hge]; [exact Hlt|].
      rewrite skipn_all2 in Hrest by exact Hge. rewrite Hp1 in Hrest. discriminate. }
    pose proof (slice_keeps (firstn (Z.to_nat idx) text_) phrase rest Hlen) as Hs.
    rewrite <- Hrest, firstn_skipn, length_firstn in Hs.
    replace (Z.of_nat (Nat.min (Z.to_nat idx) (length text_))) with idx in Hs by lia.
    exact Hs.
Qed.

(** X7: a title [infer_title] returns has no white space at either end,
    and is empty only when it is the content of a metadata tag. *)
Theorem infer_title_trimmed (d : soup) (t : str) :
  infer_title d = Some t ->
  trimmed t /\
  (t = [] -> meta_content (og_title_tag d) = Some []
             \/ meta_content (twitter_title_tag d) = Some []).
Proof.
  unfold infer_title. cbn [for_return]. rewrite !meta_content_present.
  assert (Hmeta : forall tag, meta_content tag = Some t -> trimmed t).
  { intros [tg|]; [|discriminate]. unfold meta_content.
    destruct (tag_get tg (lit "content")) as [c|]; [|discriminate].
    destruct (isEmpty c); [discriminate|]. intros [= <-]. apply strip_strip. }
  assert (Htext : forall tg, negb (isEmpty (strip (text tg))) = true ->
                             Some (strip (text tg)) = Some t -> trimmed t /\ t <> []).
  { intros tg Hne [= <-]. split; [apply strip_strip|].
    now destruct (strip (text tg)). }
  destruct (meta_content (og_title_tag d)) as [t0|] eqn:Hog.
  { intros [= ->]. split; [now apply (Hmeta _ Hog) | intros ->; now left]. }
  destruct (meta_content (twitter_title_tag d)) as [t0|] eqn:Htw.
  { intros [= ->]. split; [now apply (Hmeta _ Htw) | intros ->; now right]. }
  assert (Hhead : forall name rest_,
             match find_tag name (fun _ => true) d with
             | Some tg => if negb (isEmpty (strip (text tg))) then Some (strip (text tg)) else None
             | None => None
             end = Some t \/ rest_ = Some t ->
             (rest_ = Some t -> trimmed t /\ t <> []) -> trimmed t /\ t <> []).
  { intros name rest_ [H|H] Hr; [|now apply Hr].
    destruct (find_tag name (fun _ => true) d) as [tg|]; [|discriminate].
    destruct (negb (isEmpty (strip (text tg)))) eqn:E; [|discriminate].
    exact (Htext tg E H). }
  intro H.
  assert (Hres : trimmed t /\ t <> []).
  { destruct (title_tag d) as [tl|].
    - destruct (negb (isEmpty (strip (text tl)))) eqn:E; [exact (Htext tl E H)|].
      destruct (find_tag (lit "h1") (fun _ => true) d) as [t1|].
      + destruct (negb (isEmpty (strip (text t1)))) eqn:E1; [exact (Htext t1 E1 H)|].
        destruct (find_tag (lit "h2") (fun _ => true) d) as [t2|].
        * destruct (negb (isEmpty (strip (text t2)))) eqn:E2; [exact (Htext t2 E2 H)|].
          destruct (find_tag (lit "h3") (fun _ => true) d) as [t3|]; [|discriminate].
          destruct (negb (isEmpty (strip (text t3)))) eqn:E3;
            [exact (Htext t3 E3 H) | discriminate].
        * destruct (find_tag (lit "h3") (fun _ => true) d) as [t3|]; [|discriminate].
          destruct (negb (isEmpty (strip (text t3)))) eqn:E3;
            [exact (Htext t3 E3 H) | discriminate].
      + destruct (find_tag (lit "h2") (fun _ => true) d) as [t2|].
        * destruct (negb (isEmpty (strip (text t2)))) eqn:E2; [exact (Htext t2 E2 H)|].
          destruct (find_tag (lit "h3") (fun _ => true) d) as [t3|]; [|discriminate].
          destruct (negb (isEmpty (strip (text t3)))) eqn:E3;
            [exact (Htext t3 E3 H) | discriminate].
        * destruct (find_tag (lit "h3") (fun _ => true) d) as [t3|]; [|discriminate].
          destruct (negb (isEmpty (strip (text t3)))) eqn:E3;
            [exact (Htext t3 E3 H) | discriminate].
    - destruct (find_tag (lit "h1") (fun _ => true) d) as [t1|].
      + destruct (negb (isEmpty (strip (text t1)))) eqn:E1; [exact (Htext t1 E1 H)|].
        destruct (find_tag (lit "h2") (fun _ => true) d) as [t2|].
        * destruct (negb (isEmpty (strip (text t2)))) eqn:E2; [exact (Htext t2 E2 H)|].
          destruct (find_tag (lit "h3") (fun _ => true) d) as [t3|]; [|discriminate].
          destruct (negb (isEmpty (strip (text t3)))) eqn:E3;
            [exact (Htext t3 E3 H) | discriminate].
        * destruct (find_tag (lit "h3") (fun _ => true) d) as [t3|]; [|discriminate].
          destruct (negb (isEmpty (strip (text t3)))) eqn:E3;
            [exact (Htext t3 E3 H) | discriminate].
      + destruct (find_tag (lit "h2") (fun _ => true) d) as [t2|].
        * destruct (negb (isEmpty (strip (text t2)))) eqn:E2; [exact (Htext t2 E2 H)|].
          destruct (find_tag (lit "h3") (fun _ => true) d) as [t3|]; [|discriminate].
          destruct (negb (isEmpty (strip (text t3)))) eqn:E3;
            [exact (Htext t3 E3 H) | discriminate].
        * destruct (find_tag (lit "h3") (fun _ => true) d) as [t3|]; [|discriminate].
          destruct (negb (isEmpty (strip (text t3)))) eqn:E3;
            [exact (Htext t3 E3 H) | discriminate]. }
  split; [apply Hres | intro He; now destruct Hres].
Qed.
End HeuristicResults.

(** ** Where the price comes from *)

Section PriceSource.
Context {U : Unicode}.

End PriceSource.

(** ** More on the selector applier and the extractor *)

Lemma mem_app (k : str) (l1 l2 : list str) : mem k (l1 ++ l2) = mem k l1 || mem k l2.
Proof.
  induction l1 as [|a l1 IH]; [reflexivity|]. cbn [app mem]. now rewrite IH, orb_assoc.
Qed.

Lemma keys_dict_set_new {V : Type} (d : dict V) (k : str) (v : V) :
  mem k (keys d) = false -> keys (dict_set d k v) = keys d ++ [k].
Proof.
  induction d as [|[k' v'] d IH]; [reflexivity|]. cbn [keys List.map fst mem dict_set].
  intro H. apply orb_false_iff in H as [Hk Hd]. rewrite Hk. cbn [List.map fst app].
  f_equal. now apply IH.
Qed.

Lemma distinct_app_cons (l1 : list str) (k : str) (l2 : list str) :
  distinct (l1 ++ k :: l2) = true ->
  mem k l1 = false /\ distinct ((l1 ++ [k]) ++ l2) = true.
Proof.
  induction l1 as [|a l1 IH]; cbn [app distinct mem].
  - intro H. now split.
  - intro H. apply andb_true_iff in H as [Ha Hd]. destruct (IH Hd) as [Hk Hd'].
    apply negb_true_iff in Ha. rewrite mem_app in Ha. apply orb_false_iff in Ha as [Ha1 Ha2].
    cbn [mem] in Ha2. apply orb_false_iff in Ha2 as [Hak Ha2].
    split.
    + apply orb_false_iff. split; [|exact Hk].
      apply str_eqb_neq. apply str_eqb_neq in Hak. congruence.
    + apply andb_true_iff. split; [|exact Hd'].
      apply negb_true_iff. rewrite !mem_app. cbn [mem]. now rewrite Ha1, Hak, Ha2.
Qed.

Section SelectorFacts.
Context {U : Unicode}.
Variable parse : str -> soup.
Variable select_one : soup -> value -> outcome (option node).

Lemma store_results_keys (d : soup) (items : dict value) :
  forall acc,
    distinct (keys acc ++ keys items) = true ->
    keys (store_results select_one d items acc) = keys acc ++ keys items.
Proof.
  induction items as [|[field selector] items IH]; intros acc Hd.
  - cbn. now rewrite app_nil_r.
  - change (store_results select_one d ((field, selector) :: items) acc)
      with (store_results select_one d items
              (dict_set acc field (selector_result select_one d selector))).
    change (keys ((field, selector) :: items)) with (field :: keys items) in *.
    destruct (distinct_app_cons _ _ _ Hd) as [Hnew Hd'].
    rewrite IH; rewrite (keys_dict_set_new _ _ _ Hnew); [now rewrite <- app_assoc | exact Hd'].
Qed.

(** X9: for a selector map without a repeated key, [apply_selectors]
    returns a dictionary with the keys of the map, each once and in the
    order of the map: no field is dropped and none is added. *)
Theorem apply_selectors_keeps_keys (d : soup) (mapping : dict value) :
  well_formed mapping ->
  exists results,
    outcome_of (apply_selectors select_one d mapping) = Returned results /\
    keys results = keys mapping /\ well_formed results.
Proof.
  intro Hwf. exists (store_results select_one d mapping []).
  rewrite apply_selectors_run. split; [reflexivity|].
  assert (Hk : keys (store_results select_one d mapping []) = keys mapping)
    by (now apply (store_results_keys d mapping [])).
  split; [exact Hk|]. unfold well_formed. now rewrite Hk.
Qed.

(** X10: when every selector the map has for the three fields comes to
    nothing, being empty, refused by the engine, without a match, or
    matching a tag without text, [extract_from_html] returns the record it
    returns for no selector map at all. *)
Theorem extract_degrades_to_heuristics (clock html : str) (mapping : dict value) :
  well_formed mapping ->
  (forall field selector,
      In field field_names -> dict_get mapping field = Some selector ->
      present (selector_result select_one (parse html) selector) = false) ->
  outcome_of (extract_from_html parse select_one clock html mapping)
  = outcome_of (extract_from_html parse select_one clock html []).
Proof.
  intros Hwf Hnone. rewrite !extract_from_html_run. cbn [outcome_of fst].
  assert (Hf : forall h field,
             In field field_names ->
             field_or h (parse html) (store_results select_one (parse html) mapping []) field
             = field_or h (parse html) (store_results select_one (parse html) [] []) field).
  { intros h field Hin. unfold field_or, get_text_field.
    rewrite store_results_get, (last_binding_well_formed _ _ Hwf). cbn [store_results fold_left].
    destruct (dict_get mapping field) as [selector|] eqn:Hget; [|reflexivity].
    rewrite (Hnone field selector Hin Hget). reflexivity. }
  rewrite (Hf infer_title (lit "title")) by (now left).
  rewrite (Hf infer_price (lit "price")) by (right; now left).
  rewrite (Hf infer_availability (lit "availability")) by (right; right; now left).
  reflexivity.
Qed.
End SelectorFacts.

(** ** More on the suggestion client *)

Lemma find_from_here (sub x : str) (k : Z) : startswith sub x = true -> find_from sub x k = k.
Proof. intro H. destruct x; simpl in *; now rewrite H. Qed.

Lemma find_from_skip (a : char) (sub' pre x : str) :
  (forall c, In c pre -> c <> a) ->
  forall k, find_from (a :: sub') (pre ++ x) k = find_from (a :: sub') x (k + Z.of_nat (length pre)).
Proof.
  induction pre as [|c pre IH]; intros Hpre k.
  - cbn [app length]. f_equal. lia.
  - cbn [app find_from startswith].
    destruct (char_eqb a c) eqn:E.
    + apply N.eqb_eq in E. exfalso. apply (Hpre c); [now left | congruence].
    + cbn [andb]. rewrite IH by (intros; apply Hpre; now right).
      f_equal. cbn [length]. lia.
Qed.

Lemma startswith_self (sub rest : str) : startswith sub (sub ++ rest) = true.
Proof.
  induction sub as [|a sub IH]; [reflexivity|]. cbn [app startswith].
  unfold char_eqb. now rewrite N.eqb_refl.
Qed.

Lemma startswith_shorter (a b x : str) : startswith (a ++ b) x = true -> startswith a x = true.
Proof.
  revert x. induction a as [|c a IH]; intros x; [reflexivity|].
  destruct x as [|e x]; cbn [app startswith]; [discriminate|].
  intro H. apply andb_true_iff in H as [-> H]. now apply IH.
Qed.

(** Where the first character of [sub] does not occur in [pre], the first
    occurrence of [sub] in [pre ++ sub ++ rest] is right after [pre]. *)
Lemma find_after (a : char) (sub' pre rest : str) :
  (forall c, In c pre -> c <> a) ->
  find (a :: sub') (pre ++ (a :: sub') ++ rest) = Z.of_nat (length pre).
Proof.
  intro Hpre. unfold find. rewrite (find_from_skip a sub' pre _ Hpre).
  rewrite find_from_here by apply startswith_self. lia.
Qed.

Lemma no_fence_no_json_fence (x : str) : contains fence x = false -> contains json_fence x = false.
Proof.
  unfold contains, find. intro H. apply Z.leb_gt in H. apply Z.leb_gt.
  destruct (find_from_spec fence x 0) as [[_ Hno] | (n & Hn & _)]; [|lia].
  destruct (find_from_spec json_fence x 0) as [[-> _] | (n & _ & Hs & _)]; [lia|].
  change json_fence with (fence ++ lit "json") in Hs.
  apply startswith_shorter in Hs. rewrite Hno in Hs. discriminate.
Qed.

(** X11: [strip_code_fence] never fails; a text without three backticks
    in a row comes back as it is; and from a text that has, after a lead
    without backticks, the json fence, a body without backticks and the
    closing fence, it returns the body stripped, whatever follows. *)
Theorem strip_code_fence_unwraps :
  (forall x, exists y, strip_code_fence x = (Returned y, [])) /\
  (forall x, contains fence x = false -> strip_code_fence x = (Returned x, [])) /\
  (forall lead body tail,
      (forall c, In c lead -> c <> backtick) -> (forall c, In c body -> c <> backtick) ->
      strip_code_fence (lead ++ json_fence ++ body ++ fence ++ tail)
      = (Returned (strip body), [])).
Proof.
  split; [|split].
  - intro x. unfold strip_code_fence, inside_fence, split1, contains.
    destruct (0 <=? find json_fence x) eqn:Ej; [now eexists|].
    destruct (0 <=? find fence x) eqn:Ef; now eexists.
  - intros x Hx. unfold strip_code_fence.
    now rewrite (no_fence_no_json_fence x Hx), Hx.
  - intros lead body tail Hlead Hbody. unfold strip_code_fence, inside_fence, split1, contains.
    set (rest := body ++ fence ++ tail).
    assert (Hj : find json_fence (lead ++ json_fence ++ rest) = Z.of_nat (length lead))
      by (apply (find_after backtick); exact Hlead).
    rewrite Hj. destruct (0 <=? Z.of_nat (length lead)) eqn:E; [|apply Z.leb_gt in E; lia].
    cbn [snd]. rewrite Nat2Z.id.
    replace (skipn (length lead + length json_fence) (lead ++ json_fence ++ rest)) with rest
      by (rewrite app_assoc, <- length_app; now rewrite drop_app_length).
    assert (Hf : find fence rest = Z.of_nat (length body))
      by (apply (find_after backtick); exact Hbody).
    rewrite Hf. destruct (0 <=? Z.of_nat (length body)) eqn:E'; [|apply Z.leb_gt in E'; lia].
    cbn [fst]. rewrite Nat2Z.id. unfold rest. now rewrite take_app_length.
Qed.

Section ClientFacts.
Variable genai_installed : bool.
Variable generate_content : str -> str -> str -> outcome (option str).
Variable json_loads : str -> outcome value.

Lemma attempt_trace (key prompt model_name : str) :
  backend_calls (trace_of (attempt generate_content json_loads key prompt model_name))
  = [model_name] /\
  prompts_sent (trace_of (attempt generate_content json_loads key prompt model_name))
  = [prompt].
Proof.
  unfold attempt, call_generate_content.
  destruct (generate_content key model_name prompt) as [[answer|]|e]; try (now split).
  cbn [bind ret app]. destruct (isEmpty (strip answer)); [now split|].
  cbn [bind ret raise app].
  pose proof (strip_code_fence_trace (strip answer)) as Ht.
  destruct (strip_code_fence (strip answer)) as [[inner|e] tr];
    cbn [trace_of snd] in Ht; subst tr; [|now split].
  cbn [bind app]. destruct (json_loads inner) as [v|e]; [|now split].
  destruct v as [| b | z | f | x | l | parsed_]; try (now split).
  destruct (List.existsb (has_key parsed_) field_names); now split.
Qed.

Lemma prompts_sent_app (t1 t2 : list event) :
  prompts_sent (t1 ++ t2) = prompts_sent t1 ++ prompts_sent t2.
Proof.
  induction t1 as [|ev t1 IH]; [reflexivity|]. destruct ev; simpl; now rewrite IH.
Qed.

(** The loop calls the models it was given from the first on, each with
    the one prompt; a mapping it returns was accepted for the last model
    it called. *)
Lemma models_loop_calls (key prompt : str) (models : list str) :
  forall errors,
    exists called rest r tr,
      models_loop generate_content json_loads key prompt models errors = (Returned r, tr) /\
      models = called ++ rest /\ backend_calls tr = called /\
      prompts_sent tr = List.map (fun _ => prompt) called /\
      match fst r with
      | Some parsed =>
          exists before m, called = before ++ [m] /\
            outcome_of (attempt generate_content json_loads key prompt m) = Returned parsed
      | None => rest = []
      end.
Proof.
  induction models as [|m models IH]; intro errors.
  - exists [], [], (None, errors), []. now repeat split.
  - rewrite models_loop_step.
    destruct (attempt_trace key prompt m) as [Hc Hp].
    destruct (outcome_of (attempt generate_content json_loads key prompt m)) as [parsed|e] eqn:E.
    + exists [m], models, (Some parsed, errors),
        (trace_of (attempt generate_content json_loads key prompt m)).
      repeat split; try assumption. cbn [fst]. now exists [], m.
    + destruct (IH (dict_set errors m (exn_message e)))
        as (called & rest & r & tr & Hrun & -> & Hcalls & Hprompts & Hlast).
      exists (m :: called), rest, r,
        (trace_of (attempt generate_content json_loads key prompt m) ++ tr).
      rewrite Hrun. cbn [fst snd]. split; [reflexivity|]. split; [reflexivity|].
      rewrite backend_calls_app, prompts_sent_app, Hc, Hp, Hcalls, Hprompts.
      split; [reflexivity|]. split; [reflexivity|].
      destruct (fst r) as [parsed|]; [|exact Hlast].
      destruct Hlast as (before & m' & -> & Hok). now exists (m :: before), m'.
Qed.

(** X12: whatever the backend does, [llm_infer_selectors] calls the
    models of [models_to_try] from the first on without a gap and none
    twice, at most four calls, and every call carries the same prompt,
    which holds the fixed instructions and no more than the first 6000
    characters of the page. *)
Theorem llm_infer_selectors_calls (html : str) (api_key : option str) :
  exists called rest,
    models_to_try = called ++ rest /\
    backend_calls (trace_of (llm_infer_selectors genai_installed generate_content json_loads
                               html api_key)) = called /\
    (length called <= 4)%nat /\
    prompts_sent (trace_of (llm_infer_selectors genai_installed generate_content json_loads
                              html api_key))
    = List.map (fun _ => prompt_of html) called /\
    prompt_of html = prompt_of [] ++ slice 0 6000 html /\
    Z.of_nat (length (prompt_of html)) <= Z.of_nat (length (prompt_of [])) + 6000.
Proof.
  assert (Hprompt : prompt_of html = prompt_of [] ++ slice 0 6000 html).
  { unfold prompt_of. replace (slice 0 6000 []) with (@nil char) by (now unfold slice).
    now rewrite !app_nil_r, <- !app_assoc. }
  assert (Hlen : Z.of_nat (length (prompt_of html))
                 <= Z.of_nat (length (prompt_of [])) + 6000).
  { rewrite Hprompt, length_app. unfold slice. rewrite length_firstn. lia. }
  assert (Hoff : forall msg : str,
             exists called rest,
               models_to_try = called ++ rest /\
               backend_calls (trace_of ((emit (Print msg) ;; ret []) : Py (dict value))) = called /\
               (length called <= 4)%nat /\
               prompts_sent (trace_of ((emit (Print msg) ;; ret []) : Py (dict value)))
               = List.map (fun _ => prompt_of html) called /\
               prompt_of html = prompt_of [] ++ slice 0 6000 html /\
               Z.of_nat (length (prompt_of html)) <= Z.of_nat (length (prompt_of [])) + 6000).
  { intro msg. exists [], models_to_try. repeat split; try assumption. cbn. lia. }
  unfold llm_infer_selectors.
  destruct (present api_key); cbn [negb]; [|apply Hoff].
  destruct genai_installed; cbn [negb]; [|apply Hoff].
  destruct (models_loop_calls (match api_key with Some k => k | None => [] end)
              (prompt_of html) models_to_try [])
    as (called & rest & r & tr & Hrun & Hsplit & Hcalls & Hprompts & _).
  exists called, rest. rewrite Hrun, bind_returned. cbn [trace_of snd].
  assert (Hfour : (length called <= 4)%nat).
  { apply (f_equal (@length str)) in Hsplit. rewrite length_app in Hsplit.
    change (length models_to_try) with 4%nat in Hsplit. lia. }
  destruct (fst r) as [parsed|].
  - cbn [ret snd]. rewrite app_nil_r. now repeat split.
  - destruct (snd r) as [|item errors]; cbn [bind ret emit snd app];
      rewrite ?backend_calls_app, ?prompts_sent_app; cbn [backend_calls prompts_sent];
      rewrite ?app_nil_r; now repeat split.
Qed.

(** X13: [llm_infer_selectors] returns either the empty mapping or a
    mapping that has one of the keys title, price, availability and that
    was accepted for the last model called; it returns nothing else. *)
Theorem llm_infer_selectors_result (html : str) (api_key : option str) :
  exists result,
    outcome_of (llm_infer_selectors genai_installed generate_content json_loads html api_key)
    = Returned result /\
    (result = [] \/
     (List.existsb (has_key result) field_names = true /\
      exists key before m,
        api_key = Some key /\
        backend_calls (trace_of (llm_infer_selectors genai_installed generate_content
                                   json_loads html api_key)) = before ++ [m] /\
        outcome_of (attempt generate_content json_loads key (prompt_of html) m)
        = Returned result)).
Proof.
  unfold llm_infer_selectors.
  destruct (present api_key) eqn:Hkey; cbn [negb]; [|exists []; split; [reflexivity | now left]].
  destruct genai_installed; cbn [negb]; [|exists []; split; [reflexivity | now left]].
  destruct api_key as [key|]; [|discriminate].
  destruct (models_loop_calls key (prompt_of html) models_to_try [])
    as (called & rest & r & tr & Hrun & Hsplit & Hcalls & Hprompts & Hlast).
  rewrite Hrun, bind_returned. cbn [outcome_of trace_of fst snd].
  destruct (fst r) as [parsed|].
  - exists parsed. split; [reflexivity|]. right.
    destruct Hlast as (before & m & -> & Hok). split.
    + destruct (attempt_run generate_content json_loads key (prompt_of html) m) as [_ Hiff].
      apply Hiff in Hok as (answer & inner & _ & _ & _ & _ & Hk). exact Hk.
    + exists key, before, m. cbn [ret snd]. rewrite app_nil_r. now repeat split.
  - exists []. split; [|now left].
    now destruct (snd r).
Qed.
End ClientFacts.

(** ** The Run Extraction handler *)

Lemma merge_items_nil (fields : list str) (d : dict value) : merge_items [] fields d = d.
Proof. induction fields as [|key fields IH]; [reflexivity|]. cbn. exact IH. Qed.

Lemma merge_loop_items (inferred : dict value) (mapping : nat) (fields : list str) :
  forall h : store,
    deref (merge_loop inferred fields h mapping) mapping
    = merge_items inferred fields (deref h mapping).
Proof.
  induction fields as [|key fields IH]; intro h; [reflexivity|].
  cbn [merge_loop merge_items].
  destruct (truthy (get inferred key) && negb (truthy (get (deref h mapping) key))).
  - now rewrite IH, deref_setitem.
  - apply IH.
Qed.

Lemma stays_local_app (use_live suggestions : bool) (evs evs' : list handler_event) :
  stays_local use_live suggestions evs -> stays_local use_live suggestions evs' ->
  stays_local use_live suggestions (evs ++ evs').
Proof.
  intros H H' Hoff. destruct (H Hoff) as [H1 H2]. destruct (H' Hoff) as [H1' H2'].
  rewrite !List.existsb_app, H1, H1'. split; [reflexivity|].
  intro Hs. now rewrite (H2 Hs), (H2' Hs).
Qed.

Lemma stays_local_inner (use_live suggestions : bool) (t : list event) :
  (suggestions = false -> backend_calls t = []) ->
  stays_local use_live suggestions (List.map Inner t).
Proof.
  intros Ht _. split.
  - clear Ht. induction t as [|e t IH]; [reflexivity | exact IH].
  - intro Hs. specialize (Ht Hs). induction t as [|e t IH]; [reflexivity|].
    destruct e; cbn [backend_calls] in Ht; try discriminate; exact (IH Ht).
Qed.

Lemma stays_local_live (suggestions : bool) (evs : list handler_event) :
  stays_local true suggestions evs.
Proof. intro H. discriminate. Qed.

Lemma backend_calls_evaluations (mapping : dict value) : backend_calls (evaluations mapping) = [].
Proof.
  unfold evaluations.
  induction (List.filter truthy (List.map snd mapping)) as [|v l IH]; [reflexivity | exact IH].
Qed.

Lemma backend_calls_heuristic (selected : dict (option str)) (field : str) :
  backend_calls (heuristic_events selected field) = [].
Proof. unfold heuristic_events. now destruct (present (get_text_field selected field)). Qed.

Section HandlerRun.
Context {U : Unicode}.
Variable requests_get : str -> Z -> dict str -> outcome response.
Variable snapshot_to_db : str -> str -> str -> outcome unit.
Variable parse : str -> soup.
Variable select_one : soup -> value -> outcome (option node).
Variable genai_installed : bool.
Variable generate_content : str -> str -> str -> outcome (option str).
Variable json_loads : str -> outcome value.
Variable GEMINI_API_KEY : option str.
Variable utcnow : nat -> str.
Variable use_live use_llm_inference db_save show_raw_html : bool.
Variable mapping_input : nat.

Abbreviation suggested_for_ :=
  (suggested_for genai_installed generate_content json_loads GEMINI_API_KEY use_llm_inference).
Abbreviation extract_and_append_ :=
  (extract_and_append parse select_one genai_installed generate_content json_loads
     GEMINI_API_KEY utcnow use_llm_inference mapping_input).
Abbreviation process_input_ :=
  (process_input requests_get snapshot_to_db parse select_one genai_installed generate_content
     json_loads GEMINI_API_KEY utcnow use_live use_llm_inference db_save show_raw_html
     mapping_input).
Abbreviation run_inputs_ :=
  (run_inputs requests_get snapshot_to_db parse select_one genai_installed generate_content
     json_loads GEMINI_API_KEY utcnow use_live use_llm_inference db_save show_raw_html
     mapping_input).
Abbreviation page_of_ := (page_of requests_get snapshot_to_db use_live db_save).
Abbreviation record_alone_ :=
  (record_alone parse select_one genai_installed generate_content json_loads GEMINI_API_KEY
     utcnow use_llm_inference).
Abbreviation records_alone_ :=
  (records_alone requests_get snapshot_to_db parse select_one genai_installed generate_content
     json_loads GEMINI_API_KEY utcnow use_live use_llm_inference db_save).

(** The merge leaves a new object with the items of the caller's map
    merged with the suggestions, and every other object as it was. *)
Lemma effective_mapping_run (h : store) (caller : dict value) (html : str) :
  h !! mapping_input = Some caller ->
  exists h' mapping t,
    effective_mapping genai_installed generate_content json_loads GEMINI_API_KEY
      h mapping_input use_llm_inference html = (Returned (h', mapping), t) /\
    h !! mapping = None /\
    (forall l, l <> mapping -> h' !! l = h !! l) /\
    deref h' mapping = merge_items (suggested_for_ html) field_names caller /\
    (use_llm_inference && present GEMINI_API_KEY = false -> t = []).
Proof.
  intro Hcaller.
  set (l' := fresh (dom h)).
  assert (Hfresh : h !! l' = None) by (apply not_elem_of_dom, is_fresh).
  set (h1 := <[l' := caller]> h).
  assert (Hcopy : dict_copy h mapping_input = (h1, l'))
    by (unfold dict_copy, deref; now rewrite Hcaller).
  assert (Hderef : deref h1 l' = caller) by (unfold deref, h1; now rewrite lookup_insert_eq).
  assert (Hkeep : forall l, l <> l' -> h1 !! l = h !! l)
    by (intros l Hl; unfold h1; now rewrite lookup_insert_ne).
  unfold effective_mapping, suggested_for. rewrite Hcopy.
  destruct (use_llm_inference && present GEMINI_API_KEY).
  - destruct (llm_infer_selectors_returns genai_installed generate_content json_loads
                html GEMINI_API_KEY) as (result & tr & Hr).
    rewrite Hr. cbn [outcome_of fst].
    destruct result as [|item result].
    + exists h1, l'. eexists. split; [reflexivity|]. split; [exact Hfresh|].
      split; [exact Hkeep|]. split; [now rewrite merge_items_nil | discriminate].
    + exists (merge_loop (item :: result) field_names h1 l'), l'. eexists.
      split; [reflexivity|]. split; [exact Hfresh|]. split; [|split].
      * intros l Hl. rewrite merge_loop_other by exact Hl. now apply Hkeep.
      * now rewrite merge_loop_items, Hderef.
      * discriminate.
  - exists h1, l'. eexists. split; [reflexivity|]. split; [exact Hfresh|].
    split; [exact Hkeep|]. split; [now rewrite merge_items_nil | reflexivity].
Qed.

Lemma extract_and_append_run (w : world) (caller : dict value) (html src : str) :
  objects w !! mapping_input = Some caller ->
  exists h' t,
    extract_and_append_ w html src
    = (Returned tt,
       {| objects := h';
          results := results w ++ record_alone_ caller (ticks w) html src;
          happened := happened w ++ List.map Inner t;
          ticks := S (ticks w) |}) /\
    (forall l, is_Some (objects w !! l) -> h' !! l = objects w !! l) /\
    (use_llm_inference && present GEMINI_API_KEY = false -> backend_calls t = []).
Proof.
  intro Hc.
  destruct (effective_mapping_run (objects w) caller html Hc)
    as (h' & mapping & t & Hrun & Hfresh & Hkeep & Hd & Ht).
  unfold extract_and_append, record_alone. rewrite Hrun, Hd, !extract_from_html_run.
  cbn [outcome_of fst]. exists h'. eexists. split; [reflexivity|]. split.
  - intros l [d Hl]. apply Hkeep. intros ->. congruence.
  - intro Hoff. rewrite (Ht Hoff). cbn [app].
    now rewrite !backend_calls_app, backend_calls_evaluations, !backend_calls_heuristic.
Qed.

(** One round of the loop: it goes on to the next input, adds the record
    the page yields on its own if the input brings a page, and leaves the
    objects there were as they were. *)
Lemma process_input_run (w : world) (caller : dict value) (inp : input) :
  objects w !! mapping_input = Some caller ->
  exists h' evs,
    process_input_ w inp
    = (Returned tt,
       {| objects := h';
          results := results w ++ match page_of_ inp with
                                  | Some (html, src) => record_alone_ caller (ticks w) html src
                                  | None => []
                                  end;
          happened := happened w ++ evs;
          ticks := match page_of_ inp with Some _ => S (ticks w) | None => ticks w end |}) /\
    (forall l, is_Some (objects w !! l) -> h' !! l = objects w !! l) /\
    stays_local use_live (use_llm_inference && present GEMINI_API_KEY) evs.
Proof.
  intro Hc.
  assert (Hskip : forall evs,
             stays_local use_live (use_llm_inference && present GEMINI_API_KEY) evs ->
             exists h' evs',
               (Returned tt, log w evs)
               = (Returned tt,
                  {| objects := h'; results := results w ++ []; happened := happened w ++ evs';
                     ticks := ticks w |}) /\
               (forall l, is_Some (objects w !! l) -> h' !! l = objects w !! l) /\
               stays_local use_live (use_llm_inference && present GEMINI_API_KEY) evs').
  { intros evs Hevs. exists (objects w), evs. unfold log. rewrite app_nil_r.
    split; [reflexivity|]. split; [reflexivity | exact Hevs]. }
  assert (Hpage : forall evs html src,
             stays_local use_live (use_llm_inference && present GEMINI_API_KEY) evs ->
             exists h' evs',
               extract_and_append_ (log w evs) html src
               = (Returned tt,
                  {| objects := h';
                     results := results w ++ record_alone_ caller (ticks w) html src;
                     happened := happened w ++ evs';
                     ticks := S (ticks w) |}) /\
               (forall l, is_Some (objects w !! l) -> h' !! l = objects w !! l) /\
               stays_local use_live (use_llm_inference && present GEMINI_API_KEY) evs').
  { intros evs html src Hevs.
    destruct (extract_and_append_run (log w evs) caller html src Hc)
      as (h' & t & -> & Hk & Ht).
    exists h', (evs ++ List.map Inner t). cbn [log objects results happened ticks].
    rewrite <- app_assoc. split; [reflexivity|]. split; [exact Hk|].
    apply stays_local_app; [exact Hevs | now apply stays_local_inner]. }
  assert (Hnil : stays_local use_live (use_llm_inference && present GEMINI_API_KEY) [])
    by (intros _; now split).
  assert (Hw : forall html src,
             extract_and_append_ w html src = extract_and_append_ (log w []) html src).
  { intros html src. unfold log. rewrite app_nil_r. now destruct w. }
  destruct inp as [url|name html|name html]; cbn [process_input page_of].
  - destruct use_live; cbn [negb].
    + destruct (fetch_html requests_get url 10 None) as [[[final_url html]|e] t];
        cbn [fst]; [|apply Hskip, stays_local_live].
      destruct db_save.
      * destruct (snapshot_to_db DB_PATH final_url html); [|apply Hskip, stays_local_live].
        apply Hpage, stays_local_live.
      * apply Hpage, stays_local_live.
    + apply Hskip. intros _. now split.
  - rewrite Hw. now apply Hpage.
  - rewrite Hw. now apply Hpage.
Qed.

(** The whole loop. *)
Lemma run_inputs_run (caller : dict value) (inputs : list input) :
  forall w : world,
    objects w !! mapping_input = Some caller ->
    exists w' evs,
      run_inputs_ w inputs = (Returned tt, w') /\
      results w' = results w ++ records_alone_ caller (ticks w) inputs /\
      happened w' = happened w ++ evs /\
      stays_local use_live (use_llm_inference && present GEMINI_API_KEY) evs /\
      (forall l, is_Some (objects w !! l) -> objects w' !! l = objects w !! l).
Proof.
  induction inputs as [|inp inputs IH]; intros w Hc.
  - exists w, []. cbn [run_inputs records_alone]. rewrite !app_nil_r.
    split; [reflexivity|]. split; [reflexivity|]. split; [reflexivity|].
    split; [intros _; now split | reflexivity].
  - destruct (process_input_run w caller inp Hc) as (h1 & evs1 & Hstep & Hk1 & Hl1).
    cbn [run_inputs records_alone]. rewrite Hstep.
    match goal with
    | |- context [run_inputs _ _ _ _ _ _ _ _ _ _ _ _ _ _ ?w1 inputs] => set (w1_ := w1)
    end.
    assert (Hc1 : objects w1_ !! mapping_input = Some caller).
    { cbn [w1_ objects]. rewrite Hk1; [exact Hc | now rewrite Hc]. }
    destruct (IH w1_ Hc1) as (w' & evs & Hrun & Hres & Hhap & Hl & Hk).
    exists w', (evs1 ++ evs). split; [exact Hrun|]. split; [|split; [|split]].
    + rewrite Hres. cbn [w1_ results ticks].
      destruct (page_of_ inp) as [[html src]|]; now rewrite <- app_assoc.
    + rewrite Hhap. cbn [w1_ happened]. now rewrite app_assoc.
    + now apply stays_local_app.
    + intros l Hsome. rewrite Hk; cbn [w1_ objects]; [now apply Hk1 | now rewrite Hk1].
Qed.

Lemma record_alone_one (caller : dict value) (tick : nat) (html src : str) :
  exists r, record_alone_ caller tick html src = [r] /\
            keys r = field_names ++ [lit "extraction_timestamp"; lit "_source"] /\
            dict_get r (lit "_source") = Some (VStr src).
Proof.
  unfold record_alone. rewrite extract_from_html_run. cbn [outcome_of fst].
  eexists. split; [reflexivity|]. split; reflexivity.
Qed.

Lemma records_alone_local (caller : dict value) (inputs : list input) :
  use_live = false ->
  forall tick, length (records_alone_ caller tick inputs)
               = length (List.filter (fun inp => negb (is_url inp)) inputs).
Proof.
  intro Hoff. induction inputs as [|inp inputs IH]; intro tick; [reflexivity|].
  cbn [records_alone List.filter].
  destruct inp as [url|name html|name html]; cbn [page_of is_url negb].
  - destruct (negb use_live) eqn:E; [apply IH | rewrite Hoff in E; discriminate].
  - destruct (record_alone_one caller tick html name) as (r & -> & _).
    cbn [app length]. now rewrite IH.
  - destruct (record_alone_one caller tick html name) as (r & -> & _).
    cbn [app length]. now rewrite IH.
Qed.

Lemma records_alone_sources (caller : dict value) (inputs : list input) :
  forall tick r,
    In r (records_alone_ caller tick inputs) ->
    keys r = field_names ++ [lit "extraction_timestamp"; lit "_source"] /\
    exists inp html src,
      In inp inputs /\ page_of_ inp = Some (html, src) /\
      dict_get r (lit "_source") = Some (VStr src).
Proof.
  induction inputs as [|inp inputs IH]; intros tick r Hr; [destruct Hr|].
  cbn [records_alone] in Hr.
  destruct (page_of_ inp) as [[html src]|] eqn:Ep.
  - destruct (record_alone_one caller tick html src) as (r0 & E & Hkeys & Hsrc).
    rewrite E in Hr. destruct Hr as [<-|Hr].
    + split; [exact Hkeys|]. exists inp, html, src. split; [now left | now split].
    + destruct (IH _ _ Hr) as (Hk & inp' & html' & src' & Hin & Hp & Hs).
      split; [exact Hk|]. exists inp', html', src'. split; [now right | now split].
  - destruct (IH _ _ Hr) as (Hk & inp' & html' & src' & Hin & Hp & Hs).
    split; [exact Hk|]. exists inp', html', src'. split; [now right | now split].
Qed.


(** X15: the records of a run are the records of its pages taken one by
    one.  The results after the loop are the results before it followed,
    in the order of the inputs, by the record each page yields on its own
    from the caller's selector map merged with the suggestions for that
    page alone, with the time the n-th extraction reads and the page's
    source stored under [_source]; an input that brings no page (a URL
    with live fetch off, a failed fetch, a failed write to the database)
    adds nothing.  So neither the pages before nor the suggestions made
    for them change the record of a page. *)
Theorem run_inputs_records (w : world) (caller : dict value) (inputs : list input) :
  objects w !! mapping_input = Some caller ->
  exists w',
    run_inputs_ w inputs = (Returned tt, w') /\
    results w' = results w ++ records_alone_ caller (ticks w) inputs.
Proof.
  intro Hc. destruct (run_inputs_run caller inputs w Hc) as (w' & evs & Hrun & Hres & _).
  now exists w'.
Qed.

(** X16: with live fetch off no page is requested and nothing is
    written to the database, whatever the inputs and the other options
    are; every URL is skipped and every uploaded file and snapshot gives
    exactly one record. *)
Theorem run_inputs_without_live_fetch (w : world) (caller : dict value) (inputs : list input) :
  use_live = false ->
  objects w !! mapping_input = Some caller ->
  exists w' evs,
    run_inputs_ w inputs = (Returned tt, w') /\
    happened w' = happened w ++ evs /\
    List.existsb fetches_or_saves evs = false /\
    length (results w')
    = (length (results w) + length (List.filter (fun inp => negb (is_url inp)) inputs))%nat.
Proof.
  intros Hoff Hc.
  destruct (run_inputs_run caller inputs w Hc) as (w' & evs & Hrun & Hres & Hhap & Hl & _).
  exists w', evs. split; [exact Hrun|]. split; [exact Hhap|].
  split; [exact (proj1 (Hl Hoff))|].
  now rewrite Hres, length_app, records_alone_local.
Qed.

(** X21: with live fetch off and the suggestions off, or with no
    credential in the environment, a run uses no network at all: no page
    is requested and the suggestion backend is not called, whatever the
    inputs and the selector map are.  The extraction itself never calls
    out. *)
Theorem run_inputs_offline (w : world) (caller : dict value) (inputs : list input) :
  use_live = false ->
  use_llm_inference && present GEMINI_API_KEY = false ->
  objects w !! mapping_input = Some caller ->
  exists w' evs,
    run_inputs_ w inputs = (Returned tt, w') /\
    happened w' = happened w ++ evs /\
    List.existsb uses_network evs = false.
Proof.
  intros Hoff Hs Hc.
  destruct (run_inputs_run caller inputs w Hc) as (w' & evs & Hrun & _ & Hhap & Hl & _).
  exists w', evs. split; [exact Hrun|]. split; [exact Hhap|].
  exact (proj2 (Hl Hoff) Hs).
Qed.

(** X17: every record of a run names its source.  A record the loop
    adds has the keys title, price, availability, extraction_timestamp
    and [_source] in this order, and its [_source] is the source of one
    of the inputs that brought a page: the name of the file or snapshot,
    or the final address of the fetch. *)
Theorem run_inputs_sources (w : world) (caller : dict value) (inputs : list input) :
  objects w !! mapping_input = Some caller ->
  exists w',
    run_inputs_ w inputs = (Returned tt, w') /\
    forall r, In r (results w') ->
      In r (results w) \/
      (keys r = field_names ++ [lit "extraction_timestamp"; lit "_source"] /\
       exists inp html src,
         In inp inputs /\ page_of_ inp = Some (html, src) /\
         dict_get r (lit "_source") = Some (VStr src)).
Proof.
  intro Hc. destruct (run_inputs_run caller inputs w Hc) as (w' & evs & Hrun & Hres & _).
  exists w'. split; [exact Hrun|]. intros r Hr. rewrite Hres in Hr.
  apply in_app_or in Hr as [Hr|Hr]; [now left | right].
  exact (records_alone_sources caller inputs _ r Hr).
Qed.

(** X18: what the loop does with a URL when live fetch is on.  The first
    thing that happens is the one request for the address, with timeout
    10 and the User-Agent of the extractor.  Then one of three: the
    response came with a status outside 400 to 599, the snapshot of its
    final address and text was written next when saving is on, and after
    that the page was extracted, the record of the text of the response
    with the final address as its source added to the results; or the
    request failed or came back with a status from 400 to 599, an error
    is shown and nothing else happens; or the write to the database
    failed, an error is shown after it and nothing is extracted.  No
    record is added without a response, and the page is never extracted
    before it is saved. *)
Theorem process_url_fetches_first (w : world) (caller : dict value) (url : str) :
  use_live = true ->
  objects w !! mapping_input = Some caller ->
  exists w' after,
    process_input_ w (Url url) = (Returned tt, w') /\
    happened w' = happened w ++ RequestsGet url 10 default_headers :: after /\
    ((exists r t,
         requests_get url 10 default_headers = Returned r /\
         (status_code r < 400 \/ 600 <= status_code r) /\
         (db_save = true ->
          snapshot_to_db DB_PATH (response_url r) (response_text r) = Returned tt) /\
         after = (if db_save
                  then [SnapshotToDb DB_PATH (response_url r) (response_text r)]
                  else [])
                 ++ (if show_raw_html
                     then [Inner (Streamlit (lit "expander")); Inner (Streamlit (lit "code"))]
                     else [])
                 ++ List.map Inner t /\
         results w'
         = results w ++ record_alone_ caller (ticks w) (response_text r) (response_url r))
     \/
     (((exists e, requests_get url 10 default_headers = Raised e) \/
       (exists r, requests_get url 10 default_headers = Returned r /\
                  400 <= status_code r < 600)) /\
      after = [Inner (Streamlit (lit "error"))] /\
      results w' = results w /\ objects w' = objects w)
     \/
     (exists r e,
         requests_get url 10 default_headers = Returned r /\
         (status_code r < 400 \/ 600 <= status_code r) /\
         db_save = true /\
         snapshot_to_db DB_PATH (response_url r) (response_text r) = Raised e /\
         after = [SnapshotToDb DB_PATH (response_url r) (response_text r);
                  Inner (Streamlit (lit "error"))] /\
         results w' = results w /\ objects w' = objects w)).
Proof.
  intros Hlive Hc. cbn [process_input]. rewrite Hlive. cbn [negb]. unfold fetch_html.
  destruct (requests_get url 10 default_headers) as [r|e] eqn:Er.
  - destruct ((400 <=? status_code r) && (status_code r <? 600)) eqn:Es.
    + eexists. eexists. split; [reflexivity|]. split; [reflexivity|]. right. left.
      split; [|now repeat split]. right. exists r. split; [reflexivity|].
      apply andb_true_iff in Es as [E1 E2]. lia.
    + assert (Hstatus : status_code r < 400 \/ 600 <= status_code r)
        by (apply andb_false_iff in Es as [Es|Es]; lia).
      assert (Hgo : forall tdb,
                 exists w' t,
                   extract_and_append_
                     (log w ([RequestsGet url 10 default_headers] ++ tdb
                             ++ (if show_raw_html
                                 then [Inner (Streamlit (lit "expander"));
                                       Inner (Streamlit (lit "code"))]
                                 else [])))
                     (response_text r) (response_url r) = (Returned tt, w') /\
                   happened w'
                   = happened w ++ RequestsGet url 10 default_headers
                       :: tdb ++ (if show_raw_html
                                  then [Inner (Streamlit (lit "expander"));
                                        Inner (Streamlit (lit "code"))]
                                  else []) ++ List.map Inner t /\
                   results w'
                   = results w ++ record_alone_ caller (ticks w) (response_text r)
                                    (response_url r)).
      { intro tdb.
        destruct (extract_and_append_run
                    (log w ([RequestsGet url 10 default_headers] ++ tdb
                            ++ (if show_raw_html
                                then [Inner (Streamlit (lit "expander"));
                                      Inner (Streamlit (lit "code"))]
                                else [])))
                    caller (response_text r) (response_url r) Hc) as (h' & t & -> & _).
        eexists. exists t. split; [reflexivity|]. cbn [log happened results ticks].
        split; [|reflexivity]. now rewrite <- !app_assoc. }
      destruct db_save.
      * destruct (snapshot_to_db DB_PATH (response_url r) (response_text r)) as [[]|e] eqn:Edb.
        -- destruct (Hgo [SnapshotToDb DB_PATH (response_url r) (response_text r)])
             as (w' & t & -> & Hhap & Hres).
           exists w'. eexists. split; [reflexivity|]. split; [exact Hhap|]. left.
           exists r, t. now repeat split.
        -- eexists. eexists. split; [reflexivity|]. split; [reflexivity|]. right. right.
           exists r, e. now repeat split.
      * destruct (Hgo []) as (w' & t & -> & Hhap & Hres).
        exists w'. eexists. split; [reflexivity|]. split; [exact Hhap|]. left.
        exists r, t. split; [reflexivity|]. split; [exact Hstatus|].
        split; [discriminate|]. now split.
  - eexists. eexists. split; [reflexivity|]. split; [reflexivity|]. right. left.
    split; [left; now exists e | now repeat split].
Qed.
End HandlerRun.

(** ** The inputs of a run *)

Lemma existsb_substring (p : char -> bool) (m x : str) :
  substring m x -> List.existsb p x = false -> List.existsb p m = false.
Proof.
  intros (pre & post & ->) H. rewrite !List.existsb_app in H.
  apply orb_false_iff in H as [_ H]. now apply orb_false_iff in H as [H _].
Qed.

Lemma substring_refl (x : str) : substring x x.
Proof. exists [], []. now rewrite app_nil_r. Qed.

Lemma substring_after (m x pre : str) : substring m x -> substring m (pre ++ x).
Proof. intros (u & v & ->). exists (pre ++ u), v. now rewrite <- app_assoc. Qed.

Lemma substring_prefix (m post : str) : substring m (m ++ post).
Proof. now exists [], post. Qed.

(** A line of [splitlines] holds no line boundary and is a piece of the
    text. *)
Lemma splitlines_from_lines (n : nat) :
  forall x line l,
    (length x <= n)%nat ->
    List.existsb is_linebreak line = false ->
    In l (splitlines_from line x) ->
    List.existsb is_linebreak l = false /\ substring l (line ++ x).
Proof.
  induction n as [|n IH]; intros x line l Hn Hline Hl.
  - destruct x; [|cbn in Hn; lia]. cbn [splitlines_from] in Hl.
    destruct line; [destruct Hl|]. destruct Hl as [<-|[]].
    split; [exact Hline | apply substring_prefix].
  - destruct x as [|c x']; cbn [splitlines_from] in Hl.
    { destruct line; [destruct Hl|]. destruct Hl as [<-|[]].
      split; [exact Hline | apply substring_prefix]. }
    cbn [length] in Hn.
    assert (Htail : forall y, (length y <= n)%nat -> In l (splitlines_from [] y) ->
                              forall pre, List.existsb is_linebreak l = false
                                          /\ substring l (pre ++ y)).
    { intros y Hy Hin pre. destruct (IH y [] l Hy eq_refl Hin) as [H1 H2].
      split; [exact H1 | now apply substring_after]. }
    destruct (c =? 13)%N eqn:Ecr.
    + destruct x' as [|c' x''].
      * destruct Hl as [<-|[]]. split; [exact Hline | apply substring_prefix].
      * cbn [length] in Hn. destruct (c' =? 10)%N.
        -- destruct Hl as [<-|Hl]; [split; [exact Hline | apply substring_prefix]|].
           destruct (Htail x'' ltac:(lia) Hl (line ++ [c; c'])) as [H1 H2].
           split; [exact H1|]. now rewrite <- app_assoc in H2.
        -- destruct Hl as [<-|Hl]; [split; [exact Hline | apply substring_prefix]|].
           destruct (Htail (c' :: x'') ltac:(cbn [length]; lia) Hl (line ++ [c])) as [H1 H2].
           split; [exact H1|]. now rewrite <- app_assoc in H2.
    + destruct (is_linebreak c) eqn:Eb.
      * destruct Hl as [<-|Hl]; [split; [exact Hline | apply substring_prefix]|].
        destruct (Htail x' ltac:(lia) Hl (line ++ [c])) as [H1 H2].
        split; [exact H1|]. now rewrite <- app_assoc in H2.
      * destruct (IH x' (line ++ [c]) l ltac:(lia)) as [H1 H2]; [|exact Hl|].
        { rewrite List.existsb_app, Hline. cbn [List.existsb]. now rewrite Eb. }
        split; [exact H1|]. now rewrite <- app_assoc in H2.
Qed.

Lemma url_inputs_lines (urls_text u : str) :
  In (Url u) (url_inputs urls_text) ->
  exists line, In line (splitlines urls_text) /\ u = strip line /\ u <> [].
Proof.
  unfold url_inputs. destruct (isEmpty (strip urls_text)); [intros []|].
  intro H. apply in_flat_map in H as (line & Hline & H). exists line.
  destruct (strip line) as [|c rest] eqn:E; cbn [isEmpty] in H; [destruct H|].
  destruct H as [H|[]]. injection H as <-. now repeat split.
Qed.

(** X19: the addresses a run works on are clean.  Every URL among the
    collected inputs is a piece of the text typed into the text area,
    is not empty, has no white space at either end and holds no line
    boundary of [splitlines]: one line never gives two addresses and a
    blank line gives none. *)
Theorem collected_urls_clean (read_snapshot : str -> outcome str) (urls_text : str)
        (uploaded_files : list (str * str)) (chosen_snapshot : option str)
        (inputs : list input) (u : str) :
  collect_inputs read_snapshot urls_text uploaded_files chosen_snapshot = Returned inputs ->
  In (Url u) inputs ->
  u <> [] /\ trimmed u /\ List.existsb is_linebreak u = false /\ substring u urls_text.
Proof.
  intros Hcollect Hin.
  assert (Hurl : In (Url u) (url_inputs urls_text)).
  { assert (Hfiles : forall extra,
               (forall inp, In inp extra -> is_url inp = false) ->
               In (Url u) (url_inputs urls_text
                           ++ List.map (fun file => Upload (fst file) (snd file)) uploaded_files
                           ++ extra) ->
               In (Url u) (url_inputs urls_text)).
    { intros extra Hextra H. apply in_app_or in H as [H|H]; [exact H|].
      apply in_app_or in H as [H|H].
      - apply in_map_iff in H as (file & H & _). discriminate.
      - apply Hextra in H. discriminate. }
    unfold collect_inputs in Hcollect.
    destruct chosen_snapshot as [name|].
    - destruct (negb (isEmpty name) && negb (str_eqb name (lit "(none)"))).
      + destruct (read_snapshot name) as [html|e]; [|discriminate].
        injection Hcollect as <-. rewrite <- app_assoc in Hin.
        apply (Hfiles [Snapshot name html]); [|exact Hin].
        now intros inp [<-|[]].
      + injection Hcollect as <-. apply (Hfiles []); [intros inp []|].
        now rewrite app_nil_r.
    - injection Hcollect as <-. apply (Hfiles []); [intros inp []|].
      now rewrite app_nil_r. }
  apply url_inputs_lines in Hurl as (line & Hline & -> & Hne).
  destruct (splitlines_from_lines (length urls_text) urls_text [] line (le_n _) eq_refl Hline)
    as [Hbreak Hsub].
  split; [exact Hne|]. split; [apply strip_strip|]. split.
  - exact (existsb_substring _ _ _ (strip_substring line) Hbreak).
  - exact (substring_trans _ _ _ (strip_substring line) Hsub).
Qed.


(** ** The properties at work on the example pages *)

Lemma infer_price_shape_witness :
  exists c body digit,
    rupee :: lit "1049" = c :: body ++ [digit] /\ is_symbol c = true /\
    @is_digit ascii_unicode digit = true /\
    List.forallb (@inner_char ascii_unicode) body = true.
Proof.
  exact (@infer_price_shape ascii_unicode price_page (rupee :: lit "1049") eq_refl).
Defined.

Lemma heuristic_price_has_currency_witness :
  exists record price,
    outcome_of (@extract_from_html ascii_unicode example_parser simple_select_one (lit "T")
                  price_html []) = Returned record /\
    dict_get record (lit "price") = Some (VDict price) /\
    dict_get price (lit "currency") = Some (VStr [rupee]).
Proof.
  destruct (@heuristic_price_has_currency ascii_unicode example_parser simple_select_one
              (lit "T") price_html [] eq_refl)
    as (record & price & Hrun & Hprice & [[Hnone _]|(c & rest & Hp & _ & _ & Hcur)]).
  - discriminate Hnone.
  - exists record, price. split; [exact Hrun|]. split; [exact Hprice|].
    injection Hp as <- _. exact Hcur.
Defined.

Lemma amount_read_when_digits_witness :
  exists record price,
    @normalize_fields ascii_unicode (lit "T") [(lit "price", Some (lit "$ 1,049.50"))]
    = (Returned record, []) /\
    dict_get record (lit "price") = Some (VDict price) /\
    (dict_get price (lit "amount") = Some VNone
     <-> List.existsb (@is_digit ascii_unicode) (lit "$ 1,049.50") = false).
Proof.
  exact (@amount_read_when_digits ascii_unicode (lit "T")
           [(lit "price", Some (lit "$ 1,049.50"))] (lit "$ 1,049.50")
           ascii_digits_ok eq_refl eq_refl).
Defined.

Lemma plain_price_normalized_witness :
  exists record,
    @normalize_fields ascii_unicode (lit "T") [(lit "price", Some (lit "$25"))]
    = (Returned record, []) /\
    dict_get record (lit "price")
    = Some (VDict [ (lit "raw", VStr (lit "$25")); (lit "amount", VFloat (Finite false 25 0));
                    (lit "currency", VStr (lit "$")) ]).
Proof.
  apply (@plain_price_normalized ascii_unicode (lit "T") [(lit "price", Some (lit "$25"))]
           36%N (lit "25") 25%N ascii_digits_ok);
    [reflexivity | reflexivity | discriminate | reflexivity | reflexivity].
Defined.

Lemma sample_price_round_trip_witness :
  exists record,
    @normalize_fields ascii_unicode (lit "T") [(lit "price", Some (sample_price 1))]
    = (Returned record, []) /\
    dict_get record (lit "price")
    = Some (VDict [ (lit "raw", VStr (rupee :: lit "1049"));
                    (lit "amount", VFloat (Finite false 1049 0));
                    (lit "currency", VStr [rupee]) ]).
Proof. exact (@sample_price_round_trip ascii_unicode (lit "T") 1%N ascii_digits_ok). Defined.

Lemma infer_availability_window_witness :
  (length (lit "on now; the standard model is in stock today") <= 80)%nat /\
  trimmed (lit "on now; the standard model is in stock today") /\
  substring (lit "on now; the standard model is in stock today")
            (@lower ascii_unicode (soup_get_text (lit " ") true preorder_page)) /\
  exists phrase,
    In phrase availability_phrases /\
    substring phrase (lit "on now; the standard model is in stock today").
Proof.
  exact (@infer_availability_window ascii_unicode preorder_page
           (lit "on now; the standard model is in stock today") eq_refl).
Defined.

Lemma infer_title_trimmed_witness :
  trimmed (lit "Widget X") /\
  (lit "Widget X" = [] -> meta_content (og_title_tag widget_page) = Some []
                          \/ meta_content (twitter_title_tag widget_page) = Some []).
Proof. exact (infer_title_trimmed widget_page (lit "Widget X") eq_refl). Defined.


Lemma apply_selectors_keeps_keys_witness :
  exists results,
    outcome_of (apply_selectors simple_select_one two_blanks_page caller_mapping)
    = Returned results /\
    keys results = keys caller_mapping /\ well_formed results.
Proof.
  exact (apply_selectors_keeps_keys simple_select_one two_blanks_page caller_mapping eq_refl).
Defined.

Lemma extract_degrades_to_heuristics_witness :
  outcome_of (@extract_from_html ascii_unicode example_parser simple_select_one (lit "T")
                price_html useless_mapping)
  = outcome_of (@extract_from_html ascii_unicode example_parser simple_select_one (lit "T")
                  price_html []).
Proof.
  apply (@extract_degrades_to_heuristics ascii_unicode example_parser simple_select_one
           (lit "T") price_html useless_mapping eq_refl).
  intros field selector [<-|[<-|[<-|[]]]] H; injection H as <-; reflexivity.
Defined.


Lemma run_inputs_records_witness :
  exists w',
    @run_inputs ascii_unicode example_site example_db example_parser simple_select_one
      true flaky_backend example_json (Some (lit "k")) example_clock true true true false
      0%nat example_world example_inputs = (Returned tt, w') /\
    results w'
    = results example_world
      ++ @records_alone ascii_unicode example_site example_db example_parser simple_select_one
           true flaky_backend example_json (Some (lit "k")) example_clock true true true
           caller_mapping (ticks example_world) example_inputs.
Proof.
  exact (@run_inputs_records ascii_unicode example_site example_db example_parser
           simple_select_one true flaky_backend example_json (Some (lit "k")) example_clock
           true true true false 0%nat example_world caller_mapping example_inputs
           (lookup_insert_eq _ _ _)).
Defined.

Lemma run_inputs_without_live_fetch_witness :
  exists w' evs,
    @run_inputs ascii_unicode example_site example_db example_parser simple_select_one
      true flaky_backend example_json (Some (lit "k")) example_clock false true true false
      0%nat example_world example_inputs = (Returned tt, w') /\
    happened w' = happened example_world ++ evs /\
    List.existsb fetches_or_saves evs = false /\
    length (results w') = 2%nat.
Proof.
  exact (@run_inputs_without_live_fetch ascii_unicode example_site example_db example_parser
           simple_select_one true flaky_backend example_json (Some (lit "k")) example_clock
           false true true false 0%nat example_world caller_mapping example_inputs
           eq_refl (lookup_insert_eq _ _ _)).
Defined.

Lemma run_inputs_sources_witness :
  exists w',
    @run_inputs ascii_unicode example_site example_db example_parser simple_select_one
      true flaky_backend example_json (Some (lit "k")) example_clock true true true false
      0%nat example_world example_inputs = (Returned tt, w') /\
    forall r, In r (results w') ->
      In r (results example_world) \/
      (keys r = field_names ++ [lit "extraction_timestamp"; lit "_source"] /\
       exists inp html src,
         In inp example_inputs /\
         page_of example_site example_db true true inp = Some (html, src) /\
         dict_get r (lit "_source") = Some (VStr src)).
Proof.
  exact (@run_inputs_sources ascii_unicode example_site example_db example_parser
           simple_select_one true flaky_backend example_json (Some (lit "k")) example_clock
           true true true false 0%nat example_world caller_mapping example_inputs
           (lookup_insert_eq _ _ _)).
Defined.

Lemma process_url_fetches_first_witness :
  exists w' after,
    @process_input ascii_unicode example_site example_db example_parser simple_select_one
      true flaky_backend example_json (Some (lit "k")) example_clock true true true false
      0%nat example_world (Url (lit "http://shop.example/p")) = (Returned tt, w') /\
    happened w'
    = happened example_world
      ++ RequestsGet (lit "http://shop.example/p") 10 default_headers
         :: SnapshotToDb DB_PATH (lit "https://shop.example/p") price_html :: after /\
    length (results w') = 1%nat.
Proof.
  destruct (@process_url_fetches_first ascii_unicode example_site example_db example_parser
              simple_select_one true flaky_backend example_json (Some (lit "k")) example_clock
              true true true false 0%nat example_world caller_mapping
              (lit "http://shop.example/p") eq_refl (lookup_insert_eq _ _ _))
    as (w' & after & Hrun & Hhap & [(r & t & Hr & _ & _ & Hafter & Hres)
                                   |[([(e & He)|(r & Hr & Hs)] & _)
                                    |(r & e & _ & _ & _ & Hdb & _)]]).
  - injection Hr as <-. exists w'. exists (List.map Inner t).
    split; [exact Hrun|]. split; [now rewrite Hhap, Hafter|]. now rewrite Hres.
  - discriminate He.
  - injection Hr as <-. cbn in Hs. lia.
  - discriminate Hdb.
Defined.

Lemma collected_urls_clean_witness :
  lit "https://a.example/p" <> [] /\ trimmed (lit "https://a.example/p") /\
  List.existsb is_linebreak (lit "https://a.example/p") = false /\
  substring (lit "https://a.example/p") example_urls_text.
Proof.
  exact (collected_urls_clean (fun _ => Raised (ValueError [])) example_urls_text
           [(lit "price.html", price_html)] None
           [Url (lit "https://a.example/p"); Url (lit "https://b.example/q");
            Upload (lit "price.html") price_html]
           (lit "https://a.example/p") eq_refl (or_introl eq_refl)).
Defined.

Lemma heuristic_price_has_amount_witness :
  exists record price f,
    outcome_of (@extract_from_html ascii_unicode example_parser simple_select_one (lit "T")
                  price_html []) = Returned record /\
    dict_get record (lit "price") = Some (VDict price) /\
    dict_get price (lit "raw") = Some (VStr (rupee :: lit "1049")) /\
    dict_get price (lit "amount") = Some (VFloat f).
Proof.
  exact (@heuristic_price_has_amount ascii_unicode example_parser simple_select_one (lit "T")
           price_html [] (rupee :: lit "1049") ascii_digits_ok eq_refl eq_refl eq_refl).
Defined.

Lemma run_inputs_offline_witness :
  exists w' evs,
    @run_inputs ascii_unicode example_site example_db example_parser simple_select_one
      true flaky_backend example_json None example_clock false true true false
      0%nat example_world example_inputs = (Returned tt, w') /\
    happened w' = happened example_world ++ evs /\
    List.existsb uses_network evs = false.
Proof.
  exact (@run_inputs_offline ascii_unicode example_site example_db example_parser
           simple_select_one true flaky_backend example_json None example_clock
           false true true false 0%nat example_world caller_mapping example_inputs
           eq_refl eq_refl (lookup_insert_eq _ _ _)).
Defined.
